(** * Browser-profile synthesis pipeline: a shallow embedding

    The development follows the TypeScript sources function by function:
    - [Dedup]      utils/deduplicationEngine.ts   DeduplicationEngine
    - [Merge]      utils/enhancedMergeEngine.ts   EnhancedMergeEngine
    - [Normalizer] utils/universalDataNormalizer  UniversalDataNormalizer
    - [Extractor]  utils/realDataExtraction       RealDataExtractor (Chrome)
    - [Recovery]   the SQLite corruption handler  SQLiteCorruptionHandler

    Conventions.  A JavaScript string is a [string]: its code units are
    taken below 256.  Integer-valued JavaScript numbers (counters, visit
    counts, [Date] time values in milliseconds) are [Z]; the fractional ones
    (similarity scores, thresholds, draws of [Math.random]) are exact
    rationals [Q].  A property that may be [undefined] is an [option].
    Logging through [logCallback] has no effect on any value and is left
    out, except in [Recovery], where the entry into each recovery method is
    recorded in a trace. *)

From Stdlib Require Import ZArith List String Ascii Bool Lia QArith Qround.
From Stdlib Require Import DecimalString.
From ExtLib Require Import Structures.Monad Structures.MonadState
  Data.Monads.StateMonad.
Import ListNotations.

Local Open Scope string_scope.
Local Open Scope Z_scope.

(* ===================================================================== *)
(** ** JavaScript strings and the [||] operator *)
(* ===================================================================== *)

Module JS.

Definition code (c : ascii) : N := N_of_ascii c.

Definition in_range (lo hi : N) (c : ascii) : bool :=
  (N.leb lo (code c) && N.leb (code c) hi)%bool.

(** [String.prototype.toLowerCase] on code units below 256: A-Z, and the
    Latin-1 capitals U+00C0..U+00DE except the multiplication sign. *)
Definition lower_char (c : ascii) : ascii :=
  if (in_range 65 90 c
      || (in_range 192 222 c && negb (N.eqb (code c) 215)))%bool
  then ascii_of_N (code c + 32)
  else c.

Fixpoint toLowerCase (s : string) : string :=
  match s with
  | EmptyString => EmptyString
  | String c r => String (lower_char c) (toLowerCase r)
  end.

(** White space and line terminators below 256: TAB, LF, VT, FF, CR,
    SPACE and NBSP. *)
Definition is_space (c : ascii) : bool :=
  (in_range 9 13 c || N.eqb (code c) 32 || N.eqb (code c) 160)%bool.

Fixpoint trimStart (s : string) : string :=
  match s with
  | EmptyString => EmptyString
  | String c r => if is_space c then trimStart r else s
  end.

(** Removes the longest suffix all of whose characters satisfy [p]. *)
Fixpoint dropTrailing (p : ascii -> bool) (s : string) : string :=
  match s with
  | EmptyString => EmptyString
  | String c r =>
      match dropTrailing p r with
      | EmptyString => if p c then EmptyString else String c EmptyString
      | r' => String c r'
      end
  end.

Definition trimEnd (s : string) : string := dropTrailing is_space s.

Definition trim (s : string) : string := trimEnd (trimStart s).

Fixpoint startsWith (p s : string) : bool :=
  match p, s with
  | EmptyString, _ => true
  | String a p', String b s' => (Ascii.eqb a b && startsWith p' s')%bool
  | String _ _, EmptyString => false
  end.

(** [s.includes(t)] *)
Fixpoint includes (s t : string) : bool :=
  (startsWith t s
   || match s with
      | EmptyString => false
      | String _ r => includes r t
      end)%bool.

Fixpoint drop (n : nat) (s : string) : string :=
  match n, s with
  | O, _ => s
  | S _, EmptyString => EmptyString
  | S n', String _ r => drop n' r
  end.

(** [s.replace(/^www\./, '')] *)
Definition replace_leading_www (s : string) : string :=
  if startsWith "www." s then drop 4 s else s.

Definition is_slash (c : ascii) : bool := Ascii.eqb c "/"%char.

(** [s.replace(/\/+$/, '')] *)
Definition replace_trailing_slashes (s : string) : string :=
  dropTrailing is_slash s.

(** [a || b] for a possibly missing string: the empty string is falsy. *)
Definition or_string (a : option string) (b : string) : string :=
  match a with
  | Some s => if String.eqb s "" then b else s
  | None => b
  end.

(** [a || b] for a possibly missing number: zero is falsy. *)
Definition or_number (a : option Z) (b : Z) : Z :=
  match a with
  | Some n => if Z.eqb n 0 then b else n
  | None => b
  end.

(** [a || b] for a possibly missing string, with a possibly missing
    result ([... || undefined]). *)
Definition or_else (a b : option string) : option string :=
  match a with
  | Some s => if String.eqb s "" then b else a
  | None => b
  end.

(** [s.split(sep)] for a one-character separator. *)
Fixpoint split (sep : ascii) (s : string) : list string :=
  match s with
  | EmptyString => [EmptyString]
  | String c r =>
      if Ascii.eqb c sep then EmptyString :: split sep r
      else match split sep r with
           | first :: others => String c first :: others
           | [] => [String c EmptyString]
           end
  end.

(** The value of a digit in radix [radix], if it is one. *)
Definition digit_value (radix : N) (c : ascii) : option Z :=
  let v :=
    if in_range 48 57 c then Some (code c - 48)%N
    else if in_range 97 122 c then Some (code c - 87)%N
    else if in_range 65 90 c then Some (code c - 55)%N
    else None in
  match v with
  | Some d => if N.ltb d radix then Some (Z.of_N d) else None
  | None => None
  end.

(** Reads the longest prefix of digits; [acc] is [None] until the first
    digit has been read. *)
Fixpoint digits (radix : N) (s : string) (acc : option Z) : option Z :=
  match s with
  | EmptyString => acc
  | String c r =>
      match digit_value radix c with
      | Some d =>
          digits radix r
            (Some (match acc with Some a => a | None => 0 end
                   * Z.of_N radix + d))
      | None => acc
      end
  end.

(** [parseInt(s)] without a radix argument; [None] is NaN. *)
Definition parseInt (inputString : string) : option Z :=
  let s := trimStart inputString in
  let negative := startsWith "-" s in
  let s :=
    if (startsWith "-" s || startsWith "+" s)%bool then drop 1 s else s in
  let hex := (startsWith "0x" s || startsWith "0X" s)%bool in
  let magnitude :=
    if hex then digits 16 (drop 2 s) None else digits 10 s None in
  match magnitude with
  | Some m => Some (if negative then - m else m)
  | None => None
  end.

(** [parseInt(x)] for a property that may be missing: [undefined] is
    converted to the string ["undefined"], which has no digits. *)
Definition parseInt_any (x : option string) : option Z :=
  match x with
  | Some s => parseInt s
  | None => None
  end.

End JS.

(* ===================================================================== *)
(** ** The host's [URL] constructor *)
(* ===================================================================== *)

(** The getters that the pipeline reads; [searchParams] lists the
    name-value pairs of the query in order. *)
Record URL : Type := mkURL {
  protocol : string;
  hostname : string;
  pathname : string;
  searchParams : list (string * string)
}.

(** A URL parser: [None] stands for the [TypeError] that [new URL(s)]
    throws.  [URL] is supplied by the JavaScript host, so the engine is
    embedded over an arbitrary parser; the universally quantified theorems
    hold for every parser. *)
Definition URLParser : Type := string -> option URL.

Module SimpleURL.

Definition is_letter (c : ascii) : bool := JS.in_range 97 122 c.

Definition is_digit (c : ascii) : bool := JS.in_range 48 57 c.

Definition is_dot (c : ascii) : bool := Ascii.eqb c "."%char.

Definition is_host_char (c : ascii) : bool :=
  (is_letter c || is_digit c || is_dot c)%bool.

Definition is_path_char (c : ascii) : bool :=
  (is_letter c || JS.in_range 65 90 c || is_digit c
   || JS.is_slash c || Ascii.eqb c "-"%char || Ascii.eqb c "_"%char)%bool.

Fixpoint all_chars (p : ascii -> bool) (s : string) : bool :=
  match s with
  | EmptyString => true
  | String c r => (p c && all_chars p r)%bool
  end.

(** Splits at the first character that is not a host character. *)
Fixpoint span_host (s : string) : string * string :=
  match s with
  | EmptyString => (EmptyString, EmptyString)
  | String c r =>
      if is_host_char c
      then let (h, rest) := span_host r in (String c h, rest)
      else (EmptyString, s)
  end.

(** Every dot-separated label is non-empty and the last one consists of
    letters only (so that the host is a domain, not an IPv4 address).
    [nonempty] and [letters] describe the label read so far. *)
Fixpoint labels_ok (nonempty letters : bool) (s : string) : bool :=
  match s with
  | EmptyString => (nonempty && letters)%bool
  | String c r =>
      if is_dot c then (nonempty && labels_ok false true r)%bool
      else labels_ok true (letters && is_letter c)%bool r
  end.

Definition path_ok (p : string) : bool :=
  ((String.eqb p "" || JS.startsWith "/" p) && all_chars is_path_char p)%bool.

Definition after_scheme (scheme rest : string) : option URL :=
  let (h, p) := span_host rest in
  if (labels_ok false true h && path_ok p)%bool
  then Some (mkURL scheme h (if String.eqb p "" then "/" else p) [])
  else None.

(** A model of [new URL(s)] on a fragment of the WHATWG grammar.  It
    accepts [http://] or [https://], then a host of non-empty labels of
    lower-case letters and digits separated by dots, the last label of
    letters only, then nothing or a path that starts with [/] and consists
    of letters, digits, [/], [-] and [_]; an empty path reads back as [/]
    and there is no query.
    On the strings it accepts, and on strings without any colon (which
    have no scheme, so that the constructor throws), it agrees with the
    host's constructor.  It is used for closed examples only, each of
    which stays inside these two classes. *)
Definition parse : URLParser := fun s =>
  if JS.startsWith "http://" s then after_scheme "http:" (JS.drop 7 s)
  else if JS.startsWith "https://" s then after_scheme "https:" (JS.drop 8 s)
  else None.

End SimpleURL.

(* ===================================================================== *)
(** ** Dates, decimal numerals *)
(* ===================================================================== *)

(** A [Date] object is its time value in milliseconds; [None] is the
    Invalid Date, whose time value is NaN. *)
Definition Date : Type := option Z.

Module DateOps.

(** [TimeClip] of ECMA-262, on an integral time value. *)
Definition TimeClip (t : Z) : Date :=
  if Z.abs t >? 8640000000000000 then None else Some t.

(** [new Date(n)] for a number [n]; the fractional part has been dropped
    by the caller with [Z.quot]. *)
Definition ofNumber (n : option Z) : Date :=
  match n with
  | Some t => TimeClip t
  | None => None
  end.

(** [a > b] on dates: both are converted to numbers, NaN compares false. *)
Definition gtb (a b : Date) : bool :=
  match a, b with
  | Some x, Some y => x >? y
  | _, _ => false
  end.

Definition ltb (a b : Date) : bool := gtb b a.

End DateOps.

(** [`${n}`] for a non-negative integer. *)
Definition decimal (n : nat) : string :=
  NilEmpty.string_of_uint (Nat.to_uint n).

(** [`${z}`] for an integer. *)
Definition number_to_string (z : Z) : string :=
  if z <? 0 then "-" ++ decimal (Z.to_nat (- z)) else decimal (Z.to_nat z).

(** [array.map((x, index) => f(x, index))], from index [i] on. *)
Fixpoint map_index {A B : Type} (f : A -> nat -> B) (i : nat) (l : list A)
  : list B :=
  match l with
  | [] => []
  | x :: r => f x i :: map_index f (S i) r
  end.

(* ===================================================================== *)
(** ** The Universal Schema (universalDataNormalizer) *)
(* ===================================================================== *)

Inductive BrowserType : Type := FIREFOX | CHROME | EDGE | BRAVE | CHROMIUM.

Module UniversalBookmark.
Record t : Type := mk {
  id : string;
  title : string;
  url : string;
  folder : list string;
  dateAdded : Date;
  dateModified : option Date;
  sourceProfile : string;
  sourceBrowser : BrowserType;
  tags : list string;
  description : option string;
  favicon : option string;
  visitCount : option Z
}.
End UniversalBookmark.

Module UniversalHistoryEntry.
Record t : Type := mk {
  id : string;
  url : string;
  title : string;
  visitCount : Z;
  lastVisit : Date;
  firstVisit : Date;
  sourceProfile : string;
  sourceBrowser : BrowserType;
  duration : option Z;
  referrer : option string;
  searchTerm : option string
}.
End UniversalHistoryEntry.

Module UniversalLogin.
Record t : Type := mk {
  id : string;
  url : string;
  domain : string;
  username : string;
  passwordHash : string;
  dateCreated : Date;
  dateLastUsed : Date;
  datePasswordChanged : option Date;
  sourceProfile : string;
  sourceBrowser : BrowserType;
  formSubmitUrl : option string;
  usernameField : option string;
  passwordField : option string;
  timesUsed : Z
}.
End UniversalLogin.

(** The arrays of [NormalizedDataSet] that the engines read. *)
Record NormalizedDataSet : Type := mkDataSet {
  bookmarks : list UniversalBookmark.t;
  history : list UniversalHistoryEntry.t;
  logins : list UniversalLogin.t
}.

(* ===================================================================== *)
(** ** DeduplicationEngine *)
(* ===================================================================== *)

Module Dedup.

Module UB := UniversalBookmark.
Module UH := UniversalHistoryEntry.
Module UL := UniversalLogin.

Inductive GroupType : Type := TBookmark | THistory | TLogin.

(** [items: any[]] holds records of the three schemas. *)
Inductive Item : Type :=
| IBookmark (b : UB.t)
| IHistory (h : UH.t)
| ILogin (l : UL.t).

Record DuplicateGroup : Type := mkGroup {
  group_id : string;
  type : GroupType;
  items : list Item;
  confidence : Q;
  reason : string;
  suggestedKeep : option Item
}.

Inductive BookmarkStrategy : Type :=
| bm_keep_newest | bm_keep_oldest | bm_keep_most_used | bm_manual | bm_keep_all.

Inductive HistoryStrategy : Type :=
| hs_merge_visits | hs_keep_newest | hs_keep_most_visits | hs_manual
| hs_keep_all.

Inductive LoginStrategy : Type :=
| lg_keep_newest | lg_keep_most_used | lg_manual | lg_keep_all.

Record DeduplicationConfig : Type := mkConfig {
  bookmarkStrategy : BookmarkStrategy;
  historyStrategy : HistoryStrategy;
  loginStrategy : LoginStrategy;
  urlSimilarityThreshold : Q;
  titleSimilarityThreshold : Q;
  autoApproveHighConfidence : bool;
  previewAllChanges : bool
}.

Record DeduplicationResult : Type := mkResult {
  duplicateGroups : list DuplicateGroup;
  potentialMerges : Z;
  estimatedReduction : Z;
  requiresUserReview : Z
}.

(** *** Small JavaScript idioms *)

(** [array.reduce(f)] without an initial value; [None] is the [TypeError]
    on an empty array. *)
Definition reduce1 {A : Type} (f : A -> A -> A) (l : list A) : option A :=
  match l with
  | [] => None
  | first :: rest => Some (fold_left f rest first)
  end.

(** [processed.has(id)] on a [Set<string>] kept as the list of added ids. *)
Definition has (processed : list string) (id : string) : bool :=
  existsb (String.eqb id) processed.

Definition opt_string_eqb (a b : option string) : bool :=
  match a, b with
  | Some x, Some y => String.eqb x y
  | None, None => true
  | _, _ => false
  end.

(** [a >= b], [a > b], [a < b] and [Math.max] on numbers. *)
Definition geb (a b : Q) : bool := Qle_bool b a.
Definition gtb (a b : Q) : bool := negb (Qle_bool a b).
Definition ltb (a b : Q) : bool := negb (Qle_bool b a).
Definition max (a b : Q) : Q := if Qle_bool a b then b else a.

(** *** Which record of a group to keep *)

Definition suggestBookmarkToKeep (bookmarks : list UB.t)
  (strategy : BookmarkStrategy) : option UB.t :=
  match strategy with
  | bm_keep_newest =>
      reduce1 (fun newest current =>
                 if DateOps.gtb (UB.dateAdded current) (UB.dateAdded newest)
                 then current else newest) bookmarks
  | bm_keep_oldest =>
      reduce1 (fun oldest current =>
                 if DateOps.ltb (UB.dateAdded current) (UB.dateAdded oldest)
                 then current else oldest) bookmarks
  | bm_keep_most_used =>
      reduce1 (fun mostUsed current =>
                 if JS.or_number (UB.visitCount current) 0
                      >? JS.or_number (UB.visitCount mostUsed) 0
                 then current else mostUsed) bookmarks
  | _ => hd_error bookmarks
  end.

Definition suggestHistoryToKeep (entries : list UH.t)
  (strategy : HistoryStrategy) : option UH.t :=
  match strategy with
  | hs_keep_newest =>
      reduce1 (fun newest current =>
                 if DateOps.gtb (UH.lastVisit current) (UH.lastVisit newest)
                 then current else newest) entries
  | hs_keep_most_visits =>
      reduce1 (fun mostVisits current =>
                 if UH.visitCount current >? UH.visitCount mostVisits
                 then current else mostVisits) entries
  | hs_merge_visits =>
      reduce1 (fun mostVisits current =>
                 if UH.visitCount current >? UH.visitCount mostVisits
                 then current else mostVisits) entries
  | _ => hd_error entries
  end.

Definition suggestLoginToKeep (logins : list UL.t)
  (strategy : LoginStrategy) : option UL.t :=
  match strategy with
  | lg_keep_newest =>
      reduce1 (fun newest current =>
                 if DateOps.gtb (UL.dateLastUsed current)
                      (UL.dateLastUsed newest)
                 then current else newest) logins
  | lg_keep_most_used =>
      reduce1 (fun mostUsed current =>
                 if UL.timesUsed current >? UL.timesUsed mostUsed
                 then current else mostUsed) logins
  | _ => hd_error logins
  end.

Definition generateDuplicateReason (items : list Item) (type : GroupType)
  : string :=
  let count := decimal (List.length items) in
  match type with
  | TBookmark => count ++ " bookmarks with similar URLs and titles"
  | THistory => count ++ " history entries for the same URL"
  | TLogin =>
      count ++ " login credentials for the same domain and username"
  end.

(** Property reads on an [any]-typed item; [None] is [undefined]. *)
Definition item_url (item : Item) : option string :=
  match item with
  | IBookmark b => Some (UB.url b)
  | IHistory h => Some (UH.url h)
  | ILogin l => Some (UL.url l)
  end.

Definition item_domain (item : Item) : option string :=
  match item with
  | ILogin l => Some (UL.domain l)
  | _ => None
  end.

Definition item_username (item : Item) : option string :=
  match item with
  | ILogin l => Some (UL.username l)
  | _ => None
  end.

(** [items.every(item => f(item, items[0]))] *)
Definition every_vs_first (f : Item -> Item -> bool) (items : list Item)
  : bool :=
  match items with
  | [] => true
  | first :: _ => forallb (fun item => f item first) items
  end.

(** *** Levenshtein distance *)

(** One pass of the inner loop [for i = 1 .. str1.length] in row [j]:
    [c2] is [str2[j-1]], [diag] is [matrix[j-1][i-1]], [left] is
    [matrix[j][i-1]], [up] lists [matrix[j-1][i ..]] and [s1] is
    [str1[i-1 ..]].  The result lists [matrix[j][i ..]]. *)
Fixpoint fill_row (c2 : ascii) (s1 : string) (diag left : nat) (up : list nat)
  : list nat :=
  match s1, up with
  | String c1 s1', u :: up' =>
      let indicator := if Ascii.eqb c1 c2 then 0%nat else 1%nat in
      let cell := Nat.min (left + 1) (Nat.min (u + 1) (diag + indicator)) in
      cell :: fill_row c2 s1' u cell up'
  | _, _ => []
  end.

(** The outer loop [for j = 1 .. str2.length]; [prev] is row [j-1]. *)
Fixpoint fill_rows (str1 s2 : string) (j : nat) (prev : list nat) : list nat :=
  match s2 with
  | EmptyString => prev
  | String c2 s2' =>
      let row := j :: fill_row c2 str1 (hd 0%nat prev) j (tl prev) in
      fill_rows str1 s2' (S j) row
  end.

Definition levenshteinDistance (str1 str2 : string) : nat :=
  let row0 := seq 0 (S (String.length str1)) in
  last (fill_rows str1 str2 1 row0) 0%nat.

(** *** String and URL similarity *)

Definition calculateStringSimilarity (str1 str2 : string) : Q :=
  if String.eqb str1 str2 then 1%Q
  else
    let longer :=
      if (String.length str2 <? String.length str1)%nat then str1 else str2 in
    let shorter :=
      if (String.length str2 <? String.length str1)%nat then str2 else str1 in
    if (String.length longer =? 0)%nat then 1%Q
    else
      let distance :=
        levenshteinDistance (JS.toLowerCase longer) (JS.toLowerCase shorter) in
      (inject_Z (Z.of_nat (String.length longer) - Z.of_nat distance)
       / inject_Z (Z.of_nat (String.length longer)))%Q.

(** The number of records a set of groups would remove: every member of
    a group beyond the first. *)
Definition members_beyond_first (groups : list DuplicateGroup) : Z :=
  fold_right
    (fun group rest => (Z.of_nat (List.length (items group)) - 1) + rest)
    0 groups.

Section WithParser.

Variable newURL : URLParser.

Definition normalizeUrl (url : string) : string :=
  match newURL url with
  | Some urlObj =>
      let normalized :=
        protocol urlObj ++ "//"
          ++ JS.replace_leading_www (hostname urlObj) ++ pathname urlObj in
      JS.replace_trailing_slashes normalized
  | None => JS.trim (JS.toLowerCase url)
  end.

Definition calculateUrlSimilarity (url1 url2 : string) : Q :=
  if String.eqb url1 url2 then 1%Q
  else
    let norm1 := normalizeUrl url1 in
    let norm2 := normalizeUrl url2 in
    if String.eqb norm1 norm2 then 0.95%Q
    else if (JS.includes norm1 norm2 || JS.includes norm2 norm1)%bool
         then 0.8%Q
         else calculateStringSimilarity norm1 norm2.

Record Similarity : Type := mkSim { sim_url : Q; sim_title : Q }.

Definition calculateBookmarkSimilarity (bookmark1 bookmark2 : UB.t)
  : Similarity :=
  mkSim (calculateUrlSimilarity (UB.url bookmark1) (UB.url bookmark2))
        (calculateStringSimilarity (UB.title bookmark1) (UB.title bookmark2)).

(** The engine calls this with [TBookmark] and bookmark items only; a
    two-element group of another shape under [TBookmark] falls to the
    default. *)
Definition calculateGroupConfidence (items : list Item) (type : GroupType)
  : Q :=
  match type with
  | THistory =>
      if every_vs_first
           (fun item first => opt_string_eqb (item_url item) (item_url first))
           items
      then 1%Q else 0.8%Q
  | TLogin =>
      if every_vs_first
           (fun item first =>
              (opt_string_eqb (item_domain item) (item_domain first)
               && opt_string_eqb (item_username item) (item_username first))
              %bool) items
      then 0.95%Q else 0.8%Q
  | TBookmark =>
      match items with
      | [IBookmark b0; IBookmark b1] =>
          let similarity := calculateBookmarkSimilarity b0 b1 in
          max (sim_url similarity) (sim_title similarity)
      | _ => 0.8%Q
      end
  end.

(** *** Bookmarks: pairwise grouping *)

(** The test that lets [other] join the group of [bookmark]. *)
Definition joins (config : DeduplicationConfig) (similarity : Similarity)
  : bool :=
  (geb (sim_url similarity) (urlSimilarityThreshold config)
   || (geb (sim_title similarity) (titleSimilarityThreshold config)
       && gtb (sim_url similarity) 0.7%Q))%bool.

(** The loop [for j = i + 1 ..]: [rest] is [bookmarks[i+1 ..]]; returns the
    records pushed on [duplicates] and the updated [processed]. *)
Fixpoint similar_bookmarks (config : DeduplicationConfig) (bookmark : UB.t)
  (rest : list UB.t) (processed : list string) : list UB.t * list string :=
  match rest with
  | [] => ([], processed)
  | other :: rest' =>
      if has processed (UB.id other)
      then similar_bookmarks config bookmark rest' processed
      else if joins config (calculateBookmarkSimilarity bookmark other)
      then let (more, processed') :=
             similar_bookmarks config bookmark rest'
               (UB.id other :: processed) in
           (other :: more, processed')
      else similar_bookmarks config bookmark rest' processed
  end.

Definition bookmark_group (config : DeduplicationConfig)
  (duplicateGroups : list DuplicateGroup) (duplicates : list UB.t)
  : DuplicateGroup :=
  let items := map IBookmark duplicates in
  mkGroup ("bookmark_dup_" ++ decimal (List.length duplicateGroups))
    TBookmark items
    (calculateGroupConfidence items TBookmark)
    (generateDuplicateReason items TBookmark)
    (option_map IBookmark
       (suggestBookmarkToKeep duplicates (bookmarkStrategy config))).

(** The loop [for i = 0 ..]: [bookmarks] is [bookmarks[i ..]]. *)
Fixpoint bookmark_groups (config : DeduplicationConfig)
  (bookmarks : list UB.t) (processed : list string)
  (duplicateGroups : list DuplicateGroup) : list DuplicateGroup :=
  match bookmarks with
  | [] => duplicateGroups
  | bookmark :: rest =>
      if has processed (UB.id bookmark)
      then bookmark_groups config rest processed duplicateGroups
      else
        let (more, processed') :=
          similar_bookmarks config bookmark rest
            (UB.id bookmark :: processed) in
        let duplicates := bookmark :: more in
        if (1 <? List.length duplicates)%nat
        then bookmark_groups config rest processed'
               (duplicateGroups
                  ++ [bookmark_group config duplicateGroups duplicates])%list
        else bookmark_groups config rest processed' duplicateGroups
  end.

Definition findBookmarkDuplicates (bookmarks : list UB.t)
  (config : DeduplicationConfig) : list DuplicateGroup :=
  bookmark_groups config bookmarks [] [].

(** *** History: exact grouping by normalised URL *)

(** [urlGroups] is a [Map] in insertion order.  This is
    [if (!urlGroups.has(k)) urlGroups.set(k, []); urlGroups.get(k).push(e)]. *)
Fixpoint group_push (normalized : string) (entry : UH.t)
  (urlGroups : list (string * list UH.t)) : list (string * list UH.t) :=
  match urlGroups with
  | [] => [(normalized, [entry])]
  | (k, entries) :: others =>
      if String.eqb k normalized
      then (k, (entries ++ [entry])%list) :: others
      else (k, entries) :: group_push normalized entry others
  end.

Definition group_by_url (history : list UH.t) : list (string * list UH.t) :=
  fold_left (fun urlGroups entry =>
               group_push (normalizeUrl (UH.url entry)) entry urlGroups)
    history [].

Definition history_group (config : DeduplicationConfig)
  (duplicateGroups : list DuplicateGroup) (entries : list UH.t)
  : DuplicateGroup :=
  mkGroup ("history_dup_" ++ decimal (List.length duplicateGroups))
    THistory (map IHistory entries) 1%Q
    ("Identical URLs with " ++ decimal (List.length entries)
       ++ " visits across browsers")
    (option_map IHistory
       (suggestHistoryToKeep entries (historyStrategy config))).

Definition findHistoryDuplicates (history : list UH.t)
  (config : DeduplicationConfig) : list DuplicateGroup :=
  fold_left (fun duplicateGroups (kv : string * list UH.t) =>
               let entries := snd kv in
               if (1 <? List.length entries)%nat
               then (duplicateGroups
                       ++ [history_group config duplicateGroups entries])%list
               else duplicateGroups)
    (group_by_url history) [].

(** *** Logins: exact grouping by domain and username *)

Fixpoint same_logins (login : UL.t) (rest : list UL.t)
  (processed : list string) : list UL.t * list string :=
  match rest with
  | [] => ([], processed)
  | other :: rest' =>
      if has processed (UL.id other)
      then same_logins login rest' processed
      else if (String.eqb (UL.domain login) (UL.domain other)
               && String.eqb (UL.username login) (UL.username other))%bool
      then let (more, processed') :=
             same_logins login rest' (UL.id other :: processed) in
           (other :: more, processed')
      else same_logins login rest' processed
  end.

Definition login_group (config : DeduplicationConfig)
  (duplicateGroups : list DuplicateGroup) (login : UL.t)
  (duplicates : list UL.t) : DuplicateGroup :=
  mkGroup ("login_dup_" ++ decimal (List.length duplicateGroups))
    TLogin (map ILogin duplicates) 0.95%Q
    ("Same domain (" ++ UL.domain login ++ ") and username ("
       ++ UL.username login ++ ")")
    (option_map ILogin (suggestLoginToKeep duplicates (loginStrategy config))).

Fixpoint login_groups (config : DeduplicationConfig) (logins : list UL.t)
  (processed : list string) (duplicateGroups : list DuplicateGroup)
  : list DuplicateGroup :=
  match logins with
  | [] => duplicateGroups
  | login :: rest =>
      if has processed (UL.id login)
      then login_groups config rest processed duplicateGroups
      else
        let (more, processed') :=
          same_logins login rest (UL.id login :: processed) in
        let duplicates := login :: more in
        if (1 <? List.length duplicates)%nat
        then login_groups config rest processed'
               (duplicateGroups
                  ++ [login_group config duplicateGroups login duplicates])%list
        else login_groups config rest processed' duplicateGroups
  end.

Definition findLoginDuplicates (logins : list UL.t)
  (config : DeduplicationConfig) : list DuplicateGroup :=
  login_groups config logins [] [].

(** *** The analysis *)

Definition analyzeDataset (dataset : NormalizedDataSet)
  (config : DeduplicationConfig) : DeduplicationResult :=
  let bookmarkDuplicates :=
    findBookmarkDuplicates (bookmarks dataset) config in
  let historyDuplicates := findHistoryDuplicates (history dataset) config in
  let loginDuplicates := findLoginDuplicates (logins dataset) config in
  let duplicateGroups :=
    ((([] ++ bookmarkDuplicates) ++ historyDuplicates) ++ loginDuplicates)%list
  in
  let potentialMerges :=
    fold_left (fun sum group => sum + Z.of_nat (List.length (items group)) - 1)
      duplicateGroups 0 in
  let requiresUserReview :=
    Z.of_nat
      (List.length
         (filter (fun group =>
                    (ltb (confidence group) 0.9%Q
                     || negb (autoApproveHighConfidence config))%bool)
            duplicateGroups)) in
  mkResult duplicateGroups potentialMerges potentialMerges requiresUserReview.

End WithParser.

End Dedup.


(* ===================================================================== *)
(** ** EnhancedMergeEngine *)
(* ===================================================================== *)

Module Merge.

(** [ConflictResolution] and [MergeDataType] of types/types.  The engine's
    [switch] statements also name [KEEP_MOST_USED], which the enum does not
    declare; it is kept here as one more strategy, so that what is proved
    for every strategy covers both readings. *)
Inductive ConflictResolution : Type :=
| KEEP_NEWEST | KEEP_OLDEST | KEEP_MOST_USED | MANUAL | KEEP_ALL | CUSTOM.

Inductive MergeDataType : Type :=
| BOOKMARKS | HISTORY | PASSWORDS | COOKIES | EXTENSIONS | PREFERENCES
| FORM_HISTORY | PERMISSIONS | SESSIONS | ALL.

(** The fields of [MergeConfig] that the engine reads. *)
Record MergeConfig : Type := mkConfig {
  mergeTypes : list MergeDataType;
  conflictResolution : ConflictResolution;
  dryRun : bool
}.

(** Records as [RealDataExtractor] builds them, with the [mergedFrom] tag
    that the engine adds. *)
Module Bookmark.
Record t : Type := mk {
  id : string;
  title : string;
  url : string;
  dateAdded : Date;
  lastModified : Date;
  visitCount : Z;
  folder : string;
  source : string;
  browserType : BrowserType;
  mergedFrom : option string
}.
End Bookmark.

Module HistoryEntry.
Record t : Type := mk {
  id : string;
  url : string;
  title : string;
  visitCount : Z;
  lastVisitTime : Date;
  typedCount : Z;
  source : string;
  browserType : BrowserType;
  mergedFrom : option string
}.
End HistoryEntry.

Module Login.
Record t : Type := mk {
  id : string;
  hostname : string;
  username : string;
  password : string;
  formSubmitURL : string;
  timeCreated : Date;
  timeLastUsed : Date;
  timesUsed : Z;
  source : string;
  browserType : BrowserType;
  mergedFrom : option string
}.
End Login.

(** The three arrays of [RealExtractionResult] that the engine reads and
    writes; the other arrays are never touched. *)
Record RealExtractionResult : Type := mkData {
  bookmarks : list Bookmark.t;
  history : list HistoryEntry.t;
  logins : list Login.t
}.

(** [Map<string, RealExtractionResult>], in insertion order; the keys of
    a [Map] are pairwise distinct. *)
Definition SourceData : Type := list (string * RealExtractionResult).

Fixpoint Map_get (sourceData : SourceData) (key : string)
  : option RealExtractionResult :=
  match sourceData with
  | [] => None
  | (k, v) :: others => if String.eqb k key then Some v else Map_get others key
  end.

(** The store after the call: the entry under [key] is the mutated target
    object. *)
Fixpoint Map_put (sourceData : SourceData) (key : string)
  (value : RealExtractionResult) : SourceData :=
  match sourceData with
  | [] => []
  | (k, v) :: others =>
      if String.eqb k key then (k, value) :: others
      else (k, v) :: Map_put others key value
  end.

Record Counts : Type := mkCounts { merged : Z; conflicts : Z }.

Record Details : Type := mkDetails {
  d_bookmarks : Counts;
  d_history : Counts;
  d_logins : Counts;
  d_cookies : Counts;
  d_extensions : Counts;
  d_formHistory : Counts;
  d_permissions : Counts;
  d_sessions : Counts
}.

(** [MergeResult] without [executionTime], a difference of clock readings. *)
Record MergeResult : Type := mkResult {
  success : bool;
  mergedItems : Z;
  conflictsResolved : Z;
  errors : list string;
  details : Details
}.

(** *** Array idioms *)

(** [array.find(p)], together with the index of the element found (which
    is what [array.indexOf] of that element returns). *)
Fixpoint find_at {A : Type} (p : A -> bool) (l : list A) : option (nat * A) :=
  match l with
  | [] => None
  | x :: r =>
      if p x then Some (O, x)
      else match find_at p r with
           | Some (i, y) => Some (S i, y)
           | None => None
           end
  end.

(** [array[index] = value] for an index inside the array. *)
Fixpoint set_nth {A : Type} (index : nat) (value : A) (l : list A) : list A :=
  match l, index with
  | [], _ => []
  | _ :: r, O => value :: r
  | x :: r, S i => x :: set_nth i value r
  end.

(** [for (const a of arr) body]: the array iterator compares its index with
    the current length and reads the current element on every step, and
    [arr] may be an array that [body] itself changes.  [None] when [fuel]
    steps do not reach the end. *)
Fixpoint for_of {A S : Type} (fuel : nat) (arr : S -> list A)
  (body : A -> S -> S) (i : nat) (s : S) : option S :=
  match nth_error (arr s) i with
  | None => Some s
  | Some a =>
      match fuel with
      | O => None
      | Datatypes.S fuel' => for_of fuel' arr body (Datatypes.S i) (body a s)
      end
  end.

(** *** Conflict resolution *)

Definition shouldReplaceBookmark (existing incoming : Bookmark.t)
  (strategy : ConflictResolution) : bool :=
  match strategy with
  | KEEP_NEWEST =>
      DateOps.gtb (Bookmark.lastModified incoming)
        (Bookmark.lastModified existing)
  | KEEP_OLDEST =>
      DateOps.ltb (Bookmark.dateAdded incoming) (Bookmark.dateAdded existing)
  | KEEP_MOST_USED =>
      Bookmark.visitCount incoming >? Bookmark.visitCount existing
  | MANUAL => false
  | _ => false
  end.

Definition shouldReplaceLogin (existing incoming : Login.t)
  (strategy : ConflictResolution) : bool :=
  match strategy with
  | KEEP_NEWEST =>
      DateOps.gtb (Login.timeLastUsed incoming) (Login.timeLastUsed existing)
  | KEEP_OLDEST =>
      DateOps.ltb (Login.timeCreated incoming) (Login.timeCreated existing)
  | KEEP_MOST_USED => Login.timesUsed incoming >? Login.timesUsed existing
  | MANUAL => false
  | _ => false
  end.

(** *** The per-type merges *)

(** The target object and the two local counters of a merge. *)
Record Acc : Type := mkAcc {
  targetData : RealExtractionResult;
  acc_merged : Z;
  acc_conflicts : Z
}.

Definition set_bookmarks (d : RealExtractionResult) (l : list Bookmark.t) :=
  mkData l (history d) (logins d).
Definition set_history (d : RealExtractionResult) (l : list HistoryEntry.t) :=
  mkData (bookmarks d) l (logins d).
Definition set_logins (d : RealExtractionResult) (l : list Login.t) :=
  mkData (bookmarks d) (history d) l.

(** [{ ...bookmark, mergedFrom: profilePath }] *)
Definition bookmark_from (profilePath : string) (b : Bookmark.t) : Bookmark.t :=
  Bookmark.mk (Bookmark.id b) (Bookmark.title b) (Bookmark.url b)
    (Bookmark.dateAdded b) (Bookmark.lastModified b) (Bookmark.visitCount b)
    (Bookmark.folder b) (Bookmark.source b) (Bookmark.browserType b)
    (Some profilePath).

Definition history_from (profilePath : string) (h : HistoryEntry.t)
  : HistoryEntry.t :=
  HistoryEntry.mk (HistoryEntry.id h) (HistoryEntry.url h)
    (HistoryEntry.title h) (HistoryEntry.visitCount h)
    (HistoryEntry.lastVisitTime h) (HistoryEntry.typedCount h)
    (HistoryEntry.source h) (HistoryEntry.browserType h) (Some profilePath).

Definition login_from (profilePath : string) (l : Login.t) : Login.t :=
  Login.mk (Login.id l) (Login.hostname l) (Login.username l)
    (Login.password l) (Login.formSubmitURL l) (Login.timeCreated l)
    (Login.timeLastUsed l) (Login.timesUsed l) (Login.source l)
    (Login.browserType l) (Some profilePath).

(** The existing entry after [existingEntry.visitCount += ...] and the
    conditional assignment to [existingEntry.lastVisitTime]. *)
Definition combine_history (existingEntry historyEntry : HistoryEntry.t)
  : HistoryEntry.t :=
  HistoryEntry.mk (HistoryEntry.id existingEntry)
    (HistoryEntry.url existingEntry) (HistoryEntry.title existingEntry)
    (HistoryEntry.visitCount existingEntry
       + HistoryEntry.visitCount historyEntry)
    (if DateOps.gtb (HistoryEntry.lastVisitTime historyEntry)
          (HistoryEntry.lastVisitTime existingEntry)
     then HistoryEntry.lastVisitTime historyEntry
     else HistoryEntry.lastVisitTime existingEntry)
    (HistoryEntry.typedCount existingEntry)
    (HistoryEntry.source existingEntry)
    (HistoryEntry.browserType existingEntry)
    (HistoryEntry.mergedFrom existingEntry).

(** The body of [for (const bookmark of data.bookmarks)]. *)
Definition merge_bookmark (config : MergeConfig) (profilePath : string)
  (bookmark : Bookmark.t) (acc : Acc) : Acc :=
  let target := targetData acc in
  match find_at (fun b => String.eqb (Bookmark.url b) (Bookmark.url bookmark))
          (bookmarks target) with
  | Some (index, existingBookmark) =>
      if shouldReplaceBookmark existingBookmark bookmark
           (conflictResolution config)
      then mkAcc
             (if dryRun config then target
              else set_bookmarks target
                     (set_nth index (bookmark_from profilePath bookmark)
                        (bookmarks target)))
             (acc_merged acc + 1) (acc_conflicts acc + 1)
      else mkAcc target (acc_merged acc) (acc_conflicts acc + 1)
  | None =>
      mkAcc
        (if dryRun config then target
         else set_bookmarks target
                (bookmarks target ++ [bookmark_from profilePath bookmark])%list)
        (acc_merged acc + 1) (acc_conflicts acc)
  end.

(** The body of [for (const historyEntry of data.history)]. *)
Definition merge_history_entry (config : MergeConfig) (profilePath : string)
  (historyEntry : HistoryEntry.t) (acc : Acc) : Acc :=
  let target := targetData acc in
  match find_at (fun h => String.eqb (HistoryEntry.url h)
                            (HistoryEntry.url historyEntry))
          (history target) with
  | Some (index, existingEntry) =>
      mkAcc
        (if dryRun config then target
         else set_history target
                (set_nth index (combine_history existingEntry historyEntry)
                   (history target)))
        (acc_merged acc + 1) (acc_conflicts acc + 1)
  | None =>
      mkAcc
        (if dryRun config then target
         else set_history target
                (history target
                   ++ [history_from profilePath historyEntry])%list)
        (acc_merged acc + 1) (acc_conflicts acc)
  end.

(** The body of [for (const login of data.logins)]. *)
Definition merge_login (config : MergeConfig) (profilePath : string)
  (login : Login.t) (acc : Acc) : Acc :=
  let target := targetData acc in
  match find_at (fun l => (String.eqb (Login.hostname l) (Login.hostname login)
                           && String.eqb (Login.username l)
                                (Login.username login))%bool)
          (logins target) with
  | Some (index, existingLogin) =>
      if shouldReplaceLogin existingLogin login (conflictResolution config)
      then mkAcc
             (if dryRun config then target
              else set_logins target
                     (set_nth index (login_from profilePath login)
                        (logins target)))
             (acc_merged acc + 1) (acc_conflicts acc + 1)
      else mkAcc target (acc_merged acc) (acc_conflicts acc + 1)
  | None =>
      mkAcc
        (if dryRun config then target
         else set_logins target
                (logins target ++ [login_from profilePath login])%list)
        (acc_merged acc + 1) (acc_conflicts acc)
  end.

(** [targetData.toString()] of a plain object. *)
Definition object_toString : string := "[object Object]".

Section PerType.

Context {A : Type}.
(** [data.bookmarks], [data.history] or [data.logins] *)
Variable arr : RealExtractionResult -> list A.
Variable body : string -> A -> Acc -> Acc.
(** The key under which the target object sits in [sourceData]: the
    engine's [targetData] is [sourceData.get(targetProfilePath)], so the
    entry under that key is the target itself, in its current state. *)
Variable targetProfilePath : string.

(** One round of [for (const [profilePath, data] of sourceData)]. *)
Definition merge_from (entry : string * RealExtractionResult) (acc : Acc)
  : option Acc :=
  let (profilePath, data0) := entry in
  let data (acc' : Acc) : RealExtractionResult :=
    if String.eqb profilePath targetProfilePath then targetData acc'
    else data0 in
  if (String.eqb profilePath object_toString
      || (List.length (arr (data acc)) =? 0)%nat)%bool
  then Some acc
  else for_of (List.length (arr (data acc))) (fun acc' => arr (data acc'))
         (body profilePath) 0 acc.

Fixpoint merge_all (sourceData : SourceData) (acc : Acc) : option Acc :=
  match sourceData with
  | [] => Some acc
  | entry :: others =>
      match merge_from entry acc with
      | Some acc' => merge_all others acc'
      | None => None
      end
  end.

(** Runs the merge from [merged = 0; conflicts = 0] and returns the target
    with the counters written to [result.details]. *)
Definition merge_type (sourceData : SourceData) (target : RealExtractionResult)
  : option (RealExtractionResult * Counts) :=
  match merge_all sourceData (mkAcc target 0 0) with
  | Some acc =>
      Some (targetData acc, mkCounts (acc_merged acc) (acc_conflicts acc))
  | None => None
  end.

End PerType.

Definition mergeBookmarks (sourceData : SourceData) (targetProfilePath : string)
  (config : MergeConfig) :=
  merge_type bookmarks (merge_bookmark config) targetProfilePath sourceData.

Definition mergeHistory (sourceData : SourceData) (targetProfilePath : string)
  (config : MergeConfig) :=
  merge_type history (merge_history_entry config) targetProfilePath sourceData.

Definition mergeLogins (sourceData : SourceData) (targetProfilePath : string)
  (config : MergeConfig) :=
  merge_type logins (merge_login config) targetProfilePath sourceData.

(** *** Dispatch and the aggregate result *)

Definition set_details (result : MergeResult) (d : Details) : MergeResult :=
  mkResult (success result) (mergedItems result) (conflictsResolved result)
    (errors result) d.

Definition with_bookmarks (d : Details) (c : Counts) : Details :=
  mkDetails c (d_history d) (d_logins d) (d_cookies d) (d_extensions d)
    (d_formHistory d) (d_permissions d) (d_sessions d).
Definition with_history (d : Details) (c : Counts) : Details :=
  mkDetails (d_bookmarks d) c (d_logins d) (d_cookies d) (d_extensions d)
    (d_formHistory d) (d_permissions d) (d_sessions d).
Definition with_logins (d : Details) (c : Counts) : Details :=
  mkDetails (d_bookmarks d) (d_history d) c (d_cookies d) (d_extensions d)
    (d_formHistory d) (d_permissions d) (d_sessions d).
Definition with_cookies (d : Details) (c : Counts) : Details :=
  mkDetails (d_bookmarks d) (d_history d) (d_logins d) c (d_extensions d)
    (d_formHistory d) (d_permissions d) (d_sessions d).
Definition with_extensions (d : Details) (c : Counts) : Details :=
  mkDetails (d_bookmarks d) (d_history d) (d_logins d) (d_cookies d) c
    (d_formHistory d) (d_permissions d) (d_sessions d).
Definition with_formHistory (d : Details) (c : Counts) : Details :=
  mkDetails (d_bookmarks d) (d_history d) (d_logins d) (d_cookies d)
    (d_extensions d) c (d_permissions d) (d_sessions d).
Definition with_permissions (d : Details) (c : Counts) : Details :=
  mkDetails (d_bookmarks d) (d_history d) (d_logins d) (d_cookies d)
    (d_extensions d) (d_formHistory d) c (d_sessions d).
Definition with_sessions (d : Details) (c : Counts) : Details :=
  mkDetails (d_bookmarks d) (d_history d) (d_logins d) (d_cookies d)
    (d_extensions d) (d_formHistory d) (d_permissions d) c.

Definition zero : Counts := mkCounts 0 0.

(** The target object and the [result] object while [mergeProfiles] runs. *)
Record Run : Type := mkRun {
  run_target : RealExtractionResult;
  run_result : MergeResult
}.

(** One of the three implemented merges, followed by the assignment to its
    slot of [result.details]. *)
Definition run_merge
  (merge : RealExtractionResult -> option (RealExtractionResult * Counts))
  (slot : Details -> Counts -> Details) (run : Run) : option Run :=
  match merge (run_target run) with
  | Some (target', counts) =>
      Some (mkRun target'
              (set_details (run_result run)
                 (slot (details (run_result run)) counts)))
  | None => None
  end.

(** A merge that is "not yet implemented": its slot is set to zero. *)
Definition run_placeholder (slot : Details -> Counts -> Details) (run : Run)
  : option Run :=
  Some (mkRun (run_target run)
          (set_details (run_result run)
             (slot (details (run_result run)) zero))).

(** No statement inside the [try] can throw on well-typed data, so the
    [catch] that pushes on [result.errors] is never entered. *)
Definition mergeSpecificDataType (dataType : MergeDataType)
  (sourceData : SourceData) (targetProfilePath : string) (config : MergeConfig)
  (run : Run) : option Run :=
  match dataType with
  | BOOKMARKS =>
      run_merge (mergeBookmarks sourceData targetProfilePath config)
        with_bookmarks run
  | HISTORY =>
      run_merge (mergeHistory sourceData targetProfilePath config)
        with_history run
  | PASSWORDS =>
      run_merge (mergeLogins sourceData targetProfilePath config)
        with_logins run
  | COOKIES => run_placeholder with_cookies run
  | EXTENSIONS => run_placeholder with_extensions run
  | FORM_HISTORY => run_placeholder with_formHistory run
  | PERMISSIONS => run_placeholder with_permissions run
  | SESSIONS => run_placeholder with_sessions run
  | _ => Some run
  end.

Fixpoint run_types (dataTypes : list MergeDataType) (sourceData : SourceData)
  (targetProfilePath : string) (config : MergeConfig) (run : Run)
  : option Run :=
  match dataTypes with
  | [] => Some run
  | dataType :: others =>
      match mergeSpecificDataType dataType sourceData targetProfilePath
              config run with
      | Some run' => run_types others sourceData targetProfilePath config run'
      | None => None
      end
  end.

Definition allTypes : list MergeDataType :=
  [BOOKMARKS; HISTORY; PASSWORDS; COOKIES; EXTENSIONS; FORM_HISTORY;
   PERMISSIONS; SESSIONS].

Definition mergeAllDataTypes := run_types allTypes.

(** [for (const dataType of config.mergeTypes)], with its [break] after
    [ALL]. *)
Fixpoint selected_types (dataTypes : list MergeDataType)
  (sourceData : SourceData) (targetProfilePath : string) (config : MergeConfig)
  (run : Run) : option Run :=
  match dataTypes with
  | [] => Some run
  | ALL :: _ => mergeAllDataTypes sourceData targetProfilePath config run
  | dataType :: others =>
      match mergeSpecificDataType dataType sourceData targetProfilePath
              config run with
      | Some run' =>
          selected_types others sourceData targetProfilePath config run'
      | None => None
      end
  end.

(** [Object.values(result.details)] *)
Definition values (d : Details) : list Counts :=
  [d_bookmarks d; d_history d; d_logins d; d_cookies d; d_extensions d;
   d_formHistory d; d_permissions d; d_sessions d].

Definition zero_details : Details :=
  mkDetails zero zero zero zero zero zero zero zero.

Definition initial_result : MergeResult :=
  mkResult false 0 0 [] zero_details.

(** Returns the [MergeResult] and the store after the call.  [None] would
    mean that some array iteration ran out of fuel; the call is shown below
    to return always. *)
Definition mergeProfiles (sourceData : SourceData) (targetProfilePath : string)
  (config : MergeConfig) : option (MergeResult * SourceData) :=
  let result := initial_result in
  match Map_get sourceData targetProfilePath with
  | None =>
      (* throw new Error(...), caught by the outer catch *)
      Some (mkResult (success result) (mergedItems result)
              (conflictsResolved result)
              (errors result
                 ++ [("Merge failed: Target profile data not found: "
                        ++ targetProfilePath)%string])%list
              (details result),
            sourceData)
  | Some target =>
      match selected_types (mergeTypes config) sourceData targetProfilePath
              config (mkRun target result) with
      | Some run =>
          let result := run_result run in
          Some (mkResult
                  (List.length (errors result) =? 0)%nat
                  (fold_left (fun sum detail => sum + merged detail)
                     (values (details result)) 0)
                  (fold_left (fun sum detail => sum + conflicts detail)
                     (values (details result)) 0)
                  (errors result) (details result),
                Map_put sourceData targetProfilePath (run_target run))
      | None => None
      end
  end.

(** *** Identity keys as the engine compares them *)

Definition login_key (l : Login.t) : string * string :=
  (Login.hostname l, Login.username l).

(** No two records of an array share the key that the engine's [find]
    compares: the URL string for bookmarks and history entries, the pair of
    hostname and username for logins. *)
Definition unique_keys (d : RealExtractionResult) : Prop :=
  NoDup (map Bookmark.url (bookmarks d))
  /\ NoDup (map HistoryEntry.url (history d))
  /\ NoDup (map login_key (logins d)).

(** The identity keys of the specification for bookmarks: normalised
    URLs. *)
Definition normalized_bookmark_keys (newURL : URLParser)
  (d : RealExtractionResult) : list string :=
  map (fun b => Dedup.normalizeUrl newURL (Bookmark.url b)) (bookmarks d).

(** The sums of the per-type counters. *)
Definition total_merged (d : Details) : Z :=
  merged (d_bookmarks d) + merged (d_history d) + merged (d_logins d)
  + merged (d_cookies d) + merged (d_extensions d) + merged (d_formHistory d)
  + merged (d_permissions d) + merged (d_sessions d).

Definition total_conflicts (d : Details) : Z :=
  conflicts (d_bookmarks d) + conflicts (d_history d) + conflicts (d_logins d)
  + conflicts (d_cookies d) + conflicts (d_extensions d)
  + conflicts (d_formHistory d) + conflicts (d_permissions d)
  + conflicts (d_sessions d).

End Merge.

(* ===================================================================== *)
(** ** UniversalDataNormalizer *)
(* ===================================================================== *)

Module Normalizer.

Module UB := UniversalBookmark.
Module UH := UniversalHistoryEntry.
Module UL := UniversalLogin.

(** The [any]-typed input rows, with the properties each normaliser reads. *)
Module FirefoxBookmark.
Record t : Type := mk {
  id : option Z;
  title : option string;
  url : option string;
  parent_folder : option string;
  dateAdded : option Z;
  lastModified : option Z;
  tags : option string;
  description : option string;
  favicon : option string;
  visit_count : option Z
}.
End FirefoxBookmark.

Module ChromeBookmark.
Record t : Type := mk {
  id : option string;
  name : option string;
  url : option string;
  folder : option string;
  date_added : option string;
  date_modified : option string;
  meta_description : option string;
  meta_favicon : option string
}.
End ChromeBookmark.

Module FirefoxHistory.
Record t : Type := mk {
  id : option Z;
  url : option string;
  title : option string;
  visit_count : option Z;
  last_visit_date : option Z;
  first_visit_date : option Z;
  visit_duration : option Z;
  referrer : option string
}.
End FirefoxHistory.

Module ChromeHistory.
Record t : Type := mk {
  id : option Z;
  url : option string;
  title : option string;
  visit_count : option Z;
  last_visit_time : option string;
  first_visit_time : option string;
  visit_duration : option Z
}.
End ChromeHistory.

Module FirefoxLogin.
Record t : Type := mk {
  id : option Z;
  hostname : option string;
  encryptedUsername : option string;
  encryptedPassword : option string;
  timeCreated : option Z;
  timeLastUsed : option Z;
  timePasswordChanged : option Z;
  formSubmitURL : option string;
  usernameField : option string;
  passwordField : option string;
  timesUsed : option Z
}.
End FirefoxLogin.

Module ChromeLogin.
Record t : Type := mk {
  id : option Z;
  origin_url : option string;
  username_value : option string;
  password_value : option string;
  date_created : option string;
  date_last_used : option string;
  submit_element : option string;
  username_element : option string;
  password_element : option string;
  times_used : option Z
}.
End ChromeLogin.

Definition parseFirefoxFolderPath (folder : string) : list string :=
  filter (fun f => (0 <? String.length f)%nat) (JS.split "/" folder).

Definition parseChromeFolderPath (folder : string) : list string :=
  filter (fun f => (0 <? String.length f)%nat) (JS.split "/" folder).

(** [new Date(parseInt(x) / 1000) || new Date()]: a [Date] object is
    truthy even when invalid, so the right operand is never taken. *)
Definition chrome_date (x : option string) : Date :=
  DateOps.ofNumber (option_map (fun n => Z.quot n 1000) (JS.parseInt_any x)).

(** [x ? new Date(x) : undefined] for a number [x] *)
Definition date_if_number (x : option Z) : option Date :=
  match x with
  | Some n => if Z.eqb n 0 then None else Some (DateOps.TimeClip n)
  | None => None
  end.

(** [`${id || index}`] *)
Definition id_or_index (id : option Z) (index : nat) : string :=
  number_to_string (JS.or_number id (Z.of_nat index)).

Section WithHost.

Variable newURL : URLParser.
(** The reading of [Date.now()], taken as constant during one call. *)
Variable now : Z.

(** [new URL(url)] for a property that may be missing. *)
Definition newURL_any (url : option string) : option URL :=
  newURL (match url with Some u => u | None => "undefined" end).

(** [urlObj.searchParams.get(name)]; [None] is [null]. *)
Fixpoint searchParams_get (params : list (string * string)) (name : string)
  : option string :=
  match params with
  | [] => None
  | (k, v) :: others =>
      if String.eqb k name then Some v else searchParams_get others name
  end.

Definition extractDomain (url : string) : string :=
  match newURL url with
  | Some urlObj => hostname urlObj
  | None => url
  end.

Definition extractSearchTerm (url : option string) : option string :=
  match newURL_any url with
  | Some urlObj =>
      JS.or_else (searchParams_get (searchParams urlObj) "q")
        (JS.or_else (searchParams_get (searchParams urlObj) "search") None)
  | None => None
  end.

Definition normalizeFirefoxBookmarks (firefoxBookmarks : list FirefoxBookmark.t)
  (profilePath : string) : list UB.t :=
  map_index (fun bookmark index =>
    UB.mk ("ff_bm_" ++ id_or_index (FirefoxBookmark.id bookmark) index)
      (JS.or_string (FirefoxBookmark.title bookmark) "Untitled")
      (JS.or_string (FirefoxBookmark.url bookmark) "")
      (parseFirefoxFolderPath
         (JS.or_string (FirefoxBookmark.parent_folder bookmark) "Bookmarks"))
      (DateOps.ofNumber
         (Some (JS.or_number (FirefoxBookmark.dateAdded bookmark) now)))
      (date_if_number (FirefoxBookmark.lastModified bookmark))
      profilePath FIREFOX
      (match FirefoxBookmark.tags bookmark with
       | Some tags =>
           if String.eqb tags "" then [] else map JS.trim (JS.split "," tags)
       | None => []
       end)
      (FirefoxBookmark.description bookmark)
      (FirefoxBookmark.favicon bookmark)
      (Some (JS.or_number (FirefoxBookmark.visit_count bookmark) 0)))
    0%nat firefoxBookmarks.

Definition normalizeChromeBookmarks (chromeBookmarks : list ChromeBookmark.t)
  (profilePath : string) (browserType : BrowserType) : list UB.t :=
  map_index (fun bookmark index =>
    UB.mk
      ("chr_bm_" ++ JS.or_string (ChromeBookmark.id bookmark) (decimal index))
      (JS.or_string (ChromeBookmark.name bookmark) "Untitled")
      (JS.or_string (ChromeBookmark.url bookmark) "")
      (parseChromeFolderPath
         (JS.or_string (ChromeBookmark.folder bookmark) "Bookmarks Bar"))
      (chrome_date (ChromeBookmark.date_added bookmark))
      (match ChromeBookmark.date_modified bookmark with
       | Some d =>
           if String.eqb d "" then None
           else Some (chrome_date (ChromeBookmark.date_modified bookmark))
       | None => None
       end)
      profilePath browserType []
      (ChromeBookmark.meta_description bookmark)
      (ChromeBookmark.meta_favicon bookmark)
      (Some 0))
    0%nat chromeBookmarks.

Definition normalizeFirefoxHistory (firefoxHistory : list FirefoxHistory.t)
  (profilePath : string) : list UH.t :=
  map_index (fun entry index =>
    UH.mk ("ff_hist_" ++ id_or_index (FirefoxHistory.id entry) index)
      (JS.or_string (FirefoxHistory.url entry) "")
      (JS.or_string (FirefoxHistory.title entry) "Untitled")
      (JS.or_number (FirefoxHistory.visit_count entry) 1)
      (DateOps.ofNumber
         (Some (JS.or_number (FirefoxHistory.last_visit_date entry) now)))
      (DateOps.ofNumber
         (Some (JS.or_number (FirefoxHistory.first_visit_date entry)
                  (JS.or_number (FirefoxHistory.last_visit_date entry) now))))
      profilePath FIREFOX
      (FirefoxHistory.visit_duration entry)
      (FirefoxHistory.referrer entry)
      (extractSearchTerm (FirefoxHistory.url entry)))
    0%nat firefoxHistory.

Definition normalizeChromeHistory (chromeHistory : list ChromeHistory.t)
  (profilePath : string) (browserType : BrowserType) : list UH.t :=
  map_index (fun entry index =>
    UH.mk ("chr_hist_" ++ id_or_index (ChromeHistory.id entry) index)
      (JS.or_string (ChromeHistory.url entry) "")
      (JS.or_string (ChromeHistory.title entry) "Untitled")
      (JS.or_number (ChromeHistory.visit_count entry) 1)
      (chrome_date (ChromeHistory.last_visit_time entry))
      (chrome_date (ChromeHistory.first_visit_time entry))
      profilePath browserType
      (ChromeHistory.visit_duration entry)
      None
      (extractSearchTerm (ChromeHistory.url entry)))
    0%nat chromeHistory.

Definition normalizeFirefoxLogins (firefoxLogins : list FirefoxLogin.t)
  (profilePath : string) : list UL.t :=
  map_index (fun login index =>
    UL.mk ("ff_login_" ++ id_or_index (FirefoxLogin.id login) index)
      (JS.or_string (FirefoxLogin.hostname login) "")
      (extractDomain (JS.or_string (FirefoxLogin.hostname login) ""))
      (JS.or_string (FirefoxLogin.encryptedUsername login) "")
      (JS.or_string (FirefoxLogin.encryptedPassword login) "[ENCRYPTED]")
      (DateOps.ofNumber
         (Some (JS.or_number (FirefoxLogin.timeCreated login) now)))
      (DateOps.ofNumber
         (Some (JS.or_number (FirefoxLogin.timeLastUsed login) now)))
      (date_if_number (FirefoxLogin.timePasswordChanged login))
      profilePath FIREFOX
      (FirefoxLogin.formSubmitURL login)
      (FirefoxLogin.usernameField login)
      (FirefoxLogin.passwordField login)
      (JS.or_number (FirefoxLogin.timesUsed login) 1))
    0%nat firefoxLogins.

Definition normalizeChromeLogins (chromeLogins : list ChromeLogin.t)
  (profilePath : string) (browserType : BrowserType) : list UL.t :=
  map_index (fun login index =>
    UL.mk ("chr_login_" ++ id_or_index (ChromeLogin.id login) index)
      (JS.or_string (ChromeLogin.origin_url login) "")
      (extractDomain (JS.or_string (ChromeLogin.origin_url login) ""))
      (JS.or_string (ChromeLogin.username_value login) "")
      (JS.or_string (ChromeLogin.password_value login) "[ENCRYPTED]")
      (chrome_date (ChromeLogin.date_created login))
      (chrome_date (ChromeLogin.date_last_used login))
      None
      profilePath browserType
      (ChromeLogin.submit_element login)
      (ChromeLogin.username_element login)
      (ChromeLogin.password_element login)
      (JS.or_number (ChromeLogin.times_used login) 1))
    0%nat chromeLogins.

End WithHost.

End Normalizer.

(* ===================================================================== *)
(** ** RealDataExtractor: the Chrome branch *)
(* ===================================================================== *)

Module Extractor.

(** The rows that the SQLite processor hands over. *)
Module BookmarkRow.
Record t : Type := mk {
  id : string;
  name : string;
  url : string;
  date_added : option string;
  date_modified : option string;
  folder_path : string
}.
End BookmarkRow.

Module HistoryRow.
Record t : Type := mk {
  id : Z;
  url : string;
  title : option string;
  visit_count : option Z;
  last_visit_time : Z;
  typed_count : option Z
}.
End HistoryRow.

Module LoginRow.
Record t : Type := mk {
  origin_url : string;
  username_value : string;
  action_url : string;
  date_created : Z;
  date_last_used : Z;
  times_used : Z
}.
End LoginRow.

(** [new Date(n / 1000)] for an integer [n]: the constructor drops the
    fractional part of its argument. *)
Definition date_of_micros (n : Z) : Date := DateOps.TimeClip (Z.quot n 1000).

(** [new Date(parseInt(x) / 1000)] *)
Definition date_of_micros_string (x : option string) : Date :=
  DateOps.ofNumber (option_map (fun n => Z.quot n 1000) (JS.parseInt_any x)).

(** The callbacks of the three [map] calls of [extractChromeData]. *)
Definition chrome_bookmark (profile_path : string) (bookmark : BookmarkRow.t)
  : Merge.Bookmark.t :=
  Merge.Bookmark.mk (BookmarkRow.id bookmark) (BookmarkRow.name bookmark)
    (BookmarkRow.url bookmark)
    (date_of_micros_string (BookmarkRow.date_added bookmark))
    (date_of_micros_string (BookmarkRow.date_modified bookmark))
    0 (BookmarkRow.folder_path bookmark) profile_path CHROME None.

Definition chrome_history (profile_path : string) (entry : HistoryRow.t)
  : Merge.HistoryEntry.t :=
  Merge.HistoryEntry.mk (number_to_string (HistoryRow.id entry))
    (HistoryRow.url entry)
    (JS.or_string (HistoryRow.title entry) "")
    (JS.or_number (HistoryRow.visit_count entry) 0)
    (date_of_micros (HistoryRow.last_visit_time entry - 11644473600000000))
    (JS.or_number (HistoryRow.typed_count entry) 0)
    profile_path CHROME None.

Definition chrome_login (profile_path : string) (login : LoginRow.t)
  : Merge.Login.t :=
  Merge.Login.mk
    (LoginRow.origin_url login ++ "_" ++ LoginRow.username_value login)
    (LoginRow.origin_url login) (LoginRow.username_value login)
    "[ENCRYPTED]" (LoginRow.action_url login)
    (date_of_micros (LoginRow.date_created login - 11644473600000000))
    (date_of_micros (LoginRow.date_last_used login - 11644473600000000))
    (LoginRow.times_used login) profile_path CHROME None.

(** [extractChromeData] once the three row sets have been read. *)
Definition extractChromeData (profile_path : string)
  (bookmarks : list BookmarkRow.t) (history : list HistoryRow.t)
  (logins : list LoginRow.t) : Merge.RealExtractionResult :=
  Merge.mkData (map (chrome_bookmark profile_path) bookmarks)
    (map (chrome_history profile_path) history)
    (map (chrome_login profile_path) logins).

(** What the specification prescribes for a Chrome timestamp: shift the
    epoch by 11,644,473,600,000,000 microseconds, then scale to
    milliseconds. *)
Definition chrome_epoch_offset : Z := 11644473600000000.

Definition unix_millis_of_chrome (micros : Z) : Z :=
  Z.quot (micros - chrome_epoch_offset) 1000.

End Extractor.

(* ===================================================================== *)
(** ** SQLiteCorruptionHandler *)
(* ===================================================================== *)

Module Recovery.

Import MonadNotation.
Local Open Scope monad_scope.

Inductive ErrorType : Type :=
| e_none | e_header | e_page | e_index | e_schema | e_unknown.

Record CorruptionCheckResult : Type := mkCheck {
  isCorrupted : bool;
  errorType : ErrorType;
  errorMessage : string;
  recoverable : bool;
  suggestedAction : string
}.

Inductive Method : Type := m_none | m_dump | m_recover | m_manual_export.

Record RecoveryResult : Type := mkRecovery {
  success : bool;
  method : Method;
  recoveredTables : list string;
  lostData : list string;
  errorLog : list string;
  outputSize : Z
}.

(** Entries into the handler's methods, in the order in which they
    happen; each is the first log line of its method. *)
Inductive Event : Type :=
| CheckIntegrity (filePath : string)
| DumpAttempt (filePath outputPath : string)
| RecoverAttempt (filePath outputPath : string).

(** The effects of the handler: how many draws of [Math.random] have been
    made, and the trace of events. *)
Record World : Type := mkWorld {
  draws : nat;
  trace : list Event
}.

Definition M : Type -> Type := state World.

Section WithRandom.

(** The successive values of [Math.random()]. *)
Variable random : nat -> Q.

Definition Math_random : M Q :=
  w <- get ;;
  put (mkWorld (S (draws w)) (trace w)) ;;
  ret (random (draws w)).

Definition emit (e : Event) : M unit :=
  w <- get ;;
  put (mkWorld (draws w) (trace w ++ [e])%list).

(** [array.filter(p)] for a predicate with effects. *)
Fixpoint filterM {A : Type} (p : A -> M bool) (l : list A) : M (list A) :=
  match l with
  | [] => ret []
  | x :: r =>
      keep <- p x ;;
      r' <- filterM p r ;;
      ret (if keep then x :: r' else r')
  end.

Definition includes (l : list string) (x : string) : bool :=
  existsb (String.eqb x) l.

Definition getFileSize (filePath : string) : M Z :=
  r <- Math_random ;;
  ret (Qfloor (r * 50000000) + 1000000).

Definition corruptionTypes : list ErrorType :=
  [e_none; e_header; e_page; e_index; e_schema].

(** [corruptionTypes[i]]; [None] is [undefined]. *)
Definition at_index (i : Z) : option ErrorType :=
  if i <? 0 then None else nth_error corruptionTypes (Z.to_nat i).

(** [corruptionDetails[randomType]] as (message, recoverable, action). *)
Definition corruptionDetails (t : ErrorType)
  : option (string * bool * string) :=
  match t with
  | e_header =>
      Some ("SQLite header is corrupted or invalid", true,
            "Attempt .dump recovery to extract readable data")
  | e_page =>
      Some ("Database pages are corrupted - some data may be unreadable", true,
            "Use .recover command to extract maximum possible data")
  | e_index =>
      Some ("Database indexes are corrupted but data may be intact", true,
            "Rebuild indexes after data extraction")
  | e_schema =>
      Some ("Database schema is corrupted - structure may be damaged", true,
            "Manual table recovery required")
  | _ => None
  end.

(** The result of the [catch] block; the text of the [TypeError] is the
    one V8 gives. *)
Definition check_failed : CorruptionCheckResult :=
  mkCheck true e_unknown
    ("Cannot access database: TypeError: Cannot read properties of "
       ++ "undefined (reading 'message')")
    false "File may be locked or inaccessible".

Definition checkDatabaseIntegrity (filePath : string)
  : M CorruptionCheckResult :=
  emit (CheckIntegrity filePath) ;;
  fileSize <- getFileSize filePath ;;
  if fileSize =? 0
  then ret (mkCheck true e_header "Database file is empty" false
              "File cannot be recovered - it contains no data")
  else
    r <- Math_random ;;
    match at_index (Qfloor (r * 5)) with
    | Some e_none =>
        ret (mkCheck false e_none "" true
               "Database is healthy - proceed with normal extraction")
    | Some randomType =>
        match corruptionDetails randomType with
        | Some (message, rec, action) =>
            ret (mkCheck true randomType message rec action)
        | None => ret check_failed
        end
    | None => ret check_failed
    end.

(** [allTables.filter(() => Math.random() > bound)] *)
Definition random_subset (bound : Q) (allTables : list string)
  : M (list string) :=
  filterM (fun _ => r <- Math_random ;; ret (negb (Qle_bool r bound)))
    allTables.

Definition attemptDumpRecovery (filePath outputPath : string)
  : M RecoveryResult :=
  emit (DumpAttempt filePath outputPath) ;;
  let allTables :=
    ["moz_bookmarks"; "moz_places"; "moz_historyvisits"; "moz_logins"] in
  recovered <- random_subset 0.2 allTables ;;
  let lost := filter (fun table => negb (includes recovered table)) allTables in
  if (0 <? List.length recovered)%nat
  then
    r <- Math_random ;;
    ret (mkRecovery true m_dump recovered lost []
           (Qfloor (r * 1000000) + 100000))
  else
    ret (mkRecovery false m_dump [] []
           ["No tables could be recovered from database dump"] 0).

Definition attemptRecoverCommand (filePath outputPath : string)
  : M RecoveryResult :=
  emit (RecoverAttempt filePath outputPath) ;;
  let allTables :=
    ["moz_bookmarks"; "moz_places"; "moz_historyvisits"; "moz_logins";
     "moz_cookies"] in
  recovered <- random_subset 0.1 allTables ;;
  let lost := filter (fun table => negb (includes recovered table)) allTables in
  if (0 <? List.length recovered)%nat
  then
    r <- Math_random ;;
    ret (mkRecovery true m_recover recovered lost []
           (Qfloor (r * 1200000) + 200000))
  else
    ret (mkRecovery false m_recover [] []
           ["Recovery command found no salvageable data"] 0).

(** [recoverDatabase] from the point where [integrityCheck] is known. *)
Definition recover_checked (integrityCheck : CorruptionCheckResult)
  (filePath outputDir : string) : M RecoveryResult :=
  if negb (isCorrupted integrityCheck)
  then ret (mkRecovery true m_none [] [] [] 0)
  else if negb (recoverable integrityCheck)
  then ret (mkRecovery false m_none [] ["entire_database"]
              [errorMessage integrityCheck] 0)
  else
    dumpResult <- attemptDumpRecovery filePath
                    (outputDir ++ "/dump_recovery.sql") ;;
    if (success dumpResult
        && (0 <? List.length (recoveredTables dumpResult))%nat)%bool
    then ret dumpResult
    else
      recoverResult <- attemptRecoverCommand filePath
                         (outputDir ++ "/recover_recovery.db") ;;
      if (success recoverResult
          && (0 <? List.length (recoveredTables recoverResult))%nat)%bool
      then ret recoverResult
      else
        ret (mkRecovery false m_manual_export [] ["entire_database"]
               (errorLog dumpResult ++ errorLog recoverResult
                  ++ ["Manual recovery may be possible with specialized tools"])
               %list
               0).

Definition recoverDatabase (filePath outputDir : string) : M RecoveryResult :=
  integrityCheck <- checkDatabaseIntegrity filePath ;;
  recover_checked integrityCheck filePath outputDir.

End WithRandom.

End Recovery.

From Stdlib Require Import DecimalNat.

(* ===================================================================== *)
(** ** Reference definitions for the deduplication engine *)
(* ===================================================================== *)

Module EditDistance.

(** The recurrence that the matrix of [levenshteinDistance] tabulates.
    Both arguments are prefixes read backwards (the head is the last
    character): [dist p q] is the cell [matrix[|q|][|p|]]. *)
Fixpoint dist (p q : string) {struct p} : nat :=
  match p with
  | EmptyString => String.length q
  | String x p' =>
      (fix along (q : string) : nat :=
         match q with
         | EmptyString => S (String.length p')
         | String y q' =>
             Nat.min (dist p' q + 1)
               (Nat.min (along q' + 1)
                  (dist p' q' + (if Ascii.eqb x y then 0 else 1)))
         end) q
  end.

(** [rev_onto s acc] is [s] read backwards, followed by [acc]. *)
Fixpoint rev_onto (s acc : string) : string :=
  match s with
  | EmptyString => acc
  | String c r => rev_onto r (String c acc)
  end.

(** Row [|q|] of the matrix from column [|p|] on, where [p] is the part of
    [str1] already passed and [s1] the part still to come. *)
Fixpoint row_from (p s1 q : string) : list nat :=
  dist p q
  :: match s1 with
     | EmptyString => []
     | String c s1' => row_from (String c p) s1' q
     end.

End EditDistance.

Module Pick.

(** The time value of a valid date. *)
Definition time (d : Date) : Z :=
  match d with
  | Some t => t
  | None => 0
  end.

Definition valid (d : Date) : Prop := d <> None.

(** [r] is the first record of [l] among those with the greatest key. *)
Definition first_greatest {A : Type} (key : A -> Z) (l : list A) (r : A)
  : Prop :=
  exists l1 l2,
    l = (l1 ++ r :: l2)%list
    /\ (forall x, In x l1 -> key x < key r)
    /\ (forall x, In x l2 -> key x <= key r).

End Pick.

Module Grouping.

(** The idiom
    [if (!groups.has(k)) groups.set(k, []); groups.get(k).push(x)]
    on a [Map] kept in insertion order, for any type of keys. *)
Fixpoint group_into {K A : Type} (eqb : K -> K -> bool) (k : K) (x : A)
  (groups : list (K * list A)) : list (K * list A) :=
  match groups with
  | [] => [(k, [x])]
  | (k', xs) :: others =>
      if eqb k' k then (k', (xs ++ [x])%list) :: others
      else (k', xs) :: group_into eqb k x others
  end.

(** What the groups are after the records [seen] have been pushed: the
    keys are pairwise distinct, each group lists the records seen with its
    key, in order, and every record seen has a group. *)
Definition grouped {K A : Type} (eqb : K -> K -> bool) (key : A -> K)
  (groups : list (K * list A)) (seen : list A) : Prop :=
  NoDup (map fst groups)
  /\ Forall (fun kv => snd kv = filter (fun x => eqb (key x) (fst kv)) seen
                       /\ snd kv <> []) groups
  /\ forall x, In x seen -> In (key x) (map fst groups).

End Grouping.

Module LoginKey.

(** What [findLoginDuplicates] compares: the domain and the user name. *)
Definition t : Type := (string * string)%type.

Definition of_login (login : UniversalLogin.t) : t :=
  (UniversalLogin.domain login, UniversalLogin.username login).

Definition eqb (a b : t) : bool :=
  (String.eqb (fst a) (fst b) && String.eqb (snd a) (snd b))%bool.

End LoginKey.

Module MergeFrame.

Import Merge.

(** [l'] is [l] with records pushed at its end. *)
Definition extends {A : Type} (l l' : list A) : Prop :=
  exists more, l' = (l ++ more)%list.

(** The keys of the three arrays of [target] are still there in [target'],
    at the same places. *)
Definition keys_kept (target target' : RealExtractionResult) : Prop :=
  extends (map Bookmark.url (bookmarks target))
    (map Bookmark.url (bookmarks target'))
  /\ extends (map HistoryEntry.url (history target))
       (map HistoryEntry.url (history target'))
  /\ extends (map login_key (logins target)) (map login_key (logins target')).

(** The bookmarks and logins of [target] are still there in [target'],
    untouched, and every record after them names the profile it came
    from. *)
Definition records_kept (target target' : RealExtractionResult) : Prop :=
  (exists more,
      bookmarks target' = (bookmarks target ++ more)%list
      /\ Forall (fun b => Bookmark.mergedFrom b <> None) more)
  /\ (exists more,
         logins target' = (logins target ++ more)%list
         /\ Forall (fun l => Login.mergedFrom l <> None) more).

(** The merges that are placeholders in the engine. *)
Definition unimplemented (dataType : MergeDataType) : bool :=
  match dataType with
  | COOKIES | EXTENSIONS | PREFERENCES | FORM_HISTORY | PERMISSIONS
  | SESSIONS => true
  | _ => false
  end.

(** The strategies under which [shouldReplaceBookmark] and
    [shouldReplaceLogin] take their [default] branch or return false. *)
Definition never_replaces (strategy : ConflictResolution) : bool :=
  match strategy with
  | MANUAL | KEEP_ALL | CUSTOM => true
  | _ => false
  end.

(** A history entry with its visit count added to itself. *)
Definition twice (h : HistoryEntry.t) : HistoryEntry.t :=
  HistoryEntry.mk (HistoryEntry.id h) (HistoryEntry.url h)
    (HistoryEntry.title h)
    (HistoryEntry.visitCount h + HistoryEntry.visitCount h)
    (HistoryEntry.lastVisitTime h) (HistoryEntry.typedCount h)
    (HistoryEntry.source h) (HistoryEntry.browserType h)
    (HistoryEntry.mergedFrom h).

(** The target and the counters of a history merge after [i] of the
    target's own entries have been fed to it. *)
Definition fed (target : RealExtractionResult) (i : nat) : Acc :=
  mkAcc
    (set_history target
       (map twice (firstn i (history target)) ++ skipn i (history target))%list)
    (Z.of_nat i) (Z.of_nat i).

End MergeFrame.

Module Validation.

Import MonadNotation.
Local Open Scope monad_scope.
Import Recovery.

Record ValidationResult : Type := mkValidation {
  validTables : list string;
  invalidTables : list string;
  dataIntegrityIssues : list string
}.

(** The table lists of the two recovery attempts. *)
Definition dump_tables : list string :=
  ["moz_bookmarks"; "moz_places"; "moz_historyvisits"; "moz_logins"].

Definition recover_tables : list string :=
  ["moz_bookmarks"; "moz_places"; "moz_historyvisits"; "moz_logins";
   "moz_cookies"].

(** [recovered] and [lost] split [tables]: the first lists the tables
    whose names are in it, in their order, the second the others. *)
Definition splits (tables recovered lost : list string) : Prop :=
  recovered = filter (fun table => includes recovered table) tables
  /\ lost = filter (fun table => negb (includes recovered table)) tables.

(** What an attempt returns: the tables recovered and lost, which split
    its table list, or nothing but the message. *)
Definition attempt_outcome (m : Method) (tables : list string)
  (message : string) (result : RecoveryResult) : Prop :=
  method result = m
  /\ ((success result = true
       /\ recoveredTables result <> []
       /\ splits tables (recoveredTables result) (lostData result)
       /\ errorLog result = [])
      \/ (success result = false
          /\ recoveredTables result = []
          /\ lostData result = []
          /\ errorLog result = [message]
          /\ outputSize result = 0)).

(** The three kinds of result of [recoverDatabase]. *)
Definition nothing_to_recover (result : RecoveryResult) : Prop :=
  success result = true /\ method result = m_none
  /\ recoveredTables result = [] /\ lostData result = []
  /\ errorLog result = [] /\ outputSize result = 0.

Definition tables_recovered (result : RecoveryResult) : Prop :=
  success result = true /\ recoveredTables result <> []
  /\ errorLog result = []
  /\ ((method result = m_dump
       /\ splits dump_tables (recoveredTables result) (lostData result))
      \/ (method result = m_recover
          /\ splits recover_tables (recoveredTables result)
               (lostData result))).

Definition all_lost (result : RecoveryResult) : Prop :=
  success result = false
  /\ (method result = m_none \/ method result = m_manual_export)
  /\ recoveredTables result = [] /\ lostData result = ["entire_database"]
  /\ errorLog result <> [] /\ outputSize result = 0.

(** The values that [Math.random] can return. *)
Definition unit_interval (random : nat -> Q) : Prop :=
  forall n, (0 <= random n)%Q /\ (random n < 1)%Q.

Section WithRandom.

Variable random : nat -> Q.

(** [validateRecoveredData]; its log lines are left out. *)
Definition validateRecoveredData (recoveredPath : string)
  (originalTables : list string) : M ValidationResult :=
  validTables <- random_subset random 0.1 originalTables ;;
  let invalidTables :=
    filter (fun table => negb (includes validTables table)) originalTables in
  r1 <- Math_random random ;;
  let issues1 :=
    if negb (Qle_bool r1 0.7)
    then ["Some bookmark folders may have incorrect hierarchy"]
    else [] in
  r2 <- Math_random random ;;
  let issues2 :=
    if negb (Qle_bool r2 0.8)
    then (issues1 ++ ["History visit counts may be incomplete"])%list
    else issues1 in
  ret (mkValidation validTables invalidTables issues2).

End WithRandom.

End Validation.

Module FolderPath.

Fixpoint contains_char (sep : ascii) (s : string) : bool :=
  match s with
  | EmptyString => false
  | String c r => (Ascii.eqb c sep || contains_char sep r)%bool
  end.

(** A folder name: not empty and without a slash. *)
Definition segment (s : string) : Prop :=
  s <> EmptyString /\ contains_char "/" s = false.

End FolderPath.

Module Ids.

(** A property that is missing or falsy: [undefined], [0], [""]. *)
Definition no_number (x : option Z) : Prop := x = None \/ x = Some 0.
Definition no_string (x : option string) : Prop :=
  x = None \/ x = Some EmptyString.

(** The ids that a normaliser gives to [n] rows without ids of their own. *)
Definition positional_ids (prefix : string) (n : nat) : list string :=
  map (fun index => prefix ++ decimal index) (seq 0 n).

End Ids.

Module Groups.

Import Dedup.

Definition item_id (item : Item) : string :=
  match item with
  | IBookmark b => UB.id b
  | IHistory h => UH.id h
  | ILogin l => UL.id l
  end.

Definition member_ids (group : DuplicateGroup) : list string :=
  map item_id (items group).

(** A group has two members or more, and the record it suggests to keep
    is one of them. *)
Definition well_formed (group : DuplicateGroup) : Prop :=
  (2 <= List.length (items group))%nat
  /\ exists keep, suggestedKeep group = Some keep /\ In keep (items group).

(** A bookmark group: a first bookmark and others that each passed the
    similarity test against it. *)
Definition bookmark_shape (newURL : URLParser) (config : DeduplicationConfig)
  (group : DuplicateGroup) : Prop :=
  type group = TBookmark
  /\ exists first others,
       items group = map IBookmark (first :: others)
       /\ Forall (fun other =>
                    joins config
                      (calculateBookmarkSimilarity newURL first other) = true)
            others.

(** A login group: logins that all have the domain and the user name of
    the first, with confidence 0.95. *)
Definition login_shape (group : DuplicateGroup) : Prop :=
  type group = TLogin
  /\ (confidence group == 0.95)%Q
  /\ exists first others,
       items group = map ILogin (first :: others)
       /\ Forall (fun other => LoginKey.of_login other = LoginKey.of_login first)
            others.

End Groups.

(* ===================================================================== *)
(** ** TabSynthesizer *)
(* ===================================================================== *)

Module Tabs.

Module UnifiedTab.
Record t : Type := mk {
  id : string;
  title : string;
  url : string;
  favicon : option string;
  windowId : option Z;
  groupName : option string;
  groupColor : option string;
  index : Z;
  pinned : bool;
  active : bool;
  savedDate : Date;
  sourceBackup : string;
  sourceType : string
}.
End UnifiedTab.

Inductive BackupType : Type :=
| onetab | session_buddy | tab_manager_plus | browser_session.

Definition type_name (type : BackupType) : string :=
  match type with
  | onetab => "onetab"
  | session_buddy => "session_buddy"
  | tab_manager_plus => "tab_manager_plus"
  | browser_session => "browser_session"
  end.

(** [rawData] is [any]: it is read here as an object that may lack its
    [tabs] array. *)
Module RawData.
Record t : Type := mk { tabs : option (list UnifiedTab.t) }.
End RawData.

(** A backup; [rawData] is [None] when the property is [undefined]. *)
Module TabBackup.
Record t : Type := mk {
  id : string;
  source : string;
  type : BackupType;
  name : string;
  dateCreated : Date;
  tabCount : Z;
  originalFormat : string;
  rawData : option RawData.t
}.
End TabBackup.

Module TabCollection.
Record t : Type := mk {
  id : string;
  name : string;
  description : string;
  tabs : list UnifiedTab.t;
  createdDate : Date;
  modifiedDate : Date;
  sourceBackups : list string;
  totalTabs : Z;
  windowGroups : list (Z * list UnifiedTab.t)
}.
End TabCollection.

Record SynthesisResult : Type := mkSynthesis {
  collections : list TabCollection.t;
  totalTabs : Z;
  duplicateTabs : Z;
  uniqueUrls : Z;
  processingErrors : list string
}.

(** [x || false] *)
Definition or_false (x : option bool) : bool :=
  match x with Some b => b | None => false end.

(** [x || []] *)
Definition or_empty {A : Type} (x : option (list A)) : list A :=
  match x with Some l => l | None => [] end.

(** The window of a tab: [tab.windowId || 0]. *)
Definition window_of (tab : UnifiedTab.t) : Z :=
  JS.or_number (UnifiedTab.windowId tab) 0.

Definition groupTabsByWindow (tabs : list UnifiedTab.t)
  : list (Z * list UnifiedTab.t) :=
  fold_left (fun windowGroups tab =>
               Grouping.group_into Z.eqb (window_of tab) tab windowGroups)
    tabs [].

(** [urlCounts.set(url, (urlCounts.get(url) || 0) + 1)] on a [Map] in
    insertion order. *)
Fixpoint bump (url : string) (urlCounts : list (string * Z))
  : list (string * Z) :=
  match urlCounts with
  | [] => [(url, 0 + 1)]
  | (k, count) :: others =>
      if String.eqb k url then (k, JS.or_number (Some count) 0 + 1) :: others
      else (k, count) :: bump url others
  end.

Definition count_urls (tabs : list UnifiedTab.t) : list (string * Z) :=
  fold_left (fun urlCounts tab => bump (UnifiedTab.url tab) urlCounts) tabs [].

Definition findDuplicateTabs (tabs : list UnifiedTab.t) : Z :=
  fold_left (fun duplicates count =>
               if count >? 1 then duplicates + (count - 1) else duplicates)
    (map snd (count_urls tabs)) 0.

(** [new Set(values)], as the list of its members in insertion order. *)
Definition Set_add (members : list string) (value : string) : list string :=
  if Dedup.has members value then members else (members ++ [value])%list.

Definition Set_of (values : list string) : list string :=
  fold_left Set_add values [].

(** The three arrays that the loop of [synthesizeTabBackups] fills. *)
Record Gathered : Type := mkGathered {
  allTabs : list UnifiedTab.t;
  gathered : list TabCollection.t;
  errors : list string
}.

(** The body of [for (const backup of backups)].  Reading [tabs] of a
    missing [rawData] is the one statement of the [try] block that can
    throw; it is the first one, so nothing has been pushed when the [catch]
    records the error (the text of the [TypeError] is the one V8 gives). *)
Definition gather (now : Z) (state : Gathered) (backup : TabBackup.t)
  : Gathered :=
  match TabBackup.rawData backup with
  | None =>
      mkGathered (allTabs state) (gathered state)
        (errors state
           ++ [("Failed to process backup " ++ TabBackup.source backup
                  ++ ": TypeError: Cannot read properties of undefined "
                  ++ "(reading 'tabs')")%string])%list
  | Some raw =>
      let tabs := or_empty (RawData.tabs raw) in
      let collection :=
        TabCollection.mk ("collection_" ++ TabBackup.id backup)
          (TabBackup.name backup)
          (type_name (TabBackup.type backup) ++ " backup with "
             ++ number_to_string (TabBackup.tabCount backup) ++ " tabs")
          tabs (TabBackup.dateCreated backup) (DateOps.TimeClip now)
          [TabBackup.source backup]
          (Z.of_nat (List.length tabs)) (groupTabsByWindow tabs) in
      mkGathered (allTabs state ++ tabs)%list
        (gathered state ++ [collection])%list (errors state)
  end.

(** [now] is the reading of the clock, taken as constant during the
    call. *)
Definition synthesizeTabBackups (now : Z) (backups : list TabBackup.t)
  : SynthesisResult :=
  let state := fold_left (gather now) backups (mkGathered [] [] []) in
  let duplicateTabs := findDuplicateTabs (allTabs state) in
  let uniqueUrls :=
    Z.of_nat (List.length (Set_of (map UnifiedTab.url (allTabs state)))) in
  let collections :=
    if (1 <? List.length (gathered state))%nat
    then
      TabCollection.mk "unified_collection" "Unified Tab Collection"
        ("Combined tabs from " ++ decimal (List.length (gathered state))
           ++ " sources")
        (allTabs state) (DateOps.TimeClip now) (DateOps.TimeClip now)
        (map TabBackup.source backups)
        (Z.of_nat (List.length (allTabs state)))
        (groupTabsByWindow (allTabs state))
      :: gathered state
    else gathered state in
  mkSynthesis collections (Z.of_nat (List.length (allTabs state)))
    duplicateTabs uniqueUrls (errors state).

(** *** Parsed backups *)

(** The objects that [JSON.parse] returns, with the properties that the
    parsers read. *)
Module RawTab.
Record t : Type := mk {
  title : option string;
  url : option string;
  favIconUrl : option string;
  groupName : option string;
  groupColor : option string;
  index : option Z;
  pinned : option bool;
  active : option bool
}.
End RawTab.

Module RawWindow.
Record t : Type := mk {
  id : option Z;
  tabs : option (list RawTab.t)
}.
End RawWindow.

Module TabManagerData.
Record t : Type := mk {
  windows : option (list RawWindow.t);
  dateCreated : option Z
}.
End TabManagerData.

(** The array [tabs] and the counter [tabIndex] of a parser. *)
Record Parsed : Type := mkParsed {
  parsed_tabs : list UnifiedTab.t;
  tabIndex : nat
}.

(** The object pushed for [tab] when the counter is [tabIndex]. *)
Definition unified_tab (now : Z) (fileName : string) (data : TabManagerData.t)
  (window : RawWindow.t) (tab : RawTab.t) (tabIndex : nat) : UnifiedTab.t :=
  UnifiedTab.mk ("tabmanager_" ++ decimal tabIndex)
    (JS.or_string (RawTab.title tab) "Untitled")
    (JS.or_string (RawTab.url tab) "")
    (RawTab.favIconUrl tab) (RawWindow.id window)
    (RawTab.groupName tab) (RawTab.groupColor tab)
    (JS.or_number (RawTab.index tab) (Z.of_nat tabIndex))
    (or_false (RawTab.pinned tab)) (or_false (RawTab.active tab))
    (DateOps.ofNumber
       (Some (JS.or_number (TabManagerData.dateCreated data) now)))
    fileName "Tab Manager Plus".

(** The body of [for (const tab of window.tabs || [])] in
    [parseTabManagerPlusBackup]. *)
Definition push_tab (now : Z) (fileName : string) (data : TabManagerData.t)
  (window : RawWindow.t) (state : Parsed) (tab : RawTab.t) : Parsed :=
  mkParsed
    (parsed_tabs state
       ++ [unified_tab now fileName data window tab (tabIndex state)])%list
    (S (tabIndex state)).

Definition push_window (now : Z) (fileName : string) (data : TabManagerData.t)
  (state : Parsed) (window : RawWindow.t) : Parsed :=
  fold_left (push_tab now fileName data window)
    (or_empty (RawWindow.tabs window)) state.

(** [parseTabManagerPlusBackup] from the point where [JSON.parse] has
    returned [data]; [now] is the reading of the clock, taken as constant
    during the call. *)
Definition parseTabManagerPlusBackup (now : Z) (data : TabManagerData.t)
  (fileName : string) : TabBackup.t :=
  let state :=
    fold_left (push_window now fileName data)
      (or_empty (TabManagerData.windows data)) (mkParsed [] 0) in
  TabBackup.mk ("tabmanager_" ++ number_to_string now) fileName
    tab_manager_plus ("Tab Manager Plus - " ++ fileName)
    (DateOps.TimeClip now)
    (Z.of_nat (List.length (parsed_tabs state))) "json"
    (Some (RawData.mk (Some (parsed_tabs state)))).

(** The tabs of a backup as [synthesizeTabBackups] reads them. *)
Definition readable_tabs (backup : TabBackup.t) : list UnifiedTab.t :=
  match TabBackup.rawData backup with
  | Some raw => or_empty (RawData.tabs raw)
  | None => []
  end.

Definition readable (backup : TabBackup.t) : bool :=
  match TabBackup.rawData backup with Some _ => true | None => false end.

End Tabs.

Module Provenance.

Import Merge.

(** Two bookmarks, or two logins, that differ at most in [mergedFrom]. *)
Definition same_bookmark (b b0 : Bookmark.t) : Prop :=
  bookmark_from EmptyString b = bookmark_from EmptyString b0.

Definition same_login (l l0 : Login.t) : Prop :=
  login_from EmptyString l = login_from EmptyString l0.

(** Two history entries that differ at most in the visit count, the time
    of the last visit and [mergedFrom]. *)
Definition same_entry (h h0 : HistoryEntry.t) : Prop :=
  HistoryEntry.id h = HistoryEntry.id h0
  /\ HistoryEntry.url h = HistoryEntry.url h0
  /\ HistoryEntry.title h = HistoryEntry.title h0
  /\ HistoryEntry.typedCount h = HistoryEntry.typedCount h0
  /\ HistoryEntry.source h = HistoryEntry.source h0
  /\ HistoryEntry.browserType h = HistoryEntry.browserType h0.

(** [x] is, up to [same], a record of some profile of the store. *)
Definition from_store {A : Type} (sourceData : SourceData)
  (arr : RealExtractionResult -> list A) (same : A -> A -> Prop) (x : A)
  : Prop :=
  exists path data x0,
    In (path, data) sourceData /\ In x0 (arr data) /\ same x x0.

Definition drawn_from (sourceData : SourceData) (target : RealExtractionResult)
  : Prop :=
  Forall (from_store sourceData bookmarks same_bookmark) (bookmarks target)
  /\ Forall (from_store sourceData history same_entry) (history target)
  /\ Forall (from_store sourceData logins same_login) (logins target).

End Provenance.
(* ===================================================================== *)
(** ** Concrete data for the examples *)
(* ===================================================================== *)

Module Examples.

(** Scenario A of the specification, with the 0.8 / 0.7 thresholds. *)
Definition example_slash : UniversalBookmark.t :=
  UniversalBookmark.mk "chr_bm_1" "Example" "https://example.com/"
    ["Bookmarks Bar"] (Some 1700000000000) None "/profiles/a" CHROME []
    None None (Some 0).

Definition example_bare : UniversalBookmark.t :=
  UniversalBookmark.mk "ff_bm_7" "Example Site" "https://example.com"
    ["Bookmarks"] (Some 1600000000000) None "/profiles/b" FIREFOX []
    None None (Some 0).

Definition default_config : Dedup.DeduplicationConfig :=
  Dedup.mkConfig Dedup.bm_keep_newest Dedup.hs_merge_visits
    Dedup.lg_keep_newest 0.8%Q 0.7%Q true true.

(** A Firefox history row without title and visit count. *)
Definition bare_history_row : Normalizer.FirefoxHistory.t :=
  Normalizer.FirefoxHistory.mk (Some 12) (Some "https://a.com/") None None
    (Some 1700000000000) None None None.

(** A Firefox bookmark row without title and visit count. *)
Definition bare_bookmark_row : Normalizer.FirefoxBookmark.t :=
  Normalizer.FirefoxBookmark.mk (Some 3) None (Some "https://a.com/") None
    (Some 1700000000000) None None None None None.

(** 13,300,000,000,000,000 microseconds after 1601-01-01 is
    2022-06-18T04:26:40Z, that is 1,655,526,400,000 ms after 1970-01-01. *)
Definition chrome_stamp : string := "13300000000000000".

Definition chrome_bookmark_row : Extractor.BookmarkRow.t :=
  Extractor.BookmarkRow.mk "5" "Example" "https://example.com/"
    (Some chrome_stamp) (Some chrome_stamp) "Bookmarks Bar".

Definition chrome_history_row : Extractor.HistoryRow.t :=
  Extractor.HistoryRow.mk 9 "https://example.com/" (Some "Example") (Some 4)
    13300000000000000 (Some 1).

Definition raw_chrome_bookmark : Normalizer.ChromeBookmark.t :=
  Normalizer.ChromeBookmark.mk (Some "5") (Some "Example")
    (Some "https://example.com/") None (Some chrome_stamp) (Some chrome_stamp)
    None None.

Definition raw_chrome_history : Normalizer.ChromeHistory.t :=
  Normalizer.ChromeHistory.mk (Some 9) (Some "https://example.com/")
    (Some "Example") (Some 4) (Some chrome_stamp) (Some chrome_stamp) None.

Definition raw_chrome_login : Normalizer.ChromeLogin.t :=
  Normalizer.ChromeLogin.mk (Some 2) (Some "https://example.com/") (Some "bob")
    None (Some chrome_stamp) (Some chrome_stamp) None None None (Some 3).

(** Merge-engine records. *)
Definition bookmark (url : string) (lastModified : Z) : Merge.Bookmark.t :=
  Merge.Bookmark.mk "1" "Example" url (Some 1600000000000) (Some lastModified)
    0 "Bookmarks Bar" "/profiles/source" CHROME None.

Definition visit (url : string) (visitCount lastVisitTime : Z)
  : Merge.HistoryEntry.t :=
  Merge.HistoryEntry.mk "1" url "Example" visitCount (Some lastVisitTime) 0
    "/profiles/source" CHROME None.

(** A target with one bookmark and a source whose bookmark differs from
    it by a trailing slash only. *)
Definition slash_store : Merge.SourceData :=
  [("/profiles/target",
    Merge.mkData [bookmark "https://example.com/" 1700000000000] [] []);
   ("/profiles/work",
    Merge.mkData [bookmark "https://example.com" 1600000000000] [] [])].

(** An empty target and two sources that hold the same new bookmark. *)
Definition twice_store : Merge.SourceData :=
  [("/profiles/target", Merge.mkData [] [] []);
   ("/profiles/home",
    Merge.mkData [bookmark "https://a.com" 1700000000000] [] []);
   ("/profiles/work",
    Merge.mkData [bookmark "https://a.com" 1600000000000] [] [])].

Definition real_run : Merge.MergeConfig :=
  Merge.mkConfig [Merge.BOOKMARKS] Merge.KEEP_NEWEST false.

Definition dry_run : Merge.MergeConfig :=
  Merge.mkConfig [Merge.BOOKMARKS] Merge.KEEP_NEWEST true.

(** Scenario B of the specification: an existing entry with 3 visits and
    an incoming one with 2 later visits. *)
Definition scenario_B_target : Merge.RealExtractionResult :=
  Merge.mkData [] [visit "https://a.com" 3 1600000000000] [].

Definition scenario_B_incoming : Merge.HistoryEntry.t :=
  visit "https://a.com" 2 1700000000000.

Definition scenario_B_store : Merge.SourceData :=
  [("/profiles/target", scenario_B_target);
   ("/profiles/work", Merge.mkData [] [scenario_B_incoming] [])].

(** The existing entry of Scenario B written with a trailing slash. *)
Definition slash_target : Merge.RealExtractionResult :=
  Merge.mkData [] [visit "https://a.com/" 3 1600000000000] [].

End Examples.

(* ===================================================================== *)
(** ** More concrete data *)
(* ===================================================================== *)

Module MoreExamples.

Definition dated (id : string) (dateAdded : Z) (visits : option Z)
  : UniversalBookmark.t :=
  UniversalBookmark.mk id "Example" "https://example.com/" ["Bookmarks"]
    (Some dateAdded) None "/profiles/a" FIREFOX [] None None visits.

(** Three copies of one bookmark; the second and third were added last, at
    the same time. *)
Definition three_bookmarks : list UniversalBookmark.t :=
  [dated "ff_bm_1" 1500000000000 (Some 9);
   dated "ff_bm_2" 1700000000000 None;
   dated "ff_bm_3" 1700000000000 (Some 2)].

Definition visited (id url : string) (visitCount lastVisit : Z)
  : UniversalHistoryEntry.t :=
  UniversalHistoryEntry.mk id url "Example" visitCount (Some lastVisit)
    (Some lastVisit) "/profiles/a" FIREFOX None None None.

Definition three_visits : list UniversalHistoryEntry.t :=
  [visited "ff_hist_1" "https://example.com/a" 3 1500000000000;
   visited "ff_hist_2" "https://example.org/" 7 1600000000000;
   visited "ch_hist_1" "https://example.com/a/" 7 1700000000000].

Definition login (id domain username passwordHash : string)
  (timesUsed dateLastUsed : Z) : UniversalLogin.t :=
  UniversalLogin.mk id ("https://" ++ domain ++ "/login") domain username
    passwordHash (Some 1400000000000) (Some dateLastUsed) None "/profiles/a"
    CHROME None None None timesUsed.

(** Two logins of one account, with different password payloads, around a
    login of another site. *)
Definition three_logins : list UniversalLogin.t :=
  [login "ch_login_1" "example.com" "alice" "[ENCRYPTED]" 4 1500000000000;
   login "ch_login_2" "example.org" "alice" "[ENCRYPTED]" 1 1600000000000;
   login "ff_login_1" "example.com" "alice" "0a1b2c" 9 1700000000000].

(** A dataset made of the records above. *)
Definition small_dataset : NormalizedDataSet :=
  mkDataSet three_bookmarks three_visits three_logins.

(** A Chrome login row without an id. *)
Definition idless_login_row : Normalizer.ChromeLogin.t :=
  Normalizer.ChromeLogin.mk None (Some "https://example.com/login")
    (Some "alice") None (Some "13300000000000000") (Some "13300000000000000")
    None None None (Some 3).

(** A Firefox history row without an id. *)
Definition idless_history_row : Normalizer.FirefoxHistory.t :=
  Normalizer.FirefoxHistory.mk None (Some "https://a.com/") None None
    (Some 1700000000000) None None None.

(** A Tab Manager Plus export with two windows. *)
Definition raw_tab (url : string) : Tabs.RawTab.t :=
  Tabs.RawTab.mk (Some "Example") (Some url) None None None None None None.

Definition tab_manager_data : Tabs.TabManagerData.t :=
  Tabs.TabManagerData.mk
    (Some [Tabs.RawWindow.mk (Some 7)
             (Some [raw_tab "https://a.com/"; raw_tab "https://b.com/"]);
           Tabs.RawWindow.mk None (Some [raw_tab "https://a.com/"])])
    (Some 1690000000000).

Definition two_backups : list Tabs.TabBackup.t :=
  [Tabs.parseTabManagerPlusBackup 1700000000000 tab_manager_data "one.json";
   Tabs.parseTabManagerPlusBackup 1700000000500 tab_manager_data "two.json"].

(** [Math.random] returning one half every time. *)
Definition one_half : nat -> Q := fun _ => 0.5%Q.

Definition fresh_world : Recovery.World := Recovery.mkWorld 0 [].

Definition validated : Validation.ValidationResult :=
  fst (runState
         (Validation.validateRecoveredData one_half "recovered.db"
            Validation.dump_tables)
         fresh_world).

End MoreExamples.

(* ===================================================================== *)
(** * Properties *)
(* ===================================================================== *)

(** ** Strings *)

Lemma dropTrailing_idem (p : ascii -> bool) (s : string) :
  JS.dropTrailing p (JS.dropTrailing p s) = JS.dropTrailing p s.
Proof.
  induction s as [|c r IH]; simpl; [reflexivity|].
  destruct (JS.dropTrailing p r) as [|a r'] eqn:E.
  - destruct (p c) eqn:Hc; simpl; [reflexivity|]. now rewrite Hc.
  - simpl in *. now rewrite IH.
Qed.

(** Appending [p] in front of the stripped suffix: the suffix survives
    unless it consists of droppable characters only. *)
Lemma dropTrailing_app (p : ascii -> bool) (x s : string) :
  JS.dropTrailing p (x ++ s) =
  match JS.dropTrailing p s with
  | EmptyString => JS.dropTrailing p x
  | s' => x ++ s'
  end.
Proof.
  induction x as [|c x IH]; simpl.
  - now destruct (JS.dropTrailing p s).
  - rewrite IH. destruct (JS.dropTrailing p s); [reflexivity|].
    simpl. now destruct x.
Qed.

Lemma dropTrailing_app_congr (p : ascii -> bool) (x s1 s2 : string) :
  JS.dropTrailing p s1 = JS.dropTrailing p s2 ->
  JS.dropTrailing p (x ++ s1) = JS.dropTrailing p (x ++ s2).
Proof. intros H. now rewrite !dropTrailing_app, H. Qed.

Lemma lower_char_idem (c : ascii) :
  JS.lower_char (JS.lower_char c) = JS.lower_char c.
Proof.
  destruct c as [[] [] [] [] [] [] [] []]; reflexivity.
Qed.

Lemma is_space_lower_char (c : ascii) :
  JS.is_space (JS.lower_char c) = JS.is_space c.
Proof.
  destruct c as [[] [] [] [] [] [] [] []]; reflexivity.
Qed.

Lemma toLowerCase_idem (s : string) :
  JS.toLowerCase (JS.toLowerCase s) = JS.toLowerCase s.
Proof.
  induction s as [|c r IH]; simpl; [reflexivity|].
  now rewrite lower_char_idem, IH.
Qed.

Lemma toLowerCase_trimStart (s : string) :
  JS.toLowerCase (JS.trimStart s) = JS.trimStart (JS.toLowerCase s).
Proof.
  induction s as [|c r IH]; simpl; [reflexivity|].
  rewrite is_space_lower_char. now destruct (JS.is_space c).
Qed.

Lemma toLowerCase_trimEnd (s : string) :
  JS.toLowerCase (JS.trimEnd s) = JS.trimEnd (JS.toLowerCase s).
Proof.
  unfold JS.trimEnd.
  induction s as [|c r IH]; simpl; [reflexivity|].
  rewrite <- IH, is_space_lower_char.
  destruct (JS.dropTrailing JS.is_space r); simpl; [|reflexivity].
  now destruct (JS.is_space c).
Qed.

Lemma toLowerCase_trim (s : string) :
  JS.toLowerCase (JS.trim s) = JS.trim (JS.toLowerCase s).
Proof.
  unfold JS.trim. now rewrite toLowerCase_trimEnd, toLowerCase_trimStart.
Qed.

Lemma trimStart_idem (s : string) :
  JS.trimStart (JS.trimStart s) = JS.trimStart s.
Proof.
  induction s as [|c r IH]; simpl; [reflexivity|].
  destruct (JS.is_space c) eqn:Hc; [exact IH|]. simpl. now rewrite Hc.
Qed.

(** [trimEnd] leaves the first character in place, so a string without
    leading white space keeps that property. *)
Lemma trimStart_trimEnd (s : string) :
  JS.trimStart s = s -> JS.trimStart (JS.trimEnd s) = JS.trimEnd s.
Proof.
  unfold JS.trimEnd.
  destruct s as [|c r]; simpl; [reflexivity|].
  destruct (JS.is_space c) eqn:Hc.
  - intros H. exfalso.
    assert (L : (String.length (JS.trimStart r) <= String.length r)%nat).
    { clear. induction r as [|a r IH]; simpl; [lia|].
      destruct (JS.is_space a); simpl; lia. }
    rewrite H in L. simpl in L. lia.
  - intros _. destruct (JS.dropTrailing JS.is_space r); simpl; now rewrite Hc.
Qed.

Lemma trim_idem (s : string) : JS.trim (JS.trim s) = JS.trim s.
Proof.
  unfold JS.trim.
  rewrite (trimStart_trimEnd _ (trimStart_idem s)).
  apply dropTrailing_idem.
Qed.

Lemma trim_toLowerCase_idem (s : string) :
  JS.trim (JS.toLowerCase (JS.trim (JS.toLowerCase s)))
  = JS.trim (JS.toLowerCase s).
Proof.
  now rewrite toLowerCase_trim, toLowerCase_idem, trim_idem.
Qed.

Lemma string_app_assoc (a b c : string) : ((a ++ b) ++ c = a ++ b ++ c)%string.
Proof. induction a as [|x a IH]; simpl; [reflexivity | now rewrite IH]. Qed.

(** ** DeduplicationEngine *)

Section DedupFacts.

Import Dedup.

Variable newURL : URLParser.

Lemma fold_left_members (groups : list DuplicateGroup) (init : Z) :
  fold_left (fun sum group => sum + Z.of_nat (List.length (items group)) - 1)
    groups init
  = init + members_beyond_first groups.
Proof.
  revert init. induction groups as [|g gs IH]; intros init; simpl.
  - lia.
  - rewrite IH. lia.
Qed.

(** C10.  For every dataset and configuration, the result of
    [analyzeDataset] has [estimatedReduction] equal to [potentialMerges],
    and both equal the sum, over the duplicate groups returned, of the
    number of members of the group minus one. *)
Theorem analyzeDataset_reduction_is_members_beyond_first
  (dataset : NormalizedDataSet) (config : DeduplicationConfig) :
  let result := analyzeDataset newURL dataset config in
  estimatedReduction result = potentialMerges result
  /\ potentialMerges result = members_beyond_first (duplicateGroups result).
Proof.
  simpl. split; [reflexivity|]. now rewrite fold_left_members.
Qed.

(** *** Normalisation *)

Lemma normalizeUrl_parsed (u : string) (U : URL) :
  newURL u = Some U ->
  normalizeUrl newURL u
  = JS.replace_trailing_slashes
      ((protocol U ++ "//" ++ JS.replace_leading_www (hostname U))
         ++ pathname U).
Proof.
  intros H. unfold normalizeUrl. rewrite H.
  now rewrite !string_app_assoc.
Qed.

Lemma normalizeUrl_fallback (u : string) :
  newURL u = None -> normalizeUrl newURL u = JS.trim (JS.toLowerCase u).
Proof. intros H. unfold normalizeUrl. now rewrite H. Qed.

(** Two parsed URLs with the same protocol and hostname whose paths agree
    up to trailing slashes have the same normal form. *)
Lemma normalizeUrl_same_up_to_slashes (u1 u2 : string) (U1 U2 : URL) :
  newURL u1 = Some U1 -> newURL u2 = Some U2 ->
  protocol U1 = protocol U2 ->
  JS.replace_leading_www (hostname U1) = JS.replace_leading_www (hostname U2) ->
  JS.replace_trailing_slashes (pathname U1)
  = JS.replace_trailing_slashes (pathname U2) ->
  normalizeUrl newURL u1 = normalizeUrl newURL u2.
Proof.
  intros H1 H2 Hp Hh Hs.
  rewrite (normalizeUrl_parsed _ _ H1), (normalizeUrl_parsed _ _ H2), Hp, Hh.
  now apply dropTrailing_app_congr.
Qed.

(** C5, as amended.  [normalizeUrl] is idempotent on [u] in two cases:
    when neither [u] nor its lower-cased, trimmed form parses as a URL; and
    when [u] parses and its normal form is read back with the same
    protocol, the hostname without its leading "www." and no further
    leading "www.", and the same path up to trailing slashes. *)
Theorem normalizeUrl_idempotent_when_read_back (u : string) :
  (newURL u = None -> newURL (JS.trim (JS.toLowerCase u)) = None ->
   normalizeUrl newURL (normalizeUrl newURL u) = normalizeUrl newURL u)
  /\ (forall U U' : URL,
        newURL u = Some U ->
        newURL (normalizeUrl newURL u) = Some U' ->
        protocol U' = protocol U ->
        hostname U' = JS.replace_leading_www (hostname U) ->
        JS.replace_leading_www (hostname U') = hostname U' ->
        JS.replace_trailing_slashes (pathname U')
        = JS.replace_trailing_slashes (pathname U) ->
        normalizeUrl newURL (normalizeUrl newURL u) = normalizeUrl newURL u).
Proof.
  split.
  - intros H1 H2.
    rewrite (normalizeUrl_fallback u H1), (normalizeUrl_fallback _ H2).
    apply trim_toLowerCase_idem.
  - intros U U' H1 H2 Hp Hh Hw Hs.
    apply (normalizeUrl_same_up_to_slashes _ _ U' U); auto.
    now rewrite Hw.
Qed.

(** *** URL similarity *)

Lemma calculateUrlSimilarity_cases (url1 url2 : string) :
  (url1 = url2 -> calculateUrlSimilarity newURL url1 url2 = 1%Q)
  /\ (url1 <> url2 ->
      normalizeUrl newURL url1 = normalizeUrl newURL url2 ->
      calculateUrlSimilarity newURL url1 url2 = 0.95%Q)
  /\ (url1 <> url2 ->
      normalizeUrl newURL url1 <> normalizeUrl newURL url2 ->
      JS.includes (normalizeUrl newURL url1) (normalizeUrl newURL url2) = true
      \/ JS.includes (normalizeUrl newURL url2) (normalizeUrl newURL url1)
         = true ->
      calculateUrlSimilarity newURL url1 url2 = 0.8%Q)
  /\ (url1 <> url2 ->
      normalizeUrl newURL url1 <> normalizeUrl newURL url2 ->
      JS.includes (normalizeUrl newURL url1) (normalizeUrl newURL url2) = false ->
      JS.includes (normalizeUrl newURL url2) (normalizeUrl newURL url1) = false ->
      calculateUrlSimilarity newURL url1 url2
      = calculateStringSimilarity (normalizeUrl newURL url1)
          (normalizeUrl newURL url2)).
Proof.
  unfold calculateUrlSimilarity.
  repeat split.
  - intros ->. now rewrite String.eqb_refl.
  - intros Hne Hn. apply String.eqb_neq in Hne. rewrite Hne.
    apply String.eqb_eq in Hn. now rewrite Hn.
  - intros Hne Hn Hi. apply String.eqb_neq in Hne, Hn. rewrite Hne, Hn.
    destruct Hi as [-> | ->]; [reflexivity|]. now rewrite orb_true_r.
  - intros Hne Hn Hi1 Hi2. apply String.eqb_neq in Hne, Hn.
    now rewrite Hne, Hn, Hi1, Hi2.
Qed.

Lemma calculateUrlSimilarity_same_normal_form (url1 url2 : string) :
  normalizeUrl newURL url1 = normalizeUrl newURL url2 ->
  (0.95 <= calculateUrlSimilarity newURL url1 url2)%Q.
Proof.
  intros Hn. unfold calculateUrlSimilarity.
  destruct (String.eqb url1 url2); [discriminate|].
  apply String.eqb_eq in Hn. rewrite Hn. apply Qle_refl.
Qed.

(** Two bookmarks with distinct ids whose URL similarity reaches the URL
    threshold make up the only group of a two-element dataset. *)
Lemma findBookmarkDuplicates_pair (b1 b2 : UB.t) (config : DeduplicationConfig) :
  UB.id b2 <> UB.id b1 ->
  (urlSimilarityThreshold config
   <= calculateUrlSimilarity newURL (UB.url b1) (UB.url b2))%Q ->
  map items (findBookmarkDuplicates newURL [b1; b2] config)
  = [[IBookmark b1; IBookmark b2]].
Proof.
  intros Hid Hsim.
  unfold findBookmarkDuplicates. simpl.
  apply String.eqb_neq in Hid. rewrite Hid. simpl.
  unfold joins, geb. simpl.
  apply Qle_bool_iff in Hsim. rewrite Hsim. simpl.
  rewrite String.eqb_refl. reflexivity.
Qed.


End DedupFacts.

(** C5, counterexample.  One application removes one leading "www." only:
    the normal form of "http://www.www.example.com/" is not a fixed
    point. *)
Lemma normalizeUrl_www_www_not_fixed :
  Dedup.normalizeUrl SimpleURL.parse "http://www.www.example.com/"
  = "http://www.example.com"
  /\ Dedup.normalizeUrl SimpleURL.parse
       (Dedup.normalizeUrl SimpleURL.parse "http://www.www.example.com/")
     = "http://example.com"
  /\ Dedup.normalizeUrl SimpleURL.parse
       (Dedup.normalizeUrl SimpleURL.parse "http://www.www.example.com/")
     <> Dedup.normalizeUrl SimpleURL.parse "http://www.www.example.com/".
Proof. split; [reflexivity | split; [reflexivity | discriminate]]. Qed.

(** C5, witness: both cases of the theorem at concrete inputs, a string
    that is no URL and a URL with a trailing slash. *)
Lemma normalizeUrl_idempotent_witness :
  Dedup.normalizeUrl SimpleURL.parse
    (Dedup.normalizeUrl SimpleURL.parse "  Example.COM/Docs ")
  = Dedup.normalizeUrl SimpleURL.parse "  Example.COM/Docs "
  /\ Dedup.normalizeUrl SimpleURL.parse
       (Dedup.normalizeUrl SimpleURL.parse "https://www.example.com/a/")
     = Dedup.normalizeUrl SimpleURL.parse "https://www.example.com/a/".
Proof.
  split.
  - apply (proj1 (normalizeUrl_idempotent_when_read_back SimpleURL.parse
                    "  Example.COM/Docs ")); reflexivity.
  - apply (proj2 (normalizeUrl_idempotent_when_read_back SimpleURL.parse
                    "https://www.example.com/a/")
             (mkURL "https:" "www.example.com" "/a/" [])
             (mkURL "https:" "example.com" "/a" [])); reflexivity.
Defined.



(** ** UniversalDataNormalizer and the Chrome extractor *)

Lemma Forall2_map_index {A B : Type} (R : A -> B -> Prop) (f : A -> nat -> B) :
  (forall x i, R x (f x i)) ->
  forall l i, Forall2 R l (map_index f i l).
Proof.
  intros H l. induction l as [|x r IH]; intros i; simpl; constructor; auto.
Qed.

Lemma Forall2_singleton {A B : Type} (R : A -> B -> Prop) (x : A) (l : list B) :
  Forall2 R [x] l -> exists y, l = [y] /\ R x y.
Proof.
  intros H. inversion H as [|? y ? l' Hxy Hnil]; subst.
  inversion Hnil; subst. now exists y.
Qed.

Section NormalizerFacts.

Import Normalizer.

Variable newURL : URLParser.
Variable now : Z.
Variable profilePath : string.
Variable browserType : BrowserType.

(** C9, as amended.  In every record that the normalisers build, a
    missing title becomes "Untitled"; a missing visit count becomes 0 in a
    Firefox bookmark (a Chrome bookmark always gets 0) and 1 in a history
    entry of either family; logins have no title and no visit count, and
    their missing use count becomes 1. *)
Theorem normalizer_defaults :
  (forall rows,
     Forall2 (fun row out =>
                (FirefoxBookmark.title row = None -> UB.title out = "Untitled")
                /\ (FirefoxBookmark.visit_count row = None ->
                    UB.visitCount out = Some 0))
       rows (normalizeFirefoxBookmarks now rows profilePath))
  /\ (forall rows,
        Forall2 (fun row out =>
                   (ChromeBookmark.name row = None -> UB.title out = "Untitled")
                   /\ UB.visitCount out = Some 0)
          rows (normalizeChromeBookmarks rows profilePath browserType))
  /\ (forall rows,
        Forall2 (fun row out =>
                   (FirefoxHistory.title row = None ->
                    UH.title out = "Untitled")
                   /\ (FirefoxHistory.visit_count row = None ->
                       UH.visitCount out = 1))
          rows (normalizeFirefoxHistory newURL now rows profilePath))
  /\ (forall rows,
        Forall2 (fun row out =>
                   (ChromeHistory.title row = None -> UH.title out = "Untitled")
                   /\ (ChromeHistory.visit_count row = None ->
                       UH.visitCount out = 1))
          rows (normalizeChromeHistory newURL rows profilePath browserType))
  /\ (forall rows,
        Forall2 (fun row out =>
                   FirefoxLogin.timesUsed row = None -> UL.timesUsed out = 1)
          rows (normalizeFirefoxLogins newURL now rows profilePath))
  /\ (forall rows,
        Forall2 (fun row out =>
                   ChromeLogin.times_used row = None -> UL.timesUsed out = 1)
          rows (normalizeChromeLogins newURL rows profilePath browserType)).
Proof.
  repeat split; intros rows; apply Forall2_map_index; intros row i; simpl;
    repeat split; try (intros ->; reflexivity).
Qed.

End NormalizerFacts.

(** C9, counterexample.  A Firefox history row without a visit count is
    normalised to a visit count of 1, not 0. *)
Lemma history_missing_visit_count_is_one :
  Normalizer.FirefoxHistory.visit_count Examples.bare_history_row = None
  /\ map UniversalHistoryEntry.visitCount
       (Normalizer.normalizeFirefoxHistory SimpleURL.parse 1700000000500
          [Examples.bare_history_row] "/profiles/a")
     = [1]
  /\ map UniversalHistoryEntry.visitCount
       (Normalizer.normalizeFirefoxHistory SimpleURL.parse 1700000000500
          [Examples.bare_history_row] "/profiles/a")
     <> [0].
Proof. split; [reflexivity | split; [reflexivity | discriminate]]. Qed.

(** C9, witness: the theorem on one bare Firefox bookmark row and one bare
    Firefox history row. *)
Lemma normalizer_defaults_witness :
  map UniversalBookmark.title
    (Normalizer.normalizeFirefoxBookmarks 1700000000500
       [Examples.bare_bookmark_row] "/profiles/a")
  = ["Untitled"]
  /\ map UniversalHistoryEntry.visitCount
       (Normalizer.normalizeFirefoxHistory SimpleURL.parse 1700000000500
          [Examples.bare_history_row] "/profiles/a")
     = [1].
Proof.
  pose proof (normalizer_defaults SimpleURL.parse 1700000000500
                "/profiles/a" FIREFOX) as (Hb & _ & Hh & _).
  destruct (Forall2_singleton _ _ _ (Hb [Examples.bare_bookmark_row]))
    as (out1 & E1 & Ht & _).
  destruct (Forall2_singleton _ _ _ (Hh [Examples.bare_history_row]))
    as (out2 & E2 & _ & Hv).
  rewrite E1, E2. simpl.
  now rewrite (Ht eq_refl), (Hv eq_refl).
Defined.

(** *** Chrome timestamps *)

(** The history and login callbacks of [extractChromeData] shift the epoch
    before scaling. *)
Lemma chrome_history_shifts_epoch (profile_path : string)
  (entry : Extractor.HistoryRow.t) :
  Merge.HistoryEntry.lastVisitTime (Extractor.chrome_history profile_path entry)
  = DateOps.TimeClip
      (Extractor.unix_millis_of_chrome (Extractor.HistoryRow.last_visit_time entry)).
Proof. reflexivity. Qed.

Lemma chrome_login_shifts_epoch (profile_path : string)
  (login : Extractor.LoginRow.t) :
  Merge.Login.timeCreated (Extractor.chrome_login profile_path login)
  = DateOps.TimeClip
      (Extractor.unix_millis_of_chrome (Extractor.LoginRow.date_created login))
  /\ Merge.Login.timeLastUsed (Extractor.chrome_login profile_path login)
     = DateOps.TimeClip
         (Extractor.unix_millis_of_chrome
            (Extractor.LoginRow.date_last_used login)).
Proof. split; reflexivity. Qed.

(** C2, the code at the failing input.  The stamp 13300000000000000 stands
    for 1,655,526,400,000 ms of Unix time, and the history callback of the
    extractor yields that; the bookmark callback of the extractor and the
    Chrome normalisers for bookmarks, history and logins only divide by
    1000 and yield 13,300,000,000,000 ms. *)
Theorem chrome_dates_without_epoch_shift :
  Extractor.unix_millis_of_chrome 13300000000000000 = 1655526400000
  /\ Merge.HistoryEntry.lastVisitTime
       (Extractor.chrome_history "/profiles/c" Examples.chrome_history_row)
     = Some 1655526400000
  /\ Merge.Bookmark.dateAdded
       (Extractor.chrome_bookmark "/profiles/c" Examples.chrome_bookmark_row)
     = Some 13300000000000
  /\ Merge.Bookmark.lastModified
       (Extractor.chrome_bookmark "/profiles/c" Examples.chrome_bookmark_row)
     = Some 13300000000000
  /\ map UniversalBookmark.dateAdded
       (Normalizer.normalizeChromeBookmarks [Examples.raw_chrome_bookmark]
          "/profiles/c" CHROME)
     = [Some 13300000000000]
  /\ map UniversalHistoryEntry.lastVisit
       (Normalizer.normalizeChromeHistory SimpleURL.parse
          [Examples.raw_chrome_history] "/profiles/c" CHROME)
     = [Some 13300000000000]
  /\ map UniversalLogin.dateCreated
       (Normalizer.normalizeChromeLogins SimpleURL.parse
          [Examples.raw_chrome_login] "/profiles/c" CHROME)
     = [Some 13300000000000].
Proof. repeat split; vm_compute; reflexivity. Qed.

(** ** SQLiteCorruptionHandler *)

Section RecoveryFacts.

Import Recovery.

Variable random : nat -> Q.

Lemma run_bind {A B : Type} (m : M A) (k : A -> M B) (w : World) :
  runState (bind m k) w = let (v, w') := runState m w in runState (k v) w'.
Proof. reflexivity. Qed.

Lemma run_emit (e : Event) (w : World) :
  runState (emit e) w = (tt, mkWorld (draws w) (trace w ++ [e])%list).
Proof. reflexivity. Qed.

Lemma filterM_trace {A : Type} (p : A -> M bool) :
  (forall x w, trace (snd (runState (p x) w)) = trace w) ->
  forall l w, trace (snd (runState (filterM p l) w)) = trace w.
Proof.
  intros Hp l. induction l as [|x r IH]; intros w; [reflexivity|].
  cbn. specialize (Hp x w).
  destruct (runState (p x) w) as [keep w1]. specialize (IH w1).
  destruct (runState (filterM p r) w1) as [r' w2]. simpl in *. congruence.
Qed.

Lemma random_subset_trace (bound : Q) (allTables : list string) (w : World) :
  trace (snd (runState (random_subset random bound allTables) w)) = trace w.
Proof. apply filterM_trace. reflexivity. Qed.

(** What one attempt does: it records its event and nothing else, and it
    reports success exactly when it lists a recovered table. *)
Lemma attemptDumpRecovery_run (filePath outputPath : string) (w : World) :
  let (result, w') :=
    runState (attemptDumpRecovery random filePath outputPath) w in
  trace w' = (trace w ++ [DumpAttempt filePath outputPath])%list
  /\ method result = m_dump
  /\ success result = (0 <? List.length (recoveredTables result))%nat.
Proof.
  unfold attemptDumpRecovery. cbv zeta. rewrite run_bind, run_emit, run_bind.
  match goal with
  | |- context [runState (random_subset random ?b ?l) ?w0] =>
      pose proof (random_subset_trace b l w0) as Ht;
      destruct (runState (random_subset random b l) w0) as [recovered w1]
  end.
  simpl in Ht.
  destruct (0 <? List.length recovered)%nat eqn:E; cbn; rewrite ?E; auto.
Qed.

Lemma attemptRecoverCommand_run (filePath outputPath : string) (w : World) :
  let (result, w') :=
    runState (attemptRecoverCommand random filePath outputPath) w in
  trace w' = (trace w ++ [RecoverAttempt filePath outputPath])%list
  /\ method result = m_recover
  /\ success result = (0 <? List.length (recoveredTables result))%nat.
Proof.
  unfold attemptRecoverCommand. cbv zeta. rewrite run_bind, run_emit, run_bind.
  match goal with
  | |- context [runState (random_subset random ?b ?l) ?w0] =>
      pose proof (random_subset_trace b l w0) as Ht;
      destruct (runState (random_subset random b l) w0) as [recovered w1]
  end.
  simpl in Ht.
  destruct (0 <? List.length recovered)%nat eqn:E; cbn; rewrite ?E; auto.
Qed.

Variables filePath outputDir : string.

(** The two attempts as [recoverDatabase] makes them from world [w]. *)
Let dump (w : World) : RecoveryResult * World :=
  runState
    (attemptDumpRecovery random filePath (outputDir ++ "/dump_recovery.sql")) w.

Let salvage (w : World) : RecoveryResult * World :=
  runState
    (attemptRecoverCommand random filePath
       (outputDir ++ "/recover_recovery.db"))
    (snd (dump w)).

(** C7.  [recoverDatabase] checks the integrity and goes on from the
    verdict.  For a corrupted database: if it is recoverable, the dump is
    attempted first and its result is returned, with no .recover attempt,
    whenever it recovers at least one table; .recover is attempted only
    after a dump that recovered no table, and its result is returned when
    it recovers one; and if the database is unrecoverable (nothing is then
    attempted) or both methods recover no table, the result has
    [success = false] and [lostData] lists the entire database. *)
Theorem recoverDatabase_staged :
  (forall w0 : World,
     runState (recoverDatabase random filePath outputDir) w0
     = (let (integrityCheck, w) :=
          runState (checkDatabaseIntegrity random filePath) w0 in
        runState (recover_checked random integrityCheck filePath outputDir) w))
  /\ forall (integrityCheck : CorruptionCheckResult) (w : World),
       let run :=
         runState (recover_checked random integrityCheck filePath outputDir) w in
       isCorrupted integrityCheck = true ->
       (recoverable integrityCheck = true ->
        (exists later,
           trace (snd run)
           = (trace w
                ++ DumpAttempt filePath (outputDir ++ "/dump_recovery.sql")
                :: later)%list)
        /\ (recoveredTables (fst (dump w)) <> [] ->
            run = dump w
            /\ trace (snd run)
               = (trace w
                    ++ [DumpAttempt filePath
                          (outputDir ++ "/dump_recovery.sql")])%list)
        /\ (forall added,
              trace (snd run) = (trace w ++ added)%list ->
              In (RecoverAttempt filePath (outputDir ++ "/recover_recovery.db"))
                added ->
              recoveredTables (fst (dump w)) = [])
        /\ (recoveredTables (fst (dump w)) = [] ->
            recoveredTables (fst (salvage w)) <> [] -> run = salvage w)
        /\ (recoveredTables (fst (dump w)) = [] ->
            recoveredTables (fst (salvage w)) = [] ->
            success (fst run) = false
            /\ lostData (fst run) = ["entire_database"]))
       /\ (recoverable integrityCheck = false ->
           success (fst run) = false
           /\ lostData (fst run) = ["entire_database"]
           /\ snd run = w).
Proof.
  split; [reflexivity|]. intros integrityCheck w.
  intros run Hc. subst run. unfold recover_checked, salvage.
  rewrite Hc. cbn [negb].
  split.
  - intros Hr. rewrite Hr. cbn [negb]. rewrite run_bind. fold (dump w).
    pose proof (attemptDumpRecovery_run filePath
                  (outputDir ++ "/dump_recovery.sql") w) as Hd.
    fold (dump w) in Hd.
    destruct (dump w) as [dumpResult w1]. destruct Hd as (Ht1 & _ & Hs1).
    cbn [fst snd]. rewrite Hs1, andb_diag.
    destruct (recoveredTables dumpResult) as [|t ts] eqn:Etab;
      cbn [List.length Nat.ltb Nat.leb].
    + (* the dump recovered nothing: .recover runs *)
      rewrite run_bind.
      pose proof (attemptRecoverCommand_run filePath
                    (outputDir ++ "/recover_recovery.db") w1) as Hs.
      destruct (runState (attemptRecoverCommand random filePath
                            (outputDir ++ "/recover_recovery.db")) w1)
        as [recoverResult w2].
      destruct Hs as (Ht2 & _ & Hs2).
      rewrite Hs2, andb_diag.
      assert (Htrace : trace w2
                = (trace w
                     ++ DumpAttempt filePath (outputDir ++ "/dump_recovery.sql")
                     :: [RecoverAttempt filePath
                           (outputDir ++ "/recover_recovery.db")])%list).
      { rewrite Ht2, Ht1, <- app_assoc. reflexivity. }
      destruct (recoveredTables recoverResult) as [|t' ts'] eqn:Etab2;
        cbn [List.length Nat.ltb Nat.leb fst snd runState ret Monad_state];
        (split; [eexists; exact Htrace|]);
        (split; [intros H; now contradiction H|]);
        (split; [reflexivity|]); split; intros _ H; auto;
        cbn [fst] in H; congruence.
    + (* the dump recovered a table: its result is the answer *)
      cbn [fst snd runState ret Monad_state].
      split; [exists []; exact Ht1|].
      split; [intros _; split; [reflexivity | exact Ht1]|].
      split.
      * intros added Ha Hin. rewrite Ht1 in Ha.
        apply app_inv_head in Ha. subst added.
        destruct Hin as [Hin | []]. discriminate Hin.
      * split; intros H; discriminate H.
  - intros Hr. rewrite Hr. cbn. auto.
Qed.

End RecoveryFacts.

(** C7, witness: a page corruption whose dump recovers all four tables
    (every draw is 0.5); the result is the dump's. *)
Lemma recoverDatabase_staged_witness :
  Recovery.method
    (fst (runState
            (Recovery.recover_checked (fun _ => 0.5%Q)
               (Recovery.mkCheck true Recovery.e_page
                  "Database pages are corrupted - some data may be unreadable"
                  true "Use .recover command to extract maximum possible data")
               "places.sqlite" "/tmp/out")
            (Recovery.mkWorld 2 [Recovery.CheckIntegrity "places.sqlite"])))
  = Recovery.m_dump.
Proof.
  destruct (proj2 (recoverDatabase_staged (fun _ => 0.5%Q) "places.sqlite"
                     "/tmp/out")
              (Recovery.mkCheck true Recovery.e_page
                 "Database pages are corrupted - some data may be unreadable"
                 true "Use .recover command to extract maximum possible data")
              (Recovery.mkWorld 2 [Recovery.CheckIntegrity "places.sqlite"])
              eq_refl) as [Hrec _].
  destruct (Hrec eq_refl) as (_ & Hdump & _).
  destruct Hdump as [Hrun _]; [discriminate|].
  rewrite Hrun. reflexivity.
Defined.

(** ** EnhancedMergeEngine *)

Section ArrayFacts.

Import Merge.

Context {A : Type}.

Lemma find_at_Some (p : A -> bool) (l : list A) (i : nat) (e : A) :
  find_at p l = Some (i, e) -> nth_error l i = Some e /\ p e = true.
Proof.
  revert i. induction l as [|x r IH]; intros i; simpl; [discriminate|].
  destruct (p x) eqn:Hx.
  - intros [= <- <-]. now split.
  - destruct (find_at p r) as [[j y]|]; [|discriminate].
    intros [= <- <-]. now apply IH.
Qed.

Lemma find_at_None (p : A -> bool) (l : list A) :
  find_at p l = None -> forall e, In e l -> p e = false.
Proof.
  induction l as [|x r IH]; simpl; [now intros _ e []|].
  destruct (p x) eqn:Hx; [discriminate|].
  destruct (find_at p r) as [[j y]|]; [discriminate|].
  intros _ e [<- | Hin]; auto.
Qed.

Lemma find_at_In (p : A -> bool) (l : list A) (a : A) :
  In a l -> p a = true -> exists i e, find_at p l = Some (i, e).
Proof.
  intros Hin Hp. destruct (find_at p l) as [[i e]|] eqn:E; [eauto|].
  rewrite (find_at_None _ _ E _ Hin) in Hp. discriminate.
Qed.

Lemma set_nth_length (i : nat) (v : A) (l : list A) :
  List.length (set_nth i v l) = List.length l.
Proof.
  revert i. induction l as [|x r IH]; intros [|i]; simpl; auto.
Qed.

Lemma set_nth_same (i : nat) (v e : A) (l : list A) :
  nth_error l i = Some e -> nth_error (set_nth i v l) i = Some v.
Proof.
  revert i. induction l as [|x r IH]; intros [|i]; simpl; try discriminate; auto.
Qed.

Lemma set_nth_other (i j : nat) (v : A) (l : list A) :
  j <> i -> nth_error (set_nth i v l) j = nth_error l j.
Proof.
  revert i j. induction l as [|x r IH]; intros [|i] [|j] H; simpl; auto;
    try (now contradiction H); apply IH; congruence.
Qed.

(** Writing, at the place of [e], a value with the same key leaves the
    list of keys as it is. *)
Lemma map_set_nth {K : Type} (key : A -> K) (i : nat) (v e : A) (l : list A) :
  nth_error l i = Some e -> key v = key e ->
  map key (set_nth i v l) = map key l.
Proof.
  revert i. induction l as [|x r IH]; intros [|i]; simpl; try discriminate.
  - intros [= ->] ->. reflexivity.
  - intros H Hk. now rewrite (IH i H Hk).
Qed.

Lemma NoDup_snoc (l : list A) (y : A) :
  NoDup l -> ~ In y l -> NoDup (l ++ [y]).
Proof.
  induction l as [|x r IH]; simpl; intros Hnd Hy.
  - constructor; [intros [] | constructor].
  - inversion Hnd as [|? ? Hx Hr]; subst. constructor.
    + rewrite in_app_iff. intros [H | [H | []]]; [now apply Hx|].
      apply Hy. now left.
    + apply IH; auto.
Qed.

(** *** The array iteration *)

Context {S : Type}.
Variable arr : S -> list A.
Variable body : A -> S -> S.

Lemma for_of_invariant (P : S -> Prop) :
  (forall a s, P s -> P (body a s)) ->
  forall fuel i s s', P s -> for_of fuel arr body i s = Some s' -> P s'.
Proof.
  intros Hb fuel. induction fuel as [|fuel IH]; intros i s s' Hs; simpl;
    destruct (nth_error (arr s) i) as [a|]; try discriminate;
    try (intros [= <-]; exact Hs).
  intros H. eapply IH; [|exact H]. now apply Hb.
Qed.

(** The iteration ends within [fuel] steps when the body does not change
    the length of the array while elements of the array are fed to it. *)
Lemma for_of_total (n : nat) :
  (forall a s i,
     List.length (arr s) = n -> nth_error (arr s) i = Some a ->
     List.length (arr (body a s)) = n) ->
  forall fuel i s,
    List.length (arr s) = n -> (n <= i + fuel)%nat ->
    exists s', for_of fuel arr body i s = Some s'.
Proof.
  intros Hb fuel. induction fuel as [|fuel IH]; intros i s Hn Hle; simpl;
    destruct (nth_error (arr s) i) as [a|] eqn:E; eauto.
  - exfalso. assert (i < List.length (arr s))%nat; [|lia].
    apply nth_error_Some. congruence.
  - apply IH; [now apply (Hb a s i) | lia].
Qed.

End ArrayFacts.

Section MergeSteps.

Import Merge.

Variable config : MergeConfig.
Variable profilePath : string.

(** *** One incoming record *)

Lemma merge_bookmark_length (bookmark : Bookmark.t) (acc : Acc) (i : nat) :
  nth_error (bookmarks (targetData acc)) i = Some bookmark ->
  List.length (bookmarks (targetData (merge_bookmark config profilePath bookmark acc)))
  = List.length (bookmarks (targetData acc)).
Proof.
  intros Hi. unfold merge_bookmark.
  destruct (find_at_In
              (fun b => String.eqb (Bookmark.url b) (Bookmark.url bookmark))
              (bookmarks (targetData acc)) bookmark)
    as (k & e & ->); [eapply nth_error_In; eauto | apply String.eqb_refl |].
  destruct (shouldReplaceBookmark e bookmark _), (dryRun config); simpl; auto.
  apply set_nth_length.
Qed.

Lemma merge_history_entry_length (historyEntry : HistoryEntry.t) (acc : Acc)
  (i : nat) :
  nth_error (history (targetData acc)) i = Some historyEntry ->
  List.length (history (targetData
                          (merge_history_entry config profilePath historyEntry acc)))
  = List.length (history (targetData acc)).
Proof.
  intros Hi. unfold merge_history_entry.
  destruct (find_at_In
              (fun h => String.eqb (HistoryEntry.url h)
                          (HistoryEntry.url historyEntry))
              (history (targetData acc)) historyEntry)
    as (k & e & ->); [eapply nth_error_In; eauto | apply String.eqb_refl |].
  destruct (dryRun config); simpl; auto.
  apply set_nth_length.
Qed.

Lemma merge_login_length (login : Login.t) (acc : Acc) (i : nat) :
  nth_error (logins (targetData acc)) i = Some login ->
  List.length (logins (targetData (merge_login config profilePath login acc)))
  = List.length (logins (targetData acc)).
Proof.
  intros Hi. unfold merge_login.
  destruct (find_at_In
              (fun l => (String.eqb (Login.hostname l) (Login.hostname login)
                         && String.eqb (Login.username l) (Login.username login))
                        %bool)
              (logins (targetData acc)) login)
    as (k & e & ->);
    [eapply nth_error_In; eauto | now rewrite !String.eqb_refl |].
  destruct (shouldReplaceLogin e login _), (dryRun config); simpl; auto.
  apply set_nth_length.
Qed.

(** Each step keeps the keys of the three arrays pairwise distinct. *)
Lemma merge_bookmark_unique (bookmark : Bookmark.t) (acc : Acc) :
  unique_keys (targetData acc) ->
  unique_keys (targetData (merge_bookmark config profilePath bookmark acc)).
Proof.
  intros (Hb & Hh & Hl). unfold merge_bookmark.
  destruct (find_at _ (bookmarks (targetData acc))) as [[k e]|] eqn:E.
  - apply find_at_Some in E as [Hk He]. apply String.eqb_eq in He.
    destruct (shouldReplaceBookmark e bookmark _), (dryRun config);
      unfold unique_keys, set_bookmarks, set_history, set_logins; simpl;
      repeat split; auto.
    now rewrite (map_set_nth Bookmark.url k _ e _ Hk).
  - destruct (dryRun config);
      unfold unique_keys, set_bookmarks, set_history, set_logins; simpl;
      repeat split; auto.
    rewrite map_app. simpl. apply NoDup_snoc; [exact Hb|].
    intros Hin. apply in_map_iff in Hin as (e & Hurl & Hin).
    apply (find_at_None _ _ E) in Hin. apply String.eqb_neq in Hin.
    now apply Hin.
Qed.

Lemma merge_history_entry_unique (historyEntry : HistoryEntry.t) (acc : Acc) :
  unique_keys (targetData acc) ->
  unique_keys
    (targetData (merge_history_entry config profilePath historyEntry acc)).
Proof.
  intros (Hb & Hh & Hl). unfold merge_history_entry.
  destruct (find_at _ (history (targetData acc))) as [[k e]|] eqn:E.
  - apply find_at_Some in E as [Hk He].
    destruct (dryRun config);
      unfold unique_keys, set_bookmarks, set_history, set_logins; simpl;
      repeat split; auto.
    now rewrite (map_set_nth HistoryEntry.url k _ e _ Hk).
  - destruct (dryRun config);
      unfold unique_keys, set_bookmarks, set_history, set_logins; simpl;
      repeat split; auto.
    rewrite map_app. simpl. apply NoDup_snoc; [exact Hh|].
    intros Hin. apply in_map_iff in Hin as (e & Hurl & Hin).
    apply (find_at_None _ _ E) in Hin. apply String.eqb_neq in Hin.
    now apply Hin.
Qed.

Lemma merge_login_unique (login : Login.t) (acc : Acc) :
  unique_keys (targetData acc) ->
  unique_keys (targetData (merge_login config profilePath login acc)).
Proof.
  intros (Hb & Hh & Hl). unfold merge_login.
  destruct (find_at _ (logins (targetData acc))) as [[k e]|] eqn:E.
  - apply find_at_Some in E as [Hk He].
    apply andb_true_iff in He as [He1 He2].
    apply String.eqb_eq in He1, He2.
    destruct (shouldReplaceLogin e login _), (dryRun config);
      unfold unique_keys, set_bookmarks, set_history, set_logins; simpl;
      repeat split; auto.
    rewrite (map_set_nth login_key k _ e _ Hk); [exact Hl|].
    unfold login_key. simpl. now rewrite He1, He2.
  - destruct (dryRun config);
      unfold unique_keys, set_bookmarks, set_history, set_logins; simpl;
      repeat split; auto.
    rewrite map_app. simpl. apply NoDup_snoc; [exact Hl|].
    intros Hin. apply in_map_iff in Hin as (e & Hkey & Hin).
    apply (find_at_None _ _ E) in Hin.
    unfold login_key in Hkey. simpl in Hkey. injection Hkey as H1 H2.
    now rewrite H1, H2, !String.eqb_refl in Hin.
Qed.

(** With [dryRun] set, a step does not touch the target. *)
Lemma merge_bookmark_dry (bookmark : Bookmark.t) (acc : Acc) :
  dryRun config = true ->
  targetData (merge_bookmark config profilePath bookmark acc) = targetData acc.
Proof.
  intros Hd. unfold merge_bookmark. rewrite Hd.
  destruct (find_at _ _) as [[k e]|]; [|reflexivity].
  now destruct (shouldReplaceBookmark e bookmark _).
Qed.

Lemma merge_history_entry_dry (historyEntry : HistoryEntry.t) (acc : Acc) :
  dryRun config = true ->
  targetData (merge_history_entry config profilePath historyEntry acc)
  = targetData acc.
Proof.
  intros Hd. unfold merge_history_entry. rewrite Hd.
  now destruct (find_at _ _) as [[k e]|].
Qed.

Lemma merge_login_dry (login : Login.t) (acc : Acc) :
  dryRun config = true ->
  targetData (merge_login config profilePath login acc) = targetData acc.
Proof.
  intros Hd. unfold merge_login. rewrite Hd.
  destruct (find_at _ _) as [[k e]|]; [|reflexivity].
  now destruct (shouldReplaceLogin e login _).
Qed.

End MergeSteps.

Section MergeLoops.

Import Merge.

Context {A : Type}.
Variable arr : RealExtractionResult -> list A.
Variable body : string -> A -> Acc -> Acc.
Variable targetProfilePath : string.

(** *** One data type, all profiles *)

Lemma merge_from_invariant (P : Acc -> Prop) :
  (forall path a acc, P acc -> P (body path a acc)) ->
  forall entry acc acc',
    P acc -> merge_from arr body targetProfilePath entry acc = Some acc' ->
    P acc'.
Proof.
  intros Hb [path data0] acc acc' Hacc. unfold merge_from.
  destruct (_ || _)%bool; [now intros [= <-]|].
  apply for_of_invariant; auto.
Qed.

Lemma merge_all_invariant (P : Acc -> Prop) :
  (forall path a acc, P acc -> P (body path a acc)) ->
  forall sourceData acc acc',
    P acc -> merge_all arr body targetProfilePath sourceData acc = Some acc' ->
    P acc'.
Proof.
  intros Hb sourceData.
  induction sourceData as [|entry others IH]; intros acc acc' Hacc; simpl.
  - now intros [= <-].
  - destruct (merge_from arr body targetProfilePath entry acc) as [acc1|] eqn:E;
      [|discriminate].
    apply IH. eapply merge_from_invariant; eauto.
Qed.

Lemma merge_type_invariant (P : RealExtractionResult -> Prop) :
  (forall path a acc,
     P (targetData acc) -> P (targetData (body path a acc))) ->
  forall sourceData target target' counts,
    P target ->
    merge_type arr body targetProfilePath sourceData target
    = Some (target', counts) ->
    P target'.
Proof.
  intros Hb sourceData target target' counts Ht. unfold merge_type.
  destruct (merge_all _ _ _ _ _) as [acc|] eqn:E; [|discriminate].
  intros [= <- _].
  exact (merge_all_invariant (fun acc => P (targetData acc)) Hb sourceData
           (mkAcc target 0 0) acc Ht E).
Qed.

(** Feeding the target's own records to the body must not change the
    length of the target's array: this is what makes the iteration over
    the live target end. *)
Hypothesis body_keeps_length :
  forall path a acc i,
    nth_error (arr (targetData acc)) i = Some a ->
    List.length (arr (targetData (body path a acc)))
    = List.length (arr (targetData acc)).

Lemma merge_from_total (entry : string * RealExtractionResult) (acc : Acc) :
  exists acc', merge_from arr body targetProfilePath entry acc = Some acc'.
Proof.
  destruct entry as [path data0]. unfold merge_from.
  destruct (_ || _)%bool; [eauto|].
  destruct (String.eqb path targetProfilePath).
  - apply (for_of_total _ _ (List.length (arr (targetData acc)))); auto.
    intros a s i Hn Hi. now rewrite (body_keeps_length path a s i Hi).
  - apply (for_of_total _ _ (List.length (arr data0))); auto.
Qed.

Lemma merge_all_total (sourceData : SourceData) (acc : Acc) :
  exists acc', merge_all arr body targetProfilePath sourceData acc = Some acc'.
Proof.
  revert acc. induction sourceData as [|entry others IH]; intros acc; simpl;
    [eauto|].
  destruct (merge_from_total entry acc) as [acc1 ->]. apply IH.
Qed.

Lemma merge_type_total (sourceData : SourceData)
  (target : RealExtractionResult) :
  exists target' counts,
    merge_type arr body targetProfilePath sourceData target
    = Some (target', counts).
Proof.
  unfold merge_type.
  destruct (merge_all_total sourceData (mkAcc target 0 0)) as [acc ->]. eauto.
Qed.

End MergeLoops.

Section MergeRuns.

Import Merge.

Variable sourceData : SourceData.
Variable targetProfilePath : string.
Variable config : MergeConfig.

(** *** The dispatch *)

Lemma run_merge_total
  (merge : RealExtractionResult -> option (RealExtractionResult * Counts))
  (slot : Details -> Counts -> Details) (run : Run) :
  (forall target, exists target' counts, merge target = Some (target', counts)) ->
  exists run', run_merge merge slot run = Some run'.
Proof.
  intros H. unfold run_merge.
  destruct (H (run_target run)) as (target' & counts & ->). eauto.
Qed.

Lemma mergeSpecificDataType_total (dataType : MergeDataType) (run : Run) :
  exists run',
    mergeSpecificDataType dataType sourceData targetProfilePath config run
    = Some run'.
Proof.
  destruct dataType; simpl; unfold run_placeholder; eauto;
    apply run_merge_total; intros target;
    unfold mergeBookmarks, mergeHistory, mergeLogins;
    apply merge_type_total; intros path a acc i.
  - apply merge_bookmark_length.
  - apply merge_history_entry_length.
  - apply merge_login_length.
Qed.

Lemma run_types_total (dataTypes : list MergeDataType) (run : Run) :
  exists run',
    run_types dataTypes sourceData targetProfilePath config run = Some run'.
Proof.
  revert run. induction dataTypes as [|t ts IH]; intros run; simpl; [eauto|].
  destruct (mergeSpecificDataType_total t run) as [run1 ->]. apply IH.
Qed.

Lemma selected_types_total (dataTypes : list MergeDataType) (run : Run) :
  exists run',
    selected_types dataTypes sourceData targetProfilePath config run
    = Some run'.
Proof.
  revert run. induction dataTypes as [|t ts IH]; intros run; simpl; [eauto|].
  destruct t; try apply run_types_total;
    match goal with
    | |- context [mergeSpecificDataType ?t _ _ _ _] =>
        destruct (mergeSpecificDataType_total t run) as [run1 ->]; apply IH
    end.
Qed.

(** A property of the target that every step keeps is kept by the whole
    run; no step touches [errors]. *)
Variable P : RealExtractionResult -> Prop.
Hypothesis bookmark_step :
  forall path b acc,
    P (targetData acc) -> P (targetData (merge_bookmark config path b acc)).
Hypothesis history_step :
  forall path h acc,
    P (targetData acc) -> P (targetData (merge_history_entry config path h acc)).
Hypothesis login_step :
  forall path l acc,
    P (targetData acc) -> P (targetData (merge_login config path l acc)).

Lemma mergeSpecificDataType_invariant (dataType : MergeDataType)
  (run run' : Run) :
  P (run_target run) ->
  mergeSpecificDataType dataType sourceData targetProfilePath config run
  = Some run' ->
  P (run_target run') /\ errors (run_result run') = errors (run_result run).
Proof.
  intros Hp.
  destruct dataType; simpl; unfold run_placeholder, run_merge;
    try (intros [= <-]; now split).
  - destruct (mergeBookmarks _ _ _ _) as [[t c]|] eqn:E; [|discriminate].
    intros [= <-]. split; [|reflexivity]. simpl.
    exact (merge_type_invariant bookmarks (merge_bookmark config)
             targetProfilePath P bookmark_step sourceData _ _ _ Hp E).
  - destruct (mergeHistory _ _ _ _) as [[t c]|] eqn:E; [|discriminate].
    intros [= <-]. split; [|reflexivity]. simpl.
    exact (merge_type_invariant history (merge_history_entry config)
             targetProfilePath P history_step sourceData _ _ _ Hp E).
  - destruct (mergeLogins _ _ _ _) as [[t c]|] eqn:E; [|discriminate].
    intros [= <-]. split; [|reflexivity]. simpl.
    exact (merge_type_invariant logins (merge_login config)
             targetProfilePath P login_step sourceData _ _ _ Hp E).
Qed.

Lemma run_types_invariant (dataTypes : list MergeDataType) (run run' : Run) :
  P (run_target run) ->
  run_types dataTypes sourceData targetProfilePath config run = Some run' ->
  P (run_target run') /\ errors (run_result run') = errors (run_result run).
Proof.
  revert run. induction dataTypes as [|t ts IH]; intros run Hp; simpl.
  - intros [= <-]. now split.
  - destruct (mergeSpecificDataType t _ _ _ run) as [run1|] eqn:E;
      [|discriminate].
    destruct (mergeSpecificDataType_invariant _ _ _ Hp E) as [Hp1 He1].
    intros H. destruct (IH _ Hp1 H) as [Hp2 He2]. split; congruence.
Qed.

Lemma selected_types_invariant (dataTypes : list MergeDataType)
  (run run' : Run) :
  P (run_target run) ->
  selected_types dataTypes sourceData targetProfilePath config run = Some run' ->
  P (run_target run') /\ errors (run_result run') = errors (run_result run).
Proof.
  revert run. induction dataTypes as [|t ts IH]; intros run Hp; simpl.
  - intros [= <-]. now split.
  - destruct t; try (now apply run_types_invariant);
      match goal with
      | |- context [mergeSpecificDataType ?t _ _ _ _] =>
          destruct (mergeSpecificDataType t sourceData targetProfilePath
                      config run) as [run1|] eqn:E; [|discriminate];
          destruct (mergeSpecificDataType_invariant _ _ _ Hp E) as [Hp1 He1];
          intros H; destruct (IH _ Hp1 H) as [Hp2 He2]; split; congruence
      end.
Qed.

End MergeRuns.

Section MergeProfilesFacts.

Import Merge.

Lemma Map_get_put (sourceData : SourceData) (key : string)
  (old value : RealExtractionResult) :
  Map_get sourceData key = Some old ->
  Map_get (Map_put sourceData key value) key = Some value.
Proof.
  induction sourceData as [|[k v] others IH]; simpl; [discriminate|].
  destruct (String.eqb k key) eqn:E; simpl; rewrite E; auto.
Qed.

Lemma Map_put_same (sourceData : SourceData) (key : string)
  (value : RealExtractionResult) :
  Map_get sourceData key = Some value -> Map_put sourceData key value = sourceData.
Proof.
  induction sourceData as [|[k v] others IH]; simpl; [reflexivity|].
  destruct (String.eqb k key).
  - now intros [= ->].
  - intros H. now rewrite IH.
Qed.

Variable sourceData : SourceData.
Variable targetProfilePath : string.
Variable config : MergeConfig.

(** C8.  [mergeProfiles] always returns a result.  In it [success] is
    [errors.length == 0], and [mergedItems] and [conflictsResolved] are the
    sums of the per-type [merged] and [conflicts] counters.  When the
    target profile is absent from the source map the result has
    [success = false], one recorded error and all counters zero, and the
    store is as it was. *)
Theorem mergeProfiles_result :
  exists result store,
    mergeProfiles sourceData targetProfilePath config = Some (result, store)
    /\ success result = (List.length (errors result) =? 0)%nat
    /\ mergedItems result = total_merged (details result)
    /\ conflictsResolved result = total_conflicts (details result)
    /\ (Map_get sourceData targetProfilePath = None ->
        success result = false
        /\ errors result
           = ["Merge failed: Target profile data not found: "
                ++ targetProfilePath]
        /\ details result = zero_details
        /\ mergedItems result = 0
        /\ conflictsResolved result = 0
        /\ store = sourceData).
Proof.
  unfold mergeProfiles.
  destruct (Map_get sourceData targetProfilePath) as [target|].
  - destruct (selected_types_total sourceData targetProfilePath config
                (mergeTypes config) (mkRun target initial_result))
      as [run ->].
    eexists; eexists. split; [reflexivity|].
    unfold total_merged, total_conflicts. simpl.
    repeat split; try lia; congruence.
  - eexists; eexists. split; [reflexivity|]. simpl. repeat split; reflexivity.
Qed.

(** C1, as amended.  If no two records of the target share a key as the
    engine compares keys (the URL string for bookmarks and for history, the
    hostname-username pair for logins), then the merge completes and no two
    records of the resulting target share such a key. *)
Theorem mergeProfiles_keeps_unique_keys (target : RealExtractionResult) :
  Map_get sourceData targetProfilePath = Some target ->
  unique_keys target ->
  exists result store target',
    mergeProfiles sourceData targetProfilePath config = Some (result, store)
    /\ Map_get store targetProfilePath = Some target'
    /\ unique_keys target'.
Proof.
  intros Hget Huniq. unfold mergeProfiles. rewrite Hget.
  destruct (selected_types_total sourceData targetProfilePath config
              (mergeTypes config) (mkRun target initial_result))
    as [run E].
  rewrite E. eexists; eexists; exists (run_target run).
  split; [reflexivity|]. split; [now apply (Map_get_put _ _ target)|].
  exact (proj1 (selected_types_invariant sourceData targetProfilePath config
                  unique_keys (merge_bookmark_unique config)
                  (merge_history_entry_unique config)
                  (merge_login_unique config)
                  (mergeTypes config) (mkRun target initial_result) run
                  Huniq E)).
Qed.

(** With [dryRun] set the call returns and the store, the target in it
    included, is as it was. *)
Lemma mergeProfiles_dryRun_frame :
  dryRun config = true ->
  exists result,
    mergeProfiles sourceData targetProfilePath config
    = Some (result, sourceData).
Proof.
  intros Hd. unfold mergeProfiles.
  destruct (Map_get sourceData targetProfilePath) as [target|] eqn:Hget;
    [|eauto].
  destruct (selected_types_total sourceData targetProfilePath config
              (mergeTypes config) (mkRun target initial_result))
    as [run E].
  rewrite E.
  destruct (selected_types_invariant sourceData targetProfilePath config
              (fun t => t = target)
              (fun path b acc H =>
                 eq_trans (merge_bookmark_dry config path b acc Hd) H)
              (fun path h acc H =>
                 eq_trans (merge_history_entry_dry config path h acc Hd) H)
              (fun path l acc H =>
                 eq_trans (merge_login_dry config path l acc Hd) H)
              (mergeTypes config) (mkRun target initial_result) run
              eq_refl E) as [-> _].
  rewrite (Map_put_same _ _ _ Hget). eauto.
Qed.

End MergeProfilesFacts.

(** C4, as amended.  When the incoming history entry has the URL string of
    some entry of the target, a merge that is no dry run finds the first
    such entry and puts in its place a record with the sum of the two
    visit counts and the later of the two last-visit times, and with every
    other field of the existing entry; nothing else in the target changes,
    whatever the conflict-resolution strategy. *)
Theorem merge_history_entry_combines (config : Merge.MergeConfig)
  (profilePath : string) (historyEntry sameUrl : Merge.HistoryEntry.t)
  (acc : Merge.Acc) :
  Merge.dryRun config = false ->
  In sameUrl (Merge.history (Merge.targetData acc)) ->
  Merge.HistoryEntry.url sameUrl = Merge.HistoryEntry.url historyEntry ->
  let target' :=
    Merge.targetData
      (Merge.merge_history_entry config profilePath historyEntry acc) in
  exists index existingEntry combined,
    Merge.find_at
      (fun h => String.eqb (Merge.HistoryEntry.url h)
                  (Merge.HistoryEntry.url historyEntry))
      (Merge.history (Merge.targetData acc))
    = Some (index, existingEntry)
    /\ nth_error (Merge.history (Merge.targetData acc)) index
       = Some existingEntry
    /\ Merge.HistoryEntry.url existingEntry = Merge.HistoryEntry.url historyEntry
    /\ nth_error (Merge.history target') index = Some combined
    /\ Merge.HistoryEntry.visitCount combined
       = Merge.HistoryEntry.visitCount existingEntry
         + Merge.HistoryEntry.visitCount historyEntry
    /\ (forall t1 t2,
          Merge.HistoryEntry.lastVisitTime existingEntry = Some t1 ->
          Merge.HistoryEntry.lastVisitTime historyEntry = Some t2 ->
          Merge.HistoryEntry.lastVisitTime combined = Some (Z.max t1 t2))
    /\ Merge.HistoryEntry.id combined = Merge.HistoryEntry.id existingEntry
    /\ Merge.HistoryEntry.url combined = Merge.HistoryEntry.url existingEntry
    /\ Merge.HistoryEntry.title combined
       = Merge.HistoryEntry.title existingEntry
    /\ Merge.HistoryEntry.typedCount combined
       = Merge.HistoryEntry.typedCount existingEntry
    /\ Merge.HistoryEntry.source combined
       = Merge.HistoryEntry.source existingEntry
    /\ Merge.HistoryEntry.browserType combined
       = Merge.HistoryEntry.browserType existingEntry
    /\ Merge.HistoryEntry.mergedFrom combined
       = Merge.HistoryEntry.mergedFrom existingEntry
    /\ List.length (Merge.history target')
       = List.length (Merge.history (Merge.targetData acc))
    /\ (forall j, j <> index ->
          nth_error (Merge.history target') j
          = nth_error (Merge.history (Merge.targetData acc)) j)
    /\ Merge.bookmarks target' = Merge.bookmarks (Merge.targetData acc)
    /\ Merge.logins target' = Merge.logins (Merge.targetData acc).
Proof.
  intros Hd Hin Hurl target'. subst target'.
  destruct (find_at_In
              (fun h => String.eqb (Merge.HistoryEntry.url h)
                          (Merge.HistoryEntry.url historyEntry))
              _ sameUrl Hin) as (index & existingEntry & Hfind);
    [now apply String.eqb_eq|].
  exists index, existingEntry,
    (Merge.combine_history existingEntry historyEntry).
  split; [exact Hfind|].
  unfold Merge.merge_history_entry. rewrite Hfind, Hd.
  apply find_at_Some in Hfind as [Hnth Heq]. apply String.eqb_eq in Heq.
  simpl.
  split; [exact Hnth|]. split; [exact Heq|].
  split; [now apply (set_nth_same _ _ existingEntry)|].
  split; [reflexivity|].
  split.
  { intros t1 t2 H1 H2. simpl. rewrite H1, H2. simpl.
    destruct (Z.gtb_spec t2 t1); f_equal; lia. }
  repeat (split; [reflexivity|]).
  split; [apply set_nth_length|].
  split; [|split; reflexivity].
  intros j Hj. now apply set_nth_other.
Qed.

(** C4, witness: Scenario B, 3 visits and 2 later visits give 5 visits and
    the later time. *)
Lemma merge_history_entry_scenario_B :
  map (fun h => (Merge.HistoryEntry.visitCount h,
                 Merge.HistoryEntry.lastVisitTime h))
    (Merge.history
       (Merge.targetData
          (Merge.merge_history_entry Examples.real_run "/profiles/work"
             Examples.scenario_B_incoming
             (Merge.mkAcc Examples.scenario_B_target 0 0))))
  = [(5, Some 1700000000000)].
Proof.
  destruct (merge_history_entry_combines Examples.real_run "/profiles/work"
              Examples.scenario_B_incoming
              (Examples.visit "https://a.com" 3 1600000000000)
              (Merge.mkAcc Examples.scenario_B_target 0 0)
              eq_refl (or_introl eq_refl) eq_refl)
    as (index & existingEntry & combined & Hfind & _ & _ & Hnth & Hcount
        & Hlast & _ & _ & _ & _ & _ & _ & _ & Hlen & _).
  injection Hfind as <- <-.
  destruct (Merge.history _) as [|h [|h' r]]; try discriminate Hlen.
  injection Hnth as ->. simpl.
  now rewrite Hcount, (Hlast _ _ eq_refl eq_refl).
Defined.

(** C4, counterexample.  The incoming entry "https://a.com" and the
    existing entry "https://a.com/" have the same normalised URL, but
    [find] compares the strings: the incoming entry is appended and the
    existing entry keeps its 3 visits.  And in a dry run an incoming entry
    with the very URL string of the existing one leaves it as it is. *)
Lemma merge_history_entry_same_normalized_url_appends :
  Dedup.normalizeUrl SimpleURL.parse "https://a.com/"
  = Dedup.normalizeUrl SimpleURL.parse "https://a.com"
  /\ map (fun h => (Merge.HistoryEntry.url h, Merge.HistoryEntry.visitCount h))
       (Merge.history
          (Merge.targetData
             (Merge.merge_history_entry Examples.real_run "/profiles/work"
                Examples.scenario_B_incoming
                (Merge.mkAcc Examples.slash_target 0 0))))
     = [("https://a.com/", 3); ("https://a.com", 2)]
  /\ map (fun h => (Merge.HistoryEntry.url h, Merge.HistoryEntry.visitCount h))
       (Merge.history
          (Merge.targetData
             (Merge.merge_history_entry Examples.dry_run "/profiles/work"
                Examples.scenario_B_incoming
                (Merge.mkAcc Examples.scenario_B_target 0 0))))
     = [("https://a.com", 3)].
Proof. repeat split; reflexivity. Qed.

(** Scenario B through [mergeProfiles]: the comparison of [profilePath]
    with [targetData.toString()] does not skip the target, so the target's
    entry is first combined with itself (3 + 3) and then with the incoming
    one (+ 2). *)
Lemma mergeProfiles_scenario_B_feeds_target_to_itself :
  option_map
    (fun r =>
       option_map
         (fun d => map Merge.HistoryEntry.visitCount (Merge.history d))
         (Merge.Map_get (snd r) "/profiles/target"))
    (Merge.mergeProfiles Examples.scenario_B_store "/profiles/target"
       (Merge.mkConfig [Merge.HISTORY] Merge.KEEP_NEWEST false))
  = Some (Some [8]).
Proof. reflexivity. Qed.

(** C1, counterexample.  The target holds "https://example.com/" and a
    source holds "https://example.com": the engine compares the strings,
    finds no match and appends, so that after the merge two bookmarks of
    the target have the normalised URL "https://example.com". *)
Lemma mergeProfiles_duplicates_normalized_url :
  Merge.normalized_bookmark_keys SimpleURL.parse
    (Merge.mkData [Examples.bookmark "https://example.com/" 1700000000000] [] [])
  = ["https://example.com"]
  /\ option_map
       (fun r =>
          option_map (Merge.normalized_bookmark_keys SimpleURL.parse)
            (Merge.Map_get (snd r) "/profiles/target"))
       (Merge.mergeProfiles Examples.slash_store "/profiles/target"
          Examples.real_run)
     = Some (Some ["https://example.com"; "https://example.com"])
  /\ ~ NoDup ["https://example.com"; "https://example.com"].
Proof.
  split; [reflexivity|]. split; [reflexivity|].
  intros H. inversion H as [|? ? Hin _]. apply Hin. now left.
Qed.

(** C1, witness: the same store; the URL strings of the resulting target
    are pairwise distinct. *)
Lemma mergeProfiles_keeps_unique_keys_witness :
  exists result store target',
    Merge.mergeProfiles Examples.slash_store "/profiles/target"
      Examples.real_run
    = Some (result, store)
    /\ Merge.Map_get store "/profiles/target" = Some target'
    /\ Merge.unique_keys target'.
Proof.
  apply (mergeProfiles_keeps_unique_keys Examples.slash_store
           "/profiles/target" Examples.real_run
           (Merge.mkData
              [Examples.bookmark "https://example.com/" 1700000000000] [] [])).
  - reflexivity.
  - repeat split; simpl; repeat constructor. intros [].
Defined.

(** C3, the code at the failing input.  Two sources hold the same bookmark
    and the target does not.  The real run appends it from the first
    source and meets a conflict at the second: 1 merged, 1 conflict.  The
    dry run never sees the appended record: 2 merged, 0 conflicts. *)
Theorem dry_run_counts_differ :
  option_map (fun r => Merge.d_bookmarks (Merge.details (fst r)))
    (Merge.mergeProfiles Examples.twice_store "/profiles/target"
       Examples.real_run)
  = Some (Merge.mkCounts 1 1)
  /\ option_map (fun r => Merge.d_bookmarks (Merge.details (fst r)))
       (Merge.mergeProfiles Examples.twice_store "/profiles/target"
          Examples.dry_run)
     = Some (Merge.mkCounts 2 0)
  /\ option_map snd
       (Merge.mergeProfiles Examples.twice_store "/profiles/target"
          Examples.dry_run)
     = Some Examples.twice_store.
Proof. repeat split; reflexivity. Qed.

(* ===================================================================== *)
(** * Further properties *)
(* ===================================================================== *)

(** ** Levenshtein distance and string similarity *)

Section EditDistanceFacts.

Import EditDistance.

Lemma string_app_nil_r (s : string) : (s ++ "")%string = s.
Proof. induction s as [|c r IH]; simpl; [reflexivity | now rewrite IH]. Qed.

Lemma rev_onto_length (s acc : string) :
  String.length (rev_onto s acc) = (String.length s + String.length acc)%nat.
Proof.
  revert acc. induction s as [|c r IH]; intros acc; simpl; [reflexivity|].
  rewrite IH. simpl. lia.
Qed.

Lemma rev_onto_rev_onto (s acc t : string) :
  rev_onto (rev_onto s acc) t = rev_onto acc (s ++ t).
Proof.
  revert acc t. induction s as [|c r IH]; intros acc t; simpl; [reflexivity|].
  now rewrite IH.
Qed.

Lemma rev_onto_injective (a b : string) :
  rev_onto a "" = rev_onto b "" -> a = b.
Proof.
  intros H. apply (f_equal (fun s => rev_onto s "")) in H.
  now rewrite !rev_onto_rev_onto, !string_app_nil_r in H.
Qed.

(** *** The recurrence *)

Lemma dist_nil_r (p : string) : dist p "" = String.length p.
Proof. destruct p; reflexivity. Qed.

Lemma dist_cons (x y : ascii) (p q : string) :
  dist (String x p) (String y q)
  = Nat.min (dist p (String y q) + 1)
      (Nat.min (dist (String x p) q + 1)
         (dist p q + (if Ascii.eqb x y then 0 else 1))).
Proof. reflexivity. Qed.

Lemma dist_sym (p q : string) : dist p q = dist q p.
Proof.
  revert q. induction p as [|x p IHp]; intros q.
  - now rewrite dist_nil_r.
  - induction q as [|y q IHq]; [reflexivity|].
    rewrite !dist_cons, IHq, (IHp (String y q)), (IHp q), (Ascii.eqb_sym x y).
    lia.
Qed.

Lemma dist_refl (p : string) : dist p p = 0%nat.
Proof.
  induction p as [|x p IH]; [reflexivity|].
  rewrite dist_cons, IH, Ascii.eqb_refl. lia.
Qed.

Lemma dist_upper (p q : string) :
  (dist p q <= Nat.max (String.length p) (String.length q))%nat.
Proof.
  revert q. induction p as [|x p IHp]; intros q; [simpl; lia|].
  induction q as [|y q IHq]; [simpl; lia|].
  rewrite dist_cons. specialize (IHp q).
  simpl String.length. destruct (Ascii.eqb x y); lia.
Qed.

Lemma dist_lower (p q : string) :
  (String.length p - String.length q <= dist p q)%nat
  /\ (String.length q - String.length p <= dist p q)%nat.
Proof.
  revert q. induction p as [|x p IHp]; intros q; [simpl; lia|].
  induction q as [|y q IHq]; [simpl; lia|].
  rewrite dist_cons.
  pose proof (IHp q). pose proof (IHp (String y q)).
  simpl String.length in *. destruct (Ascii.eqb x y); lia.
Qed.

Lemma dist_zero (p q : string) : dist p q = 0%nat -> p = q.
Proof.
  revert q. induction p as [|x p IHp]; intros q.
  - simpl. destruct q; [reflexivity | discriminate].
  - induction q as [|y q IHq]; [discriminate|].
    rewrite dist_cons. intros H.
    destruct (Ascii.eqb_spec x y) as [-> | Hxy]; [|lia].
    f_equal. apply IHp. lia.
Qed.

(** *** The matrix computes the recurrence *)

Lemma row_from_nil (p s1 : string) :
  row_from p s1 "" = seq (String.length p) (S (String.length s1)).
Proof.
  revert p. induction s1 as [|c s1 IH]; intros p; simpl.
  - now rewrite dist_nil_r.
  - rewrite dist_nil_r. f_equal. now rewrite IH.
Qed.

Lemma row_from_head (p s1 q : string) :
  row_from p s1 q = dist p q :: tl (row_from p s1 q).
Proof. destruct s1; reflexivity. Qed.

Lemma fill_row_spec (c2 : ascii) (s1 p q : string) :
  Dedup.fill_row c2 s1 (dist p q) (dist p (String c2 q))
    (tl (row_from p s1 q))
  = tl (row_from p s1 (String c2 q)).
Proof.
  revert p. induction s1 as [|c1 s1 IH]; intros p; [reflexivity|].
  cbn [row_from tl].
  rewrite (row_from_head (String c1 p) s1 q),
          (row_from_head (String c1 p) s1 (String c2 q)).
  cbn [Dedup.fill_row]. rewrite <- dist_cons. f_equal. apply IH.
Qed.

Lemma fill_rows_spec (str1 s2 q : string) :
  Dedup.fill_rows str1 s2 (S (String.length q)) (row_from "" str1 q)
  = row_from "" str1 (rev_onto s2 q).
Proof.
  revert q. induction s2 as [|c2 s2 IH]; intros q; [reflexivity|].
  cbn [Dedup.fill_rows rev_onto]. rewrite <- (IH (String c2 q)).
  f_equal. rewrite (row_from_head "" str1 q). cbn [hd tl].
  rewrite (row_from_head "" str1 (String c2 q)). f_equal.
  apply (fill_row_spec c2 str1 "" q).
Qed.

Lemma row_from_last (p s1 q : string) :
  last (row_from p s1 q) 0%nat = dist (rev_onto s1 p) q.
Proof.
  revert p. induction s1 as [|c s1 IH]; intros p; [reflexivity|].
  cbn [row_from rev_onto]. rewrite <- IH.
  now rewrite (row_from_head (String c p) s1 q).
Qed.

(** The value in the last cell of the matrix is the recurrence on the two
    whole strings. *)
Lemma levenshteinDistance_dist (str1 str2 : string) :
  Dedup.levenshteinDistance str1 str2
  = dist (rev_onto str1 "") (rev_onto str2 "").
Proof.
  unfold Dedup.levenshteinDistance.
  pose proof (row_from_nil "" str1) as H0. cbn [String.length] in H0.
  rewrite <- H0.
  pose proof (fill_rows_spec str1 str2 "") as H. cbn [String.length] in H.
  now rewrite H, row_from_last.
Qed.

End EditDistanceFacts.

Lemma toLowerCase_length (s : string) :
  String.length (JS.toLowerCase s) = String.length s.
Proof. induction s as [|c r IH]; simpl; [reflexivity | now rewrite IH]. Qed.

Lemma ratio_range (z l : Z) :
  0 <= z <= l -> 0 < l ->
  (0 <= inject_Z z / inject_Z l)%Q /\ (inject_Z z / inject_Z l <= 1)%Q.
Proof.
  intros [H0 H1] Hl.
  assert (Hq : (0 < inject_Z l)%Q) by (now rewrite (Zlt_Qlt 0 l) in Hl).
  split.
  - apply Qle_shift_div_l; [exact Hq|]. rewrite Qmult_0_l.
    now rewrite (Zle_Qle 0 z) in H0.
  - apply Qle_shift_div_r; [exact Hq|]. rewrite Qmult_1_l.
    now rewrite (Zle_Qle z l) in H1.
Qed.

Lemma ratio_one (z l : Z) :
  0 < l -> (inject_Z z / inject_Z l == 1)%Q <-> z = l.
Proof.
  intros Hl.
  assert (Hq : ~ (inject_Z l == 0)%Q).
  { intros H. apply (inject_Z_injective l 0) in H. lia. }
  split.
  - intros H. apply inject_Z_injective.
    rewrite <- (Qmult_div_r (inject_Z z) (inject_Z l) Hq), H. ring.
  - intros ->. now apply Qdiv_mult_l with (x := 1%Q) in Hq;
      rewrite Qmult_1_l in Hq.
Qed.

Lemma levenshteinDistance_sym (str1 str2 : string) :
  Dedup.levenshteinDistance str1 str2 = Dedup.levenshteinDistance str2 str1.
Proof. rewrite !levenshteinDistance_dist. apply dist_sym. Qed.

Lemma levenshteinDistance_zero (str1 str2 : string) :
  Dedup.levenshteinDistance str1 str2 = 0%nat <-> str1 = str2.
Proof.
  rewrite levenshteinDistance_dist. split.
  - intros H. now apply rev_onto_injective, dist_zero.
  - intros ->. apply dist_refl.
Qed.

Lemma levenshteinDistance_upper (str1 str2 : string) :
  (Dedup.levenshteinDistance str1 str2
   <= Nat.max (String.length str1) (String.length str2))%nat.
Proof.
  rewrite levenshteinDistance_dist.
  pose proof (dist_upper (EditDistance.rev_onto str1 "")
                (EditDistance.rev_onto str2 "")) as H.
  rewrite !rev_onto_length in H. simpl in H.
  now rewrite !Nat.add_0_r in H.
Qed.

(** X1.  [levenshteinDistance] is symmetric, and it is zero exactly on
    equal strings. *)
Theorem levenshteinDistance_symmetric_and_zero (str1 str2 : string) :
  Dedup.levenshteinDistance str1 str2 = Dedup.levenshteinDistance str2 str1
  /\ (Dedup.levenshteinDistance str1 str2 = 0%nat <-> str1 = str2).
Proof.
  rewrite !levenshteinDistance_dist. split; [apply dist_sym|].
  split.
  - intros H. now apply rev_onto_injective, dist_zero.
  - intros ->. apply dist_refl.
Qed.

(** X2.  [levenshteinDistance] lies between the difference of the two
    lengths and the greater of the two lengths. *)
Theorem levenshteinDistance_bounds (str1 str2 : string) :
  (String.length str1 - String.length str2
   <= Dedup.levenshteinDistance str1 str2)%nat
  /\ (String.length str2 - String.length str1
      <= Dedup.levenshteinDistance str1 str2)%nat
  /\ (Dedup.levenshteinDistance str1 str2
      <= Nat.max (String.length str1) (String.length str2))%nat.
Proof.
  rewrite levenshteinDistance_dist.
  pose proof (dist_lower (EditDistance.rev_onto str1 "")
                (EditDistance.rev_onto str2 "")) as [H1 H2].
  pose proof (dist_upper (EditDistance.rev_onto str1 "")
                (EditDistance.rev_onto str2 "")) as H3.
  rewrite !rev_onto_length in *. simpl in *.
  rewrite !Nat.add_0_r in *. auto.
Qed.

(** The value of [calculateStringSimilarity] on two distinct strings of
    which [longer] is not the shorter one. *)
Lemma calculateStringSimilarity_distinct (str1 str2 : string) :
  str1 <> str2 ->
  let longer :=
    if (String.length str2 <? String.length str1)%nat then str1 else str2 in
  let shorter :=
    if (String.length str2 <? String.length str1)%nat then str2 else str1 in
  (0 < String.length longer)%nat
  /\ Dedup.calculateStringSimilarity str1 str2
     = (inject_Z (Z.of_nat (String.length longer)
                  - Z.of_nat (Dedup.levenshteinDistance
                                (JS.toLowerCase longer)
                                (JS.toLowerCase shorter)))
        / inject_Z (Z.of_nat (String.length longer)))%Q.
Proof.
  intros Hne longer shorter. unfold Dedup.calculateStringSimilarity.
  apply String.eqb_neq in Hne. rewrite Hne. fold longer shorter.
  assert (Hpos : (0 < String.length longer)%nat).
  { subst longer. apply String.eqb_neq in Hne.
    destruct (Nat.ltb_spec (String.length str2) (String.length str1)); [lia|].
    destruct str2; [|simpl; lia]. destruct str1; [congruence | simpl in *; lia]. }
  split; [exact Hpos|].
  destruct (Nat.eqb_spec (String.length longer) 0); [lia | reflexivity].
Qed.

Lemma calculateStringSimilarity_sym (str1 str2 : string) :
  Dedup.calculateStringSimilarity str1 str2
  = Dedup.calculateStringSimilarity str2 str1.
Proof.
  destruct (String.eqb_spec str1 str2) as [-> | Hne]; [reflexivity|].
  destruct (calculateStringSimilarity_distinct str1 str2 Hne) as [Hpos ->].
  destruct (calculateStringSimilarity_distinct str2 str1
              (not_eq_sym Hne)) as [_ ->].
  destruct (Nat.ltb_spec (String.length str2) (String.length str1)),
           (Nat.ltb_spec (String.length str1) (String.length str2));
    try lia; try reflexivity.
  replace (String.length str2) with (String.length str1) by lia.
  now rewrite (levenshteinDistance_sym
                 (JS.toLowerCase str2) (JS.toLowerCase str1)).
Qed.

Lemma calculateStringSimilarity_range (str1 str2 : string) :
  (0 <= Dedup.calculateStringSimilarity str1 str2)%Q
  /\ (Dedup.calculateStringSimilarity str1 str2 <= 1)%Q.
Proof.
  destruct (String.eqb_spec str1 str2) as [-> | Hne].
  - unfold Dedup.calculateStringSimilarity. rewrite String.eqb_refl.
    split; unfold Qle; simpl; lia.
  - destruct (calculateStringSimilarity_distinct str1 str2 Hne) as [Hpos ->].
    apply ratio_range; [|lia].
    pose proof (levenshteinDistance_upper
                  (JS.toLowerCase
                     (if (String.length str2 <? String.length str1)%nat
                      then str1 else str2))
                  (JS.toLowerCase
                     (if (String.length str2 <? String.length str1)%nat
                      then str2 else str1))) as Hup.
    rewrite !toLowerCase_length in Hup.
    destruct (Nat.ltb_spec (String.length str2) (String.length str1)); lia.
Qed.


(** X4.  [calculateStringSimilarity] is 1 exactly when the two strings are
    equal after lower-casing. *)
Theorem calculateStringSimilarity_one_iff_same_lower_case
  (str1 str2 : string) :
  (Dedup.calculateStringSimilarity str1 str2 == 1)%Q
  <-> JS.toLowerCase str1 = JS.toLowerCase str2.
Proof.
  destruct (String.eqb_spec str1 str2) as [-> | Hne].
  - unfold Dedup.calculateStringSimilarity. rewrite String.eqb_refl.
    split; reflexivity.
  - destruct (calculateStringSimilarity_distinct str1 str2 Hne) as [Hpos ->].
    rewrite ratio_one by lia.
    pose proof (levenshteinDistance_zero
                  (JS.toLowerCase
                     (if (String.length str2 <? String.length str1)%nat
                      then str1 else str2))
                  (JS.toLowerCase
                     (if (String.length str2 <? String.length str1)%nat
                      then str2 else str1))) as Hz.
    split.
    + intros H. assert (Hd : Dedup.levenshteinDistance
                  (JS.toLowerCase
                     (if (String.length str2 <? String.length str1)%nat
                      then str1 else str2))
                  (JS.toLowerCase
                     (if (String.length str2 <? String.length str1)%nat
                      then str2 else str1)) = 0%nat) by lia.
      apply Hz in Hd.
      now destruct (String.length str2 <? String.length str1)%nat.
    + intros H.
      assert (Hd : JS.toLowerCase
                     (if (String.length str2 <? String.length str1)%nat
                      then str1 else str2)
                   = JS.toLowerCase
                       (if (String.length str2 <? String.length str1)%nat
                        then str2 else str1))
        by (now destruct (String.length str2 <? String.length str1)%nat).
      apply Hz in Hd. lia.
Qed.

(** ** URL similarity and the choice of the record to keep *)

Section SimilarityFacts.

Import Dedup.

Variable newURL : URLParser.

(** X5.  [calculateUrlSimilarity] does not depend on the order of its
    arguments and lies between 0 and 1; so the test that lets two
    bookmarks join one group gives the same answer in both orders. *)
Theorem calculateUrlSimilarity_symmetric_in_unit_interval
  (url1 url2 : string) :
  calculateUrlSimilarity newURL url1 url2
  = calculateUrlSimilarity newURL url2 url1
  /\ (0 <= calculateUrlSimilarity newURL url1 url2)%Q
  /\ (calculateUrlSimilarity newURL url1 url2 <= 1)%Q
  /\ forall (config : DeduplicationConfig) (b1 b2 : UB.t),
       joins config (calculateBookmarkSimilarity newURL b1 b2)
       = joins config (calculateBookmarkSimilarity newURL b2 b1).
Proof.
  assert (Hsym : forall u1 u2,
             calculateUrlSimilarity newURL u1 u2
             = calculateUrlSimilarity newURL u2 u1).
  { intros u1 u2. unfold calculateUrlSimilarity.
    rewrite (String.eqb_sym u2 u1),
      (String.eqb_sym (normalizeUrl newURL u2) (normalizeUrl newURL u1)),
      (orb_comm (JS.includes (normalizeUrl newURL u2) (normalizeUrl newURL u1))),
      (calculateStringSimilarity_sym
         (normalizeUrl newURL u2) (normalizeUrl newURL u1)).
    reflexivity. }
  split; [apply Hsym|].
  split; [|split].
  - unfold calculateUrlSimilarity.
    destruct (String.eqb url1 url2); [unfold Qle; simpl; lia|].
    destruct (String.eqb _ _); [unfold Qle; simpl; lia|].
    destruct (_ || _)%bool; [unfold Qle; simpl; lia|].
    apply calculateStringSimilarity_range.
  - unfold calculateUrlSimilarity.
    destruct (String.eqb url1 url2); [unfold Qle; simpl; lia|].
    destruct (String.eqb _ _); [unfold Qle; simpl; lia|].
    destruct (_ || _)%bool; [unfold Qle; simpl; lia|].
    apply calculateStringSimilarity_range.
  - intros config b1 b2. unfold calculateBookmarkSimilarity. simpl.
    unfold joins. simpl.
    now rewrite (Hsym (UB.url b1) (UB.url b2)),
      (calculateStringSimilarity_sym (UB.title b1) (UB.title b2)).
Qed.

End SimilarityFacts.

Section PickFacts.

Context {A : Type}.
Variable key : A -> Z.
Variable better : A -> A -> bool.
(** The records on which [better] is the comparison of keys. *)
Variable comparable : A -> Prop.
Hypothesis better_spec :
  forall current best,
    comparable current -> comparable best ->
    better current best = (key current >? key best).

Lemma fold_pick (rest : list A) (init : A) :
  Forall comparable (init :: rest) ->
  let r := fold_left (fun best current =>
                        if better current best then current else best)
             rest init in
  (r = init /\ forall x, In x rest -> key x <= key init)
  \/ (exists l1 l2,
        rest = (l1 ++ r :: l2)%list
        /\ key init < key r
        /\ (forall x, In x l1 -> key x < key r)
        /\ (forall x, In x l2 -> key x <= key r)).
Proof.
  revert init. induction rest as [|c rest IH]; intros init Hall; simpl.
  - left. split; [reflexivity | intros x []].
  - inversion Hall as [|? ? Hinit Hrest]; subst.
    inversion Hrest as [|? ? Hc Hrest']; subst.
    rewrite (better_spec c init Hc Hinit).
    destruct (Z.gtb_spec (key c) (key init)) as [Hgt | Hle].
    + right.
      destruct (IH c Hrest) as [[-> Hmax] | (l1 & l2 & E & Hlt & H1 & H2)].
      * exists [], rest. repeat split; auto. intros x [].
      * exists (c :: l1), l2. simpl. rewrite E at 1.
        repeat split; auto; [lia|].
        intros x [<- | Hx]; auto.
    + destruct (IH init (Forall_cons _ Hinit Hrest'))
        as [[-> Hmax] | (l1 & l2 & E & Hlt & H1 & H2)].
      * left. split; [reflexivity|]. intros x [<- | Hx]; auto.
      * right. exists (c :: l1), l2. simpl. rewrite E at 1.
        repeat split; auto.
        intros x [<- | Hx]; auto. lia.
Qed.

(** [reduce] with such a comparison returns the first record among those
    with the greatest key. *)
Lemma reduce1_first_greatest (l : list A) (r : A) :
  Forall comparable l ->
  Dedup.reduce1
    (fun best current => if better current best then current else best) l
  = Some r ->
  exists l1 l2,
    l = (l1 ++ r :: l2)%list
    /\ (forall x, In x l1 -> key x < key r)
    /\ (forall x, In x l2 -> key x <= key r).
Proof.
  destruct l as [|first rest]; [discriminate|]. intros Hall [= <-].
  destruct (fold_pick rest first Hall)
    as [[-> Hmax] | (l1 & l2 & E & Hlt & H1 & H2)].
  - exists [], rest. repeat split; auto. intros x [].
  - exists (first :: l1), l2. simpl. rewrite E at 1.
    repeat split; auto. intros x [<- | Hx]; auto.
Qed.

End PickFacts.

Section SuggestFacts.

Import Dedup.

Lemma first_greatest_of_reduce1 {A : Type} (key : A -> Z)
  (better : A -> A -> bool) (comparable : A -> Prop) (l : list A) (r : A) :
  (forall current best,
     comparable current -> comparable best ->
     better current best = (key current >? key best)) ->
  Forall comparable l ->
  reduce1 (fun best current => if better current best then current else best) l
  = Some r ->
  Pick.first_greatest key l r.
Proof. intros Hb Hall H. exact (reduce1_first_greatest key better comparable Hb l r Hall H). Qed.

Lemma Forall_trivial {A : Type} (l : list A) : Forall (fun _ => True) l.
Proof. induction l; constructor; auto. Qed.

(** X6.  [suggestBookmarkToKeep] returns nothing only for an empty group.
    Under keep_most_used it returns the first bookmark among those with
    the greatest visit count (a missing count is 0); under keep_newest,
    respectively keep_oldest, when every [dateAdded] is a valid date, the
    first among those added last, respectively first; under the other
    strategies the first bookmark of the group. *)
Theorem suggestBookmarkToKeep_first_best (bookmarks : list UB.t)
  (strategy : BookmarkStrategy) :
  (suggestBookmarkToKeep bookmarks strategy = None <-> bookmarks = [])
  /\ forall keep,
       suggestBookmarkToKeep bookmarks strategy = Some keep ->
       (strategy = bm_keep_most_used ->
        Pick.first_greatest (fun b => JS.or_number (UB.visitCount b) 0)
          bookmarks keep)
       /\ (strategy = bm_keep_newest ->
           Forall (fun b => Pick.valid (UB.dateAdded b)) bookmarks ->
           Pick.first_greatest (fun b => Pick.time (UB.dateAdded b))
             bookmarks keep)
       /\ (strategy = bm_keep_oldest ->
           Forall (fun b => Pick.valid (UB.dateAdded b)) bookmarks ->
           Pick.first_greatest (fun b => - Pick.time (UB.dateAdded b))
             bookmarks keep)
       /\ (strategy = bm_manual \/ strategy = bm_keep_all ->
           hd_error bookmarks = Some keep).
Proof.
  split.
  - destruct strategy, bookmarks; simpl; split; congruence.
  - intros keep H. repeat split.
    + intros ->. simpl in H.
      apply (first_greatest_of_reduce1 _ _ (fun _ => True) _ _
               (fun _ _ _ _ => eq_refl) (Forall_trivial _) H).
    + intros -> Hv. simpl in H.
      refine (first_greatest_of_reduce1 _ _ _ _ _ _ Hv H).
      intros c b Hc Hb. unfold Pick.valid in *.
      destruct (UB.dateAdded c), (UB.dateAdded b); simpl; congruence.
    + intros -> Hv. simpl in H.
      refine (first_greatest_of_reduce1 _ _ _ _ _ _ Hv H).
      intros c b Hc Hb. unfold Pick.valid in *.
      destruct (UB.dateAdded c) as [x|], (UB.dateAdded b) as [y|]; simpl;
        try congruence.
      destruct (Z.gtb_spec y x), (Z.gtb_spec (- x) (- y)); auto; lia.
    + intros [-> | ->]; exact H.
Qed.

Lemma suggestBookmarkToKeep_first_best_witness :
  Pick.first_greatest (fun b => Pick.time (UB.dateAdded b))
    MoreExamples.three_bookmarks
    (MoreExamples.dated "ff_bm_2" 1700000000000 None).
Proof.
  apply (proj1 (proj2 (proj2 (suggestBookmarkToKeep_first_best
                                MoreExamples.three_bookmarks bm_keep_newest)
                         _ eq_refl))).
  - reflexivity.
  - apply Forall_forall. intros x Hx. simpl in Hx.
    intuition (subst; discriminate).
Defined.

(** X7.  [suggestHistoryToKeep] returns nothing only for an empty group.
    Under keep_most_visits and under merge_visits it returns the first
    entry among those with the greatest visit count; under keep_newest,
    when every [lastVisit] is a valid date, the first among those visited
    last; under the other strategies the first entry of the group. *)
Theorem suggestHistoryToKeep_first_best (entries : list UH.t)
  (strategy : HistoryStrategy) :
  (suggestHistoryToKeep entries strategy = None <-> entries = [])
  /\ forall keep,
       suggestHistoryToKeep entries strategy = Some keep ->
       (strategy = hs_keep_most_visits \/ strategy = hs_merge_visits ->
        Pick.first_greatest UH.visitCount entries keep)
       /\ (strategy = hs_keep_newest ->
           Forall (fun h => Pick.valid (UH.lastVisit h)) entries ->
           Pick.first_greatest (fun h => Pick.time (UH.lastVisit h))
             entries keep)
       /\ (strategy = hs_manual \/ strategy = hs_keep_all ->
           hd_error entries = Some keep).
Proof.
  split.
  - destruct strategy, entries; simpl; split; congruence.
  - intros keep H. repeat split.
    + intros [-> | ->]; simpl in H;
        apply (first_greatest_of_reduce1 _ _ (fun _ => True) _ _
                 (fun _ _ _ _ => eq_refl) (Forall_trivial _) H).
    + intros -> Hv. simpl in H.
      refine (first_greatest_of_reduce1 _ _ _ _ _ _ Hv H).
      intros c b Hc Hb. unfold Pick.valid in *.
      destruct (UH.lastVisit c), (UH.lastVisit b); simpl; congruence.
    + intros [-> | ->]; exact H.
Qed.

Lemma suggestHistoryToKeep_first_best_witness :
  Pick.first_greatest UH.visitCount MoreExamples.three_visits
    (MoreExamples.visited "ff_hist_2" "https://example.org/" 7 1600000000000).
Proof.
  apply (proj1 (proj2 (suggestHistoryToKeep_first_best
                         MoreExamples.three_visits hs_keep_most_visits)
                  _ eq_refl)).
  now left.
Defined.

(** X8.  [suggestLoginToKeep] returns nothing only for an empty group.
    Under keep_most_used it returns the first login among those used most
    often; under keep_newest, when every [dateLastUsed] is a valid date,
    the first among those used last; under the other strategies the first
    login of the group. *)
Theorem suggestLoginToKeep_first_best (logins : list UL.t)
  (strategy : LoginStrategy) :
  (suggestLoginToKeep logins strategy = None <-> logins = [])
  /\ forall keep,
       suggestLoginToKeep logins strategy = Some keep ->
       (strategy = lg_keep_most_used ->
        Pick.first_greatest UL.timesUsed logins keep)
       /\ (strategy = lg_keep_newest ->
           Forall (fun l => Pick.valid (UL.dateLastUsed l)) logins ->
           Pick.first_greatest (fun l => Pick.time (UL.dateLastUsed l))
             logins keep)
       /\ (strategy = lg_manual \/ strategy = lg_keep_all ->
           hd_error logins = Some keep).
Proof.
  split.
  - destruct strategy, logins; simpl; split; congruence.
  - intros keep H. repeat split.
    + intros ->. simpl in H.
      apply (first_greatest_of_reduce1 _ _ (fun _ => True) _ _
               (fun _ _ _ _ => eq_refl) (Forall_trivial _) H).
    + intros -> Hv. simpl in H.
      refine (first_greatest_of_reduce1 _ _ _ _ _ _ Hv H).
      intros c b Hc Hb. unfold Pick.valid in *.
      destruct (UL.dateLastUsed c), (UL.dateLastUsed b); simpl; congruence.
    + intros [-> | ->]; exact H.
Qed.

Lemma suggestLoginToKeep_first_best_witness :
  Pick.first_greatest (fun l => Pick.time (UL.dateLastUsed l))
    MoreExamples.three_logins
    (MoreExamples.login "ff_login_1" "example.com" "alice" "0a1b2c" 9
       1700000000000).
Proof.
  apply (proj1 (proj2 (proj2 (suggestLoginToKeep_first_best
                                MoreExamples.three_logins lg_keep_newest)
                         _ eq_refl))).
  - reflexivity.
  - apply Forall_forall. intros x Hx. simpl in Hx.
    intuition (subst; discriminate).
Defined.

End SuggestFacts.

(** ** Grouping by key *)

Section GroupingFacts.

Import Grouping.

Context {K A : Type}.
Variable eqb : K -> K -> bool.
Hypothesis eqb_spec : forall a b, eqb a b = true <-> a = b.
Variable key : A -> K.

Lemma eqb_false (a b : K) : a <> b -> eqb a b = false.
Proof.
  intros H. destruct (eqb a b) eqn:E; [|reflexivity].
  apply eqb_spec in E. contradiction.
Qed.

Lemma eqb_refl_true (a : K) : eqb a a = true.
Proof. now apply eqb_spec. Qed.

Lemma filter_snoc_same (k : K) (x : A) (seen : list A) :
  key x = k ->
  filter (fun y => eqb (key y) k) (seen ++ [x])
  = (filter (fun y => eqb (key y) k) seen ++ [x])%list.
Proof.
  intros <-. rewrite filter_app. simpl. now rewrite eqb_refl_true.
Qed.

Lemma filter_snoc_other (k : K) (x : A) (seen : list A) :
  key x <> k ->
  filter (fun y => eqb (key y) k) (seen ++ [x])
  = filter (fun y => eqb (key y) k) seen.
Proof.
  intros H. rewrite filter_app. simpl. rewrite (eqb_false _ _ H).
  apply app_nil_r.
Qed.

Lemma group_into_keys (x : A) (groups : list (K * list A)) :
  map fst (group_into eqb (key x) x groups)
  = if existsb (fun k => eqb k (key x)) (map fst groups)
    then map fst groups
    else (map fst groups ++ [key x])%list.
Proof.
  induction groups as [|[k xs] others IH]; simpl; [reflexivity|].
  destruct (eqb k (key x)); simpl; [reflexivity|].
  rewrite IH. now destruct (existsb _ _).
Qed.

Lemma group_into_members (x : A) (seen : list A) (groups : list (K * list A)) :
  NoDup (map fst groups) ->
  (~ In (key x) (map fst groups) ->
   filter (fun y => eqb (key y) (key x)) seen = []) ->
  Forall (fun kv => snd kv = filter (fun y => eqb (key y) (fst kv)) seen
                    /\ snd kv <> []) groups ->
  Forall (fun kv => snd kv = filter (fun y => eqb (key y) (fst kv)) (seen ++ [x])
                    /\ snd kv <> []) (group_into eqb (key x) x groups).
Proof.
  induction groups as [|[k xs] others IH]; intros Hnd Hnone Hall; simpl.
  - constructor; [|constructor]. simpl. split; [|discriminate].
    rewrite filter_snoc_same by reflexivity.
    now rewrite Hnone by (intros []).
  - inversion Hnd as [|? ? Hk Hnd']; subst.
    inversion Hall as [|? ? [Hxs Hne] Hall']; subst. simpl in Hxs, Hne.
    destruct (eqb k (key x)) eqn:E.
    + apply eqb_spec in E. subst k.
      constructor.
      * simpl. split.
        -- rewrite filter_snoc_same by reflexivity. now rewrite <- Hxs.
        -- now destruct xs.
      * rewrite Forall_forall in Hall' |- *.
        intros [k' xs'] Hin. destruct (Hall' _ Hin) as [H1 H2].
        simpl in *. split; [|exact H2].
        rewrite filter_snoc_other; [exact H1|].
        intros Heq. apply Hk. rewrite Heq.
        change k' with (fst (k', xs')). now apply in_map.
    + constructor.
      * simpl. split; [|exact Hne].
        rewrite filter_snoc_other; [exact Hxs|].
        intros Heq. rewrite Heq, eqb_refl_true in E. discriminate.
      * apply IH; [exact Hnd'| |exact Hall'].
        intros Hnot. apply Hnone. simpl. intros [Heq | Hin]; [|tauto].
        rewrite Heq, eqb_refl_true in E. discriminate.
Qed.

Lemma filter_none (p : A -> bool) (l : list A) :
  (forall x, In x l -> p x = false) -> filter p l = [].
Proof.
  induction l as [|a l IH]; intros H; simpl; [reflexivity|].
  rewrite (H a) by now left. apply IH. intros x Hx. apply H. now right.
Qed.

Lemma group_into_grouped (x : A) (groups : list (K * list A)) (seen : list A) :
  grouped eqb key groups seen ->
  grouped eqb key (group_into eqb (key x) x groups) (seen ++ [x]).
Proof.
  intros (Hnd & Hall & Hcov).
  assert (Hkeys := group_into_keys x groups).
  split; [|split].
  - rewrite Hkeys. destruct (existsb _ _) eqn:E; [exact Hnd|].
    apply NoDup_snoc; [exact Hnd|]. intros Hin.
    assert (existsb (fun k => eqb k (key x)) (map fst groups) = true)
      by (apply existsb_exists; exists (key x); split;
          [exact Hin | apply eqb_refl_true]).
    congruence.
  - apply group_into_members; [exact Hnd| |exact Hall].
    intros Hnot. apply filter_none. intros y Hy. apply eqb_false.
    intros Heq. apply Hnot. rewrite <- Heq. now apply Hcov.
  - intros y Hy. rewrite Hkeys. apply in_app_iff in Hy.
    destruct Hy as [Hy | [<- | []]].
    + specialize (Hcov y Hy). destruct (existsb _ _); [exact Hcov|].
      apply in_app_iff. now left.
    + destruct (existsb _ _) eqn:E.
      * apply existsb_exists in E as (k & Hk & Ek).
        apply eqb_spec in Ek. now subst k.
      * apply in_app_iff. right. now left.
Qed.

Lemma grouped_nil : grouped eqb key [] [].
Proof.
  split; [constructor | split; [constructor | intros x []]].
Qed.

(** Pushing the records of a list one after the other. *)
Lemma fold_group_into_grouped (l seen : list A) (groups : list (K * list A)) :
  grouped eqb key groups seen ->
  grouped eqb key
    (fold_left (fun g x => group_into eqb (key x) x g) l groups)
    (seen ++ l).
Proof.
  revert seen groups.
  induction l as [|x l IH]; intros seen groups H; simpl.
  - now rewrite app_nil_r.
  - replace (seen ++ x :: l)%list with ((seen ++ [x]) ++ l)%list
      by (rewrite <- app_assoc; reflexivity).
    apply IH. now apply group_into_grouped.
Qed.

(** The groups with at least two members are the classes of the keys that
    occur at least twice. *)
Lemma grouped_classes (groups : list (K * list A)) (l : list A) :
  grouped eqb key groups l ->
  let big := filter (fun kv => (1 <? List.length (snd kv))%nat) groups in
  NoDup (map fst big)
  /\ (forall k, In k (map fst big)
       <-> (2 <= List.length (filter (fun x => eqb (key x) k) l))%nat)
  /\ map snd big
     = map (fun k => filter (fun x => eqb (key x) k) l) (map fst big).
Proof.
  intros (Hnd & Hall & Hcov) big. rewrite Forall_forall in Hall.
  split; [|split].
  - subst big. clear Hall Hcov.
    induction groups as [|[k xs] others IH]; simpl; [constructor|].
    inversion Hnd as [|? ? Hk Hnd']; subst.
    destruct (1 <? List.length xs)%nat; simpl; [|now apply IH].
    constructor; [|now apply IH].
    intros Hin. apply Hk. apply in_map_iff in Hin as (kv & <- & Hkv).
    apply filter_In in Hkv as [Hkv _]. now apply in_map.
  - intros k. split.
    + intros Hin. apply in_map_iff in Hin as ([k' xs] & Hk & Hkv).
      simpl in Hk. subst k'. apply filter_In in Hkv as [Hkv Hlen].
      simpl in Hlen. apply Nat.ltb_lt in Hlen.
      destruct (Hall _ Hkv) as [Hxs _]. simpl in Hxs. rewrite <- Hxs. lia.
    + intros Hlen.
      destruct (filter (fun x => eqb (key x) k) l) as [|x rest] eqn:E;
        [simpl in Hlen; lia|].
      assert (Hx : In x (filter (fun x => eqb (key x) k) l))
        by (rewrite E; now left).
      apply filter_In in Hx as [Hx Hkx]. apply eqb_spec in Hkx.
      specialize (Hcov x Hx). rewrite Hkx in Hcov.
      apply in_map_iff in Hcov as ([k' xs] & Hk & Hkv).
      simpl in Hk. subst k'.
      apply in_map_iff. exists (k, xs). split; [reflexivity|].
      apply filter_In. split; [exact Hkv|]. simpl.
      destruct (Hall _ Hkv) as [Hxs _]. simpl in Hxs.
      apply Nat.ltb_lt. rewrite Hxs, E. exact Hlen.
  - subst big. rewrite map_map. apply map_ext_in.
    intros [k xs] Hkv. apply filter_In in Hkv as [Hkv _].
    destruct (Hall _ Hkv) as [Hxs _]. exact Hxs.
Qed.

End GroupingFacts.

(** ** History duplicates are the classes of the normalised URL *)

Section HistoryGroupFacts.

Import Dedup.
Variable newURL : URLParser.

Lemma string_eqb_spec (a b : string) : String.eqb a b = true <-> a = b.
Proof. apply String.eqb_eq. Qed.

Lemma group_push_group_into (normalized : string) (entry : UH.t)
  (urlGroups : list (string * list UH.t)) :
  group_push normalized entry urlGroups
  = Grouping.group_into String.eqb normalized entry urlGroups.
Proof.
  induction urlGroups as [|[k entries] others IH]; simpl; [reflexivity|].
  now rewrite IH.
Qed.

Lemma fold_left_pointwise {B C : Type} (f g : B -> C -> B) (l : list C)
  (b : B) :
  (forall b x, f b x = g b x) -> fold_left f l b = fold_left g l b.
Proof.
  intros H. revert b. induction l as [|x l IH]; intros b; simpl;
    [reflexivity|]. now rewrite H, IH.
Qed.

Lemma group_by_url_grouped (history : list UH.t) :
  Grouping.grouped String.eqb (fun e => normalizeUrl newURL (UH.url e))
    (group_by_url newURL history) history.
Proof.
  unfold group_by_url.
  rewrite (fold_left_pointwise
             (fun urlGroups entry =>
                group_push (normalizeUrl newURL (UH.url entry)) entry urlGroups)
             (fun g x =>
                Grouping.group_into String.eqb
                  (normalizeUrl newURL (UH.url x)) x g))
    by (intros; apply group_push_group_into).
  apply (fold_group_into_grouped String.eqb string_eqb_spec
           (fun e => normalizeUrl newURL (UH.url e)) history [] []).
  apply grouped_nil.
Qed.

Lemma history_groups_fold (config : DeduplicationConfig)
  (groups : list (string * list UH.t)) (acc : list DuplicateGroup) :
  let result :=
    fold_left (fun duplicateGroups (kv : string * list UH.t) =>
                 let entries := snd kv in
                 if (1 <? List.length entries)%nat
                 then (duplicateGroups
                         ++ [history_group config duplicateGroups entries])%list
                 else duplicateGroups)
      groups acc in
  map items result
  = (map items acc
     ++ map (map IHistory)
          (map snd (filter (fun kv => (1 <? List.length (snd kv))%nat) groups)))
    %list
  /\ (Forall (fun g => type g = THistory /\ (confidence g == 1)%Q) acc ->
      Forall (fun g => type g = THistory /\ (confidence g == 1)%Q) result).
Proof.
  revert acc. induction groups as [|[k entries] others IH]; intros acc;
    cbn zeta in *; cbn [fold_left filter snd map].
  - split; [now rewrite app_nil_r | auto].
  - destruct (1 <? List.length entries)%nat; cbn [map].
    + destruct (IH (acc ++ [history_group config acc entries])%list)
        as [Hitems Hall].
      split.
      * rewrite Hitems, map_app, <- app_assoc. reflexivity.
      * intros Hacc. apply Hall. apply Forall_app. split; [exact Hacc|].
        constructor; [|constructor]. simpl. split; reflexivity.
    + apply IH.
Qed.

(** X9.  [findHistoryDuplicates] returns exactly the classes of history
    entries with the same normalised URL that have two members or more:
    there is a duplicate-free list of normalised URLs, those carried by at
    least two entries, and the groups returned are, in that order, all the
    entries with that normalised URL in their order of appearance.  Every
    group has type history and confidence 1. *)
Theorem findHistoryDuplicates_classes (history : list UH.t)
  (config : DeduplicationConfig) :
  let same_url k := fun e => String.eqb (normalizeUrl newURL (UH.url e)) k in
  exists keys : list string,
    NoDup keys
    /\ (forall k, In k keys
          <-> (2 <= List.length (filter (same_url k) history))%nat)
    /\ map items (findHistoryDuplicates newURL history config)
       = map (fun k => map IHistory (filter (same_url k) history)) keys
    /\ Forall (fun g => type g = THistory /\ (confidence g == 1)%Q)
         (findHistoryDuplicates newURL history config).
Proof.
  intros same_url.
  pose proof (grouped_classes String.eqb string_eqb_spec _ _ _
                (group_by_url_grouped history)) as (Hnd & Hin & Hsnd).
  destruct (history_groups_fold config (group_by_url newURL history) [])
    as [Hitems Hall].
  eexists. split; [exact Hnd|]. split; [exact Hin|]. split.
  - unfold findHistoryDuplicates. cbn zeta in Hitems |- *.
    rewrite Hitems. cbn [map app].
    rewrite Hsnd, !map_map. reflexivity.
  - apply Hall. constructor.
Qed.

End HistoryGroupFacts.

(** ** Login duplicates are the classes of domain and user name *)

Section LoginGroupFacts.

Import Dedup.

Lemma LoginKey_eqb_spec (a b : LoginKey.t) : LoginKey.eqb a b = true <-> a = b.
Proof.
  destruct a as [a1 a2], b as [b1 b2]. unfold LoginKey.eqb. simpl.
  rewrite Bool.andb_true_iff, !String.eqb_eq. split.
  - now intros [-> ->].
  - intros H. now inversion H.
Qed.

Lemma LoginKey_eqb_refl (a : LoginKey.t) : LoginKey.eqb a a = true.
Proof. now apply LoginKey_eqb_spec. Qed.

Lemma LoginKey_eqb_sym (a b : LoginKey.t) : LoginKey.eqb a b = LoginKey.eqb b a.
Proof.
  unfold LoginKey.eqb.
  now rewrite (String.eqb_sym (fst a)), (String.eqb_sym (snd a)).
Qed.

Lemma has_cons (processed : list string) (i j : string) :
  has (j :: processed) i = (String.eqb i j || has processed i)%bool.
Proof. reflexivity. Qed.

Lemma has_true (processed : list string) (i : string) :
  has processed i = true <-> In i processed.
Proof.
  unfold has. rewrite existsb_exists. split.
  - intros (x & Hx & E). apply String.eqb_eq in E. now subst.
  - intros H. exists i. split; [exact H | apply String.eqb_refl].
Qed.

Lemma NoDup_map_injective {B C : Type} (f : B -> C) (l : list B) (x y : B) :
  NoDup (map f l) -> In x l -> In y l -> f x = f y -> x = y.
Proof.
  induction l as [|a l IH]; intros Hnd Hx Hy E; [destruct Hx|].
  inversion Hnd as [|? ? Ha Hnd']; subst.
  destruct Hx as [<- | Hx], Hy as [<- | Hy].
  - reflexivity.
  - exfalso. apply Ha. rewrite E. now apply in_map.
  - exfalso. apply Ha. rewrite <- E. now apply in_map.
  - now apply IH.
Qed.

(** The logins not yet grouped that have the key [k]. *)
Local Abbreviation fresh processed k :=
  (fun o : UL.t =>
     (LoginKey.eqb (LoginKey.of_login o) k && negb (has processed (UL.id o)))%bool).

Lemma same_logins_spec (login : UL.t) (rest : list UL.t) :
  forall processed : list string,
    NoDup (map UL.id rest) ->
    fst (same_logins login rest processed)
    = filter (fresh processed (LoginKey.of_login login)) rest
    /\ forall i,
         has (snd (same_logins login rest processed)) i
         = (has processed i
            || has (map UL.id (fst (same_logins login rest processed))) i)%bool.
Proof.
  induction rest as [|other rest' IH]; intros processed Hnd.
  - simpl. split; [reflexivity|]. intros i. now rewrite Bool.orb_false_r.
  - inversion Hnd as [|? ? Hother Hnd']; subst.
    cbn [same_logins filter].
    destruct (has processed (UL.id other)) eqn:Hp.
    + rewrite Bool.andb_false_r. now apply IH.
    + rewrite Bool.andb_true_r.
      change (String.eqb (UL.domain login) (UL.domain other)
              && String.eqb (UL.username login) (UL.username other))%bool
        with (LoginKey.eqb (LoginKey.of_login login) (LoginKey.of_login other)).
      rewrite (LoginKey_eqb_sym (LoginKey.of_login other)).
      destruct (LoginKey.eqb (LoginKey.of_login login) (LoginKey.of_login other)) eqn:Hk.
      * destruct (IH (UL.id other :: processed) Hnd') as [Hmore Hproc].
        destruct (same_logins login rest' (UL.id other :: processed))
          as [more processed'] eqn:E.
        cbn [fst snd] in *. split.
        -- f_equal. rewrite Hmore. apply filter_ext_in.
           intros o Ho. rewrite has_cons.
           destruct (String.eqb (UL.id o) (UL.id other)) eqn:Eid;
             [|reflexivity].
           apply String.eqb_eq in Eid. exfalso. apply Hother.
           rewrite <- Eid. now apply in_map.
        -- intros i. rewrite Hproc. cbn [map]. rewrite !has_cons.
           destruct (String.eqb i (UL.id other)), (has processed i);
             reflexivity.
      * now apply IH.
Qed.

Lemma login_groups_classes (config : DeduplicationConfig) (logins : list UL.t) :
  forall (processed : list string) (acc : list DuplicateGroup),
    NoDup (map UL.id logins) ->
    (forall x y, In x logins -> In y logins ->
       has processed (UL.id x) = true ->
       LoginKey.of_login x = LoginKey.of_login y ->
       has processed (UL.id y) = true) ->
    exists keys : list LoginKey.t,
      NoDup keys
      /\ (forall k, In k keys
            <-> (2 <= List.length (filter (fresh processed k) logins))%nat)
      /\ map items (login_groups config logins processed acc)
         = (map items acc
            ++ map (fun k => map ILogin (filter (fresh processed k) logins))
                 keys)%list
      /\ (Forall (fun g => type g = TLogin /\ (confidence g == 0.95)%Q) acc ->
          Forall (fun g => type g = TLogin /\ (confidence g == 0.95)%Q)
            (login_groups config logins processed acc)).
Proof.
  induction logins as [|login rest IH]; intros processed acc Hnd Hclosed.
  - exists []. simpl. split; [constructor|]. split; [|split].
    + intros k. split; [intros [] | lia].
    + now rewrite app_nil_r.
    + auto.
  - inversion Hnd as [|? ? Hlogin Hnd']; subst.
    cbn [login_groups].
    destruct (has processed (UL.id login)) eqn:Hp.
    + (* already in a group: skipped *)
      destruct (IH processed acc Hnd') as (keys & Hk1 & Hk2 & Hk3 & Hk4).
      { intros x y Hx Hy. apply Hclosed; now right. }
      assert (Hsame : forall k,
                 filter (fresh processed k) (login :: rest)
                 = filter (fresh processed k) rest).
      { intros k. cbn [filter]. now rewrite Hp, Bool.andb_false_r. }
      exists keys. split; [exact Hk1|]. split; [|split].
      * intros k. rewrite Hsame. apply Hk2.
      * rewrite Hk3. f_equal. apply map_ext. intros k. now rewrite Hsame.
      * exact Hk4.
    + (* the first login of its class *)
      destruct (same_logins_spec login rest (UL.id login :: processed) Hnd')
        as [Hmore Hproc].
      destruct (same_logins login rest (UL.id login :: processed))
        as [more processed'] eqn:E.
      cbn [fst snd] in Hmore, Hproc.
      (* the class of [login] is untouched so far *)
      assert (Hmore' : more = filter (fresh processed (LoginKey.of_login login)) rest).
      { rewrite Hmore. apply filter_ext_in. intros o Ho. rewrite has_cons.
        destruct (String.eqb (UL.id o) (UL.id login)) eqn:Eid; [|reflexivity].
        apply String.eqb_eq in Eid. exfalso. apply Hlogin.
        rewrite <- Eid. now apply in_map. }
      assert (Hunproc : forall o, In o rest ->
                 LoginKey.of_login o = LoginKey.of_login login ->
                 has processed (UL.id o) = false).
      { intros o Ho Hk. destruct (has processed (UL.id o)) eqn:Ho';
          [|reflexivity].
        rewrite <- Hp. symmetry.
        apply (Hclosed o login); [now right | now left | exact Ho' | exact Hk]. }
      assert (Hproc' : forall o, In o rest ->
                 has processed' (UL.id o)
                 = (has processed (UL.id o)
                    || LoginKey.eqb (LoginKey.of_login o) (LoginKey.of_login login))%bool).
      { intros o Ho. rewrite Hproc, has_cons.
        assert (String.eqb (UL.id o) (UL.id login) = false) as ->.
        { destruct (String.eqb (UL.id o) (UL.id login)) eqn:Eid;
            [|reflexivity].
          apply String.eqb_eq in Eid. exfalso. apply Hlogin.
          rewrite <- Eid. now apply in_map. }
        cbn [orb].
        destruct (LoginKey.eqb (LoginKey.of_login o) (LoginKey.of_login login)) eqn:Hk.
        - apply LoginKey_eqb_spec in Hk.
          rewrite (Hunproc o Ho Hk). cbn [orb].
          apply has_true. apply in_map. rewrite Hmore'.
          apply filter_In. split; [exact Ho|].
          rewrite Hk, LoginKey_eqb_refl, (Hunproc o Ho Hk).
          reflexivity.
        - rewrite Bool.orb_false_r.
          destruct (has processed (UL.id o)) eqn:Ho'; [reflexivity|].
          destruct (has (map UL.id more) (UL.id o)) eqn:Hin; [|reflexivity].
          exfalso. apply has_true in Hin.
          apply in_map_iff in Hin as (m & Hid & Hm).
          rewrite Hmore' in Hm. apply filter_In in Hm as [Hm Hfresh].
          assert (m = o)
            by (apply (NoDup_map_injective UL.id rest); assumption).
          subst m. rewrite Hk in Hfresh. discriminate. }
      assert (Hclosed' : forall x y, In x rest -> In y rest ->
                 has processed' (UL.id x) = true ->
                 LoginKey.of_login x = LoginKey.of_login y ->
                 has processed' (UL.id y) = true).
      { intros x y Hx Hy Hpx Hk. rewrite Hproc' in Hpx |- * by assumption.
        apply Bool.orb_true_iff in Hpx. apply Bool.orb_true_iff.
        destruct Hpx as [Hpx | Hpx].
        - left. apply (Hclosed x y); [now right | now right | exact Hpx | exact Hk].
        - right. now rewrite <- Hk. }
      (* the classes of the other keys *)
      assert (Hother : forall k, k <> LoginKey.of_login login ->
                 filter (fresh processed k) (login :: rest)
                 = filter (fresh processed' k) rest).
      { intros k Hk. cbn [filter].
        assert (LoginKey.eqb (LoginKey.of_login login) k = false) as ->.
        { destruct (LoginKey.eqb (LoginKey.of_login login) k) eqn:Ek;
            [|reflexivity].
          apply LoginKey_eqb_spec in Ek. now subst k. }
        cbn [andb]. apply filter_ext_in. intros o Ho.
        rewrite (Hproc' o Ho).
        destruct (LoginKey.eqb (LoginKey.of_login o) k) eqn:Ek; [|reflexivity].
        apply LoginKey_eqb_spec in Ek.
        assert (LoginKey.eqb (LoginKey.of_login o) (LoginKey.of_login login) = false) as ->.
        { destruct (LoginKey.eqb (LoginKey.of_login o) (LoginKey.of_login login)) eqn:Ek';
            [|reflexivity].
          apply LoginKey_eqb_spec in Ek'. congruence. }
        now rewrite Bool.orb_false_r. }
      assert (Hthis : filter (fresh processed (LoginKey.of_login login))
                        (login :: rest) = login :: more).
      { cbn [filter]. rewrite LoginKey_eqb_refl, Hp. cbn [andb negb].
        now rewrite <- Hmore'. }
      assert (Hgone : filter (fresh processed' (LoginKey.of_login login)) rest = []).
      { apply filter_none. intros o Ho. rewrite (Hproc' o Ho).
        destruct (LoginKey.eqb (LoginKey.of_login o) (LoginKey.of_login login));
          [|reflexivity].
        now rewrite Bool.orb_true_r. }
      destruct (1 <? List.length (login :: more))%nat eqn:Hlen.
      * destruct (IH processed'
                    (acc ++ [login_group config acc login (login :: more)])%list
                    Hnd' Hclosed')
          as (keys & Hk1 & Hk2 & Hk3 & Hk4).
        assert (Hnotin : ~ In (LoginKey.of_login login) keys).
        { intros Hin. apply Hk2 in Hin. rewrite Hgone in Hin.
          simpl in Hin. lia. }
        exists (LoginKey.of_login login :: keys).
        split; [now constructor|]. split; [|split].
        -- intros k. split.
           ++ intros [<- | Hin].
              ** rewrite Hthis. apply Nat.ltb_lt in Hlen. lia.
              ** rewrite Hother by (intros ->; contradiction).
                 now apply Hk2.
           ++ intros Hcount.
              destruct (LoginKey.eqb (LoginKey.of_login login) k) eqn:Ek.
              ** apply LoginKey_eqb_spec in Ek. now left.
              ** right. apply Hk2. rewrite <- Hother; [exact Hcount|].
                 intros ->. rewrite LoginKey_eqb_refl in Ek. discriminate.
        -- rewrite Hk3, map_app, <- app_assoc. f_equal.
           cbn [map app items login_group]. rewrite Hthis. f_equal.
           apply map_ext_in. intros k Hin. rewrite Hother; [reflexivity|].
           intros ->. contradiction.
        -- intros Hacc. apply Hk4. apply Forall_app. split; [exact Hacc|].
           constructor; [|constructor]. simpl. split; reflexivity.
      * destruct (IH processed' acc Hnd' Hclosed')
          as (keys & Hk1 & Hk2 & Hk3 & Hk4).
        assert (Hnotin : ~ In (LoginKey.of_login login) keys).
        { intros Hin. apply Hk2 in Hin. rewrite Hgone in Hin.
          simpl in Hin. lia. }
        exists keys. split; [exact Hk1|]. split; [|split].
        -- intros k. split.
           ++ intros Hin. rewrite Hother by (intros ->; contradiction).
              now apply Hk2.
           ++ intros Hcount.
              destruct (LoginKey.eqb (LoginKey.of_login login) k) eqn:Ek.
              ** apply LoginKey_eqb_spec in Ek. subst k.
                 rewrite Hthis in Hcount. apply Nat.ltb_ge in Hlen. lia.
              ** apply Hk2. rewrite <- Hother; [exact Hcount|].
                 intros ->. rewrite LoginKey_eqb_refl in Ek. discriminate.
        -- rewrite Hk3. f_equal.
           apply map_ext_in. intros k Hin. rewrite Hother; [reflexivity|].
           intros ->. contradiction.
        -- exact Hk4.
Qed.

(** X10.  When the logins have pairwise distinct ids,
    [findLoginDuplicates] returns exactly the classes of logins with the
    same domain and user name that have two members or more, each class
    once, with its members in their order of appearance, whatever the
    passwords are.  Every group has type login and confidence 0.95. *)
Theorem findLoginDuplicates_classes (logins : list UL.t)
  (config : DeduplicationConfig) :
  NoDup (map UL.id logins) ->
  exists keys : list LoginKey.t,
    NoDup keys
    /\ (forall k, In k keys
          <-> (2 <= List.length
                      (filter (fun o => LoginKey.eqb (LoginKey.of_login o) k) logins))
              %nat)
    /\ map items (findLoginDuplicates logins config)
       = map (fun k =>
                map ILogin
                  (filter (fun o => LoginKey.eqb (LoginKey.of_login o) k) logins))
           keys
    /\ Forall (fun g => type g = TLogin /\ (confidence g == 0.95)%Q)
         (findLoginDuplicates logins config).
Proof.
  intros Hnd.
  destruct (login_groups_classes config logins [] [] Hnd)
    as (keys & Hk1 & Hk2 & Hk3 & Hk4).
  { intros x y _ _ H. discriminate. }
  assert (Hf : forall k,
             filter (fresh [] k) logins
             = filter (fun o => LoginKey.eqb (LoginKey.of_login o) k) logins).
  { intros k. apply filter_ext. intros o. cbn. apply Bool.andb_true_r. }
  exists keys. split; [exact Hk1|]. split; [|split].
  - intros k. rewrite <- Hf. apply Hk2.
  - unfold findLoginDuplicates. rewrite Hk3. cbn [map app].
    apply map_ext. intros k. now rewrite Hf.
  - apply Hk4. constructor.
Qed.

Lemma findLoginDuplicates_classes_witness :
  NoDup (map UL.id MoreExamples.three_logins)
  /\ exists keys : list LoginKey.t,
       NoDup keys
       /\ (forall k, In k keys
             <-> (2 <= List.length
                         (filter (fun o => LoginKey.eqb (LoginKey.of_login o) k)
                            MoreExamples.three_logins))%nat)
       /\ map items
            (findLoginDuplicates MoreExamples.three_logins
               Examples.default_config)
          = map (fun k =>
                   map ILogin
                     (filter (fun o => LoginKey.eqb (LoginKey.of_login o) k)
                        MoreExamples.three_logins))
              keys
       /\ Forall (fun g => type g = TLogin /\ (confidence g == 0.95)%Q)
            (findLoginDuplicates MoreExamples.three_logins
               Examples.default_config).
Proof.
  assert (Hnd : NoDup (map UL.id MoreExamples.three_logins)).
  { simpl. repeat constructor; simpl; intuition discriminate. }
  split; [exact Hnd|].
  exact (findLoginDuplicates_classes MoreExamples.three_logins
           Examples.default_config Hnd).
Defined.

End LoginGroupFacts.

(** ** What a merge leaves in place *)

Section MergeFrameFacts.

Import Merge MergeFrame.

Lemma extends_refl {A : Type} (l : list A) : extends l l.
Proof. exists []. now rewrite app_nil_r. Qed.

Lemma extends_snoc {A : Type} (l l' : list A) (x : A) :
  extends l l' -> extends l (l' ++ [x]).
Proof. intros [more ->]. exists (more ++ [x])%list. now rewrite app_assoc. Qed.

Lemma Map_put_keys (sourceData : SourceData) (key : string)
  (value : RealExtractionResult) :
  map fst (Map_put sourceData key value) = map fst sourceData.
Proof.
  induction sourceData as [|[k v] others IH]; simpl; [reflexivity|].
  destruct (String.eqb k key); simpl; [reflexivity | now rewrite IH].
Qed.

Lemma Map_get_put_other (sourceData : SourceData) (key other : string)
  (value : RealExtractionResult) :
  other <> key ->
  Map_get (Map_put sourceData key value) other = Map_get sourceData other.
Proof.
  intros Hne. induction sourceData as [|[k v] others IH]; simpl; [reflexivity|].
  destruct (String.eqb k key) eqn:E; simpl.
  - apply String.eqb_eq in E. subst k.
    now rewrite (proj2 (String.eqb_neq key other)) by congruence.
  - destruct (String.eqb k other); [reflexivity | exact IH].
Qed.

Variable config : MergeConfig.
Variable target : RealExtractionResult.

(** *** The keys *)

Lemma merge_bookmark_keys_kept (path : string) (b : Bookmark.t) (acc : Acc) :
  keys_kept target (targetData acc) ->
  keys_kept target (targetData (merge_bookmark config path b acc)).
Proof.
  intros (Hb & Hh & Hl). unfold merge_bookmark.
  destruct (find_at _ (bookmarks (targetData acc))) as [[k e]|] eqn:E.
  - apply find_at_Some in E as [Hk He]. apply String.eqb_eq in He.
    destruct (shouldReplaceBookmark e b _), (dryRun config);
      unfold keys_kept; simpl; auto.
    rewrite (map_set_nth Bookmark.url k _ e _ Hk) by (simpl; congruence).
    auto.
  - destruct (dryRun config); unfold keys_kept; simpl; auto.
    rewrite map_app. split; [|auto]. now apply extends_snoc.
Qed.

Lemma merge_history_entry_keys_kept (path : string) (h : HistoryEntry.t)
  (acc : Acc) :
  keys_kept target (targetData acc) ->
  keys_kept target (targetData (merge_history_entry config path h acc)).
Proof.
  intros (Hb & Hh & Hl). unfold merge_history_entry.
  destruct (find_at _ (history (targetData acc))) as [[k e]|] eqn:E.
  - apply find_at_Some in E as [Hk He].
    destruct (dryRun config); unfold keys_kept; simpl; auto.
    rewrite (map_set_nth HistoryEntry.url k _ e _ Hk) by reflexivity.
    auto.
  - destruct (dryRun config); unfold keys_kept; simpl; auto.
    rewrite map_app. split; [auto|]. split; [|auto]. now apply extends_snoc.
Qed.

Lemma merge_login_keys_kept (path : string) (l : Login.t) (acc : Acc) :
  keys_kept target (targetData acc) ->
  keys_kept target (targetData (merge_login config path l acc)).
Proof.
  intros (Hb & Hh & Hl). unfold merge_login.
  destruct (find_at _ (logins (targetData acc))) as [[k e]|] eqn:E.
  - apply find_at_Some in E as [Hk He].
    apply Bool.andb_true_iff in He as [H1 H2].
    apply String.eqb_eq in H1, H2.
    destruct (shouldReplaceLogin e l _), (dryRun config);
      unfold keys_kept; simpl; auto.
    rewrite (map_set_nth login_key k _ e _ Hk)
      by (unfold login_key; simpl; congruence).
    auto.
  - destruct (dryRun config); unfold keys_kept; simpl; auto.
    rewrite map_app. split; [auto|]. split; [auto|]. now apply extends_snoc.
Qed.

(** *** The records, under a strategy that never replaces *)

Hypothesis strategy : never_replaces (conflictResolution config) = true.

Lemma shouldReplaceBookmark_never (existing incoming : Bookmark.t) :
  shouldReplaceBookmark existing incoming (conflictResolution config) = false.
Proof. destruct (conflictResolution config); try discriminate; reflexivity. Qed.

Lemma shouldReplaceLogin_never (existing incoming : Login.t) :
  shouldReplaceLogin existing incoming (conflictResolution config) = false.
Proof. destruct (conflictResolution config); try discriminate; reflexivity. Qed.

Lemma merge_bookmark_records_kept (path : string) (b : Bookmark.t) (acc : Acc) :
  records_kept target (targetData acc) ->
  records_kept target (targetData (merge_bookmark config path b acc)).
Proof.
  intros [(mb & Hb & Hfb) Hl]. unfold merge_bookmark.
  destruct (find_at _ (bookmarks (targetData acc))) as [[k e]|] eqn:E.
  - rewrite shouldReplaceBookmark_never. simpl. split; eauto.
  - destruct (dryRun config); simpl; [split; eauto|].
    split; [|exact Hl]. exists (mb ++ [bookmark_from path b])%list. split.
    + simpl. now rewrite Hb, app_assoc.
    + apply Forall_app. split; [exact Hfb|].
      constructor; [discriminate | constructor].
Qed.

Lemma merge_history_entry_records_kept (path : string) (h : HistoryEntry.t)
  (acc : Acc) :
  records_kept target (targetData acc) ->
  records_kept target (targetData (merge_history_entry config path h acc)).
Proof.
  intros H. unfold merge_history_entry.
  destruct (find_at _ (history (targetData acc))) as [[k e]|];
    destruct (dryRun config); exact H.
Qed.

Lemma merge_login_records_kept (path : string) (l : Login.t) (acc : Acc) :
  records_kept target (targetData acc) ->
  records_kept target (targetData (merge_login config path l acc)).
Proof.
  intros [Hb (ml & Hl & Hfl)]. unfold merge_login.
  destruct (find_at _ (logins (targetData acc))) as [[k e]|] eqn:E.
  - rewrite shouldReplaceLogin_never. simpl. split; eauto.
  - destruct (dryRun config); simpl; [split; eauto|].
    split; [exact Hb|]. exists (ml ++ [login_from path l])%list. split.
    + simpl. now rewrite Hl, app_assoc.
    + apply Forall_app. split; [exact Hfl|].
      constructor; [discriminate | constructor].
Qed.

End MergeFrameFacts.

Section MergeProfilesMore.

Import Merge MergeFrame.

Variable sourceData : SourceData.
Variable targetProfilePath : string.
Variable config : MergeConfig.

(** X11.  A merge never removes or moves a key of the target: the call
    returns, and in the store it leaves the URLs of the target's bookmarks
    and history entries and the hostname-username pairs of its logins are
    those from before, in the same order, followed by the keys of the
    records pushed.  The store has the same profile paths in the same
    order, and every profile other than the target is as it was. *)
Theorem mergeProfiles_keeps_target_keys (target : RealExtractionResult) :
  Map_get sourceData targetProfilePath = Some target ->
  exists result store target',
    mergeProfiles sourceData targetProfilePath config = Some (result, store)
    /\ Map_get store targetProfilePath = Some target'
    /\ keys_kept target target'
    /\ map fst store = map fst sourceData
    /\ forall path, path <> targetProfilePath ->
         Map_get store path = Map_get sourceData path.
Proof.
  intros Hget. unfold mergeProfiles. rewrite Hget.
  destruct (selected_types_total sourceData targetProfilePath config
              (mergeTypes config) (mkRun target initial_result))
    as [run E].
  rewrite E. eexists; eexists; exists (run_target run).
  split; [reflexivity|]. split; [now apply (Map_get_put _ _ target)|].
  split; [|split].
  - refine (proj1 (selected_types_invariant sourceData targetProfilePath config
                     (keys_kept target) (merge_bookmark_keys_kept config target)
                     (merge_history_entry_keys_kept config target)
                     (merge_login_keys_kept config target)
                     (mergeTypes config) (mkRun target initial_result) run
                     _ E)).
    repeat split; apply extends_refl.
  - apply Map_put_keys.
  - intros path Hne. now apply Map_get_put_other.
Qed.


(** X13.  A dry run changes nothing: whatever the store, the target and
    the other settings, the call returns and the store, the target in it
    included, is as it was. *)
Theorem mergeProfiles_dry_run_leaves_store :
  dryRun config = true ->
  exists result,
    mergeProfiles sourceData targetProfilePath config
    = Some (result, sourceData).
Proof.
  intros Hd.
  destruct (mergeProfiles_dryRun_frame sourceData targetProfilePath config Hd)
    as [result E].
  exists result. exact E.
Qed.

Lemma selected_types_unimplemented (dataTypes : list MergeDataType)
  (target : RealExtractionResult) :
  forallb unimplemented dataTypes = true ->
  selected_types dataTypes sourceData targetProfilePath config
    (mkRun target initial_result)
  = Some (mkRun target initial_result).
Proof.
  induction dataTypes as [|t ts IH]; simpl; [reflexivity|].
  intros H. apply Bool.andb_true_iff in H as [Ht Hts].
  destruct t; try discriminate; simpl; now apply IH.
Qed.

(** X14.  Asking only for data types whose merge is a placeholder
    (cookies, extensions, preferences, form history, permissions,
    sessions) does nothing and reports success: the result has
    [success = true], no error and every counter zero, and the store is as
    it was. *)
Theorem mergeProfiles_unimplemented_types_do_nothing
  (target : RealExtractionResult) :
  Map_get sourceData targetProfilePath = Some target ->
  forallb unimplemented (mergeTypes config) = true ->
  mergeProfiles sourceData targetProfilePath config
  = Some (mkResult true 0 0 [] zero_details, sourceData).
Proof.
  intros Hget Hu. unfold mergeProfiles.
  rewrite Hget, (selected_types_unimplemented _ _ Hu). simpl.
  now rewrite (Map_put_same _ _ _ Hget).
Qed.

End MergeProfilesMore.

Section MergeProfilesMoreWitnesses.

Import Merge MergeFrame.

Lemma mergeProfiles_keeps_target_keys_witness :
  exists result store target',
    mergeProfiles Examples.slash_store "/profiles/target" Examples.real_run
    = Some (result, store)
    /\ Map_get store "/profiles/target" = Some target'
    /\ keys_kept
         (mkData [Examples.bookmark "https://example.com/" 1700000000000] [] [])
         target'
    /\ map fst store = map fst Examples.slash_store
    /\ forall path, path <> "/profiles/target"%string ->
         Map_get store path = Map_get Examples.slash_store path.
Proof.
  apply (mergeProfiles_keeps_target_keys Examples.slash_store
           "/profiles/target" Examples.real_run
           (mkData [Examples.bookmark "https://example.com/" 1700000000000]
              [] [])).
  reflexivity.
Defined.


Lemma mergeProfiles_dry_run_leaves_store_witness :
  exists result,
    mergeProfiles Examples.slash_store "/profiles/target" Examples.dry_run
    = Some (result, Examples.slash_store).
Proof.
  apply mergeProfiles_dry_run_leaves_store. reflexivity.
Defined.

Lemma mergeProfiles_unimplemented_types_do_nothing_witness :
  mergeProfiles Examples.slash_store "/profiles/target"
    (mkConfig [COOKIES; SESSIONS; PREFERENCES] KEEP_NEWEST false)
  = Some (mkResult true 0 0 [] zero_details, Examples.slash_store).
Proof.
  apply (mergeProfiles_unimplemented_types_do_nothing Examples.slash_store
           "/profiles/target"
           (mkConfig [COOKIES; SESSIONS; PREFERENCES] KEEP_NEWEST false)
           (mkData [Examples.bookmark "https://example.com/" 1700000000000]
              [] [])); reflexivity.
Defined.

End MergeProfilesMoreWitnesses.

(** ** The target is one of the sources *)

Section SelfMerge.

Import Merge MergeFrame.

Lemma find_at_unique {A : Type} (key : A -> string) (l : list A) (i : nat)
  (a : A) :
  NoDup (map key l) -> nth_error l i = Some a ->
  find_at (fun b => String.eqb (key b) (key a)) l = Some (i, a).
Proof.
  revert i. induction l as [|x r IH]; intros [|i] Hnd Hi; simpl in *;
    try discriminate.
  - injection Hi as ->. now rewrite String.eqb_refl.
  - inversion Hnd as [|? ? Hx Hr]; subst.
    assert (String.eqb (key x) (key a) = false) as ->.
    { apply String.eqb_neq. intros E. apply Hx. rewrite E.
      apply in_map. eapply nth_error_In; eauto. }
    now rewrite (IH i Hr Hi).
Qed.

Lemma set_nth_middle {A : Type} (p q : list A) (x v : A) :
  set_nth (List.length p) v (p ++ x :: q) = (p ++ v :: q)%list.
Proof. induction p as [|y p IH]; simpl; [reflexivity | now rewrite IH]. Qed.

Lemma firstn_skipn_nth {A : Type} (l : list A) (i : nat) (a : A) :
  nth_error l i = Some a ->
  firstn (S i) l = (firstn i l ++ [a])%list /\ skipn i l = a :: skipn (S i) l.
Proof.
  revert i. induction l as [|x r IH]; intros [|i] H; simpl in *;
    try discriminate.
  - injection H as ->. now split.
  - destruct (IH i H) as [H1 H2]. split; [now rewrite <- H1 | exact H2].
Qed.

Lemma combine_history_self (h : HistoryEntry.t) : combine_history h h = twice h.
Proof.
  unfold combine_history, twice.
  now destruct (DateOps.gtb (HistoryEntry.lastVisitTime h)
                  (HistoryEntry.lastVisitTime h)).
Qed.

Lemma map_url_twice (l : list HistoryEntry.t) :
  map HistoryEntry.url (map twice l) = map HistoryEntry.url l.
Proof. rewrite map_map. reflexivity. Qed.

Variable config : MergeConfig.
Variable path : string.
Variable target : RealExtractionResult.

Hypothesis real_run : dryRun config = false.
Hypothesis unique : NoDup (map HistoryEntry.url (history target)).

Lemma fed_nth (i : nat) :
  nth_error (history (targetData (fed target i))) i = nth_error (history target) i.
Proof.
  unfold fed. simpl. destruct (Nat.lt_ge_cases i (List.length (history target))) as [Hlt|Hge].
  - rewrite nth_error_app2; rewrite length_map, firstn_length_le by lia;
      [|lia].
    rewrite Nat.sub_diag.
    destruct (nth_error (history target) i) as [a|] eqn:E.
    + now rewrite (proj2 (firstn_skipn_nth _ _ _ E)).
    + apply nth_error_None in E. lia.
  - rewrite (proj2 (nth_error_None (history target) i)) by lia.
    apply nth_error_None.
    rewrite length_app, length_map, firstn_all2, skipn_all2 by lia.
    simpl. lia.
Qed.

Lemma merge_history_entry_fed (i : nat) (a : HistoryEntry.t) :
  nth_error (history target) i = Some a ->
  merge_history_entry config path a (fed target i) = fed target (S i).
Proof.
  intros Hi. unfold merge_history_entry.
  assert (Hfed : nth_error (history (targetData (fed target i))) i = Some a)
    by (rewrite fed_nth; exact Hi).
  unfold fed in *.
  assert (Hlen : List.length (map twice (firstn i (history target))) = i).
  { rewrite length_map, firstn_length_le; [reflexivity|].
    apply Nat.lt_le_incl. apply nth_error_Some. congruence. }
  rewrite (find_at_unique HistoryEntry.url _ i a).
  - rewrite real_run, combine_history_self.
    destruct (firstn_skipn_nth _ _ _ Hi) as [H1 H2].
    cbn [targetData history set_history acc_merged acc_conflicts].
    pose proof (set_nth_middle (map twice (firstn i (history target)))
                  (skipn (S i) (history target)) a (twice a)) as Hset.
    rewrite Hlen in Hset. rewrite H2, Hset.
    rewrite H1, map_app, <- app_assoc. cbn [map app].
    f_equal; lia.
  - cbn [targetData history set_history].
    rewrite map_app, map_url_twice, <- map_app, firstn_skipn. exact unique.
  - exact Hfed.
Qed.

Lemma for_of_fed (fuel i : nat) :
  (i + fuel = List.length (history target))%nat ->
  for_of fuel (fun acc' => history (targetData acc'))
    (merge_history_entry config path) i (fed target i)
  = Some (fed target (List.length (history target))).
Proof.
  revert i. induction fuel as [|fuel IH]; intros i Hn.
  - cbn [for_of]. rewrite fed_nth.
    rewrite (proj2 (nth_error_None (history target) i)) by lia.
    replace i with (List.length (history target)) by lia. reflexivity.
  - cbn [for_of]. rewrite fed_nth.
    destruct (nth_error (history target) i) as [a|] eqn:E.
    + rewrite (merge_history_entry_fed i a E). apply IH. lia.
    + apply nth_error_None in E. lia.
Qed.

Hypothesis not_object_string : path <> object_toString.
Hypothesis history_only : mergeTypes config = [HISTORY].

(** X15.  The engine does not skip the target when it walks the store, so
    a merge of history into a target that is alone in the store is not the
    identity: when the URLs of the target's history are pairwise distinct
    and the run is no dry run, every entry is combined with itself, which
    doubles its visit count and leaves its other fields, and the result
    counts every entry both as merged and as a conflict. *)
Theorem mergeProfiles_alone_doubles_visits :
  mergeProfiles [(path, target)] path config
  = Some (mkResult true (Z.of_nat (List.length (history target)))
            (Z.of_nat (List.length (history target))) []
            (with_history zero_details
               (mkCounts (Z.of_nat (List.length (history target)))
                  (Z.of_nat (List.length (history target))))),
          [(path, set_history target (map twice (history target)))]).
Proof.
  unfold mergeProfiles. cbn [Map_get]. rewrite String.eqb_refl.
  rewrite history_only. cbn [selected_types mergeSpecificDataType].
  unfold run_merge, mergeHistory, merge_type. cbn [run_target merge_all].
  assert (Hrun : merge_from history (merge_history_entry config) path
                   (path, target) (mkAcc target 0 0)
                 = Some (fed target (List.length (history target)))).
  { unfold merge_from. rewrite String.eqb_refl.
    rewrite (proj2 (String.eqb_neq path object_toString) not_object_string).
    cbn [orb targetData].
    assert (H0 : mkAcc target 0 0 = fed target 0%nat)
      by (destruct target; reflexivity).
    destruct (List.length (history target) =? 0)%nat eqn:Hlen.
    - apply Nat.eqb_eq in Hlen. rewrite Hlen. now rewrite H0.
    - rewrite H0. apply for_of_fed. reflexivity. }
  rewrite Hrun. cbn [Map_put]. rewrite String.eqb_refl.
  cbn [targetData acc_merged acc_conflicts run_result run_target set_details
       details initial_result errors values with_history zero_details zero
       d_bookmarks d_history d_logins d_cookies d_extensions d_formHistory
       d_permissions d_sessions fold_left merged conflicts List.length
       Nat.eqb].
  unfold fed.
  cbn [targetData acc_merged acc_conflicts].
  rewrite firstn_all, skipn_all, app_nil_r.
  repeat f_equal; lia.
Qed.

End SelfMerge.

Lemma mergeProfiles_alone_doubles_visits_witness :
  Merge.mergeProfiles [("/profiles/target"%string, Examples.scenario_B_target)]
    "/profiles/target" (Merge.mkConfig [Merge.HISTORY] Merge.KEEP_NEWEST false)
  = Some (Merge.mkResult true 1 1 []
            (Merge.with_history Merge.zero_details (Merge.mkCounts 1 1)),
          [("/profiles/target"%string,
            Merge.mkData []
              [Examples.visit "https://a.com" 6 1600000000000] [])]).
Proof.
  apply (mergeProfiles_alone_doubles_visits
           (Merge.mkConfig [Merge.HISTORY] Merge.KEEP_NEWEST false)
           "/profiles/target" Examples.scenario_B_target).
  - reflexivity.
  - simpl. repeat constructor. intros [].
  - discriminate.
  - reflexivity.
Defined.

(** ** Outcomes of a recovery *)

Section RecoveryOutcomes.

Import Recovery Validation.

Variable random : nat -> Q.

Lemma includes_cons (x y : string) (l : list string) :
  includes (y :: l) x = (String.eqb x y || includes l x)%bool.
Proof. reflexivity. Qed.

Lemma includes_true (l : list string) (x : string) :
  includes l x = true <-> In x l.
Proof.
  unfold includes. rewrite existsb_exists. split.
  - intros (y & Hy & E). apply String.eqb_eq in E. now subst.
  - intros H. exists x. split; [exact H | apply String.eqb_refl].
Qed.

Lemma includes_false (l : list string) (x : string) :
  ~ In x l -> includes l x = false.
Proof.
  intros H. destruct (includes l x) eqn:E; [|reflexivity].
  apply includes_true in E. contradiction.
Qed.

(** An effectful filter over distinct names returns the names it kept, in
    their order. *)
Lemma filterM_splits (p : string -> M bool) (l : list string) :
  NoDup l ->
  forall w,
    let kept := fst (runState (filterM p l) w) in
    incl kept l /\ kept = filter (fun x => includes kept x) l.
Proof.
  induction l as [|x r IH]; intros Hnd w.
  - simpl. split; [intros y [] | reflexivity].
  - inversion Hnd as [|? ? Hx Hr]; subst.
    cbn [filterM]. rewrite run_bind.
    destruct (runState (p x) w) as [keep w1]. rewrite run_bind.
    specialize (IH Hr w1). cbv zeta in IH.
    destruct (runState (filterM p r) w1) as [kept' w2].
    cbn [fst] in IH. destruct IH as [Hincl Hkept].
    cbn [runState ret Monad_state fst].
    assert (Hnot : ~ In x kept') by (intros H; apply Hx; now apply Hincl).
    destruct keep.
    + split.
      * intros y [<- | Hy]; [now left | right; now apply Hincl].
      * cbn [filter]. rewrite includes_cons, String.eqb_refl. cbn [orb].
        f_equal. rewrite Hkept at 1. apply filter_ext_in.
        intros y Hy. rewrite includes_cons.
        assert (String.eqb y x = false) as ->; [|reflexivity].
        apply String.eqb_neq. intros ->. contradiction.
    + split.
      * intros y Hy. right. now apply Hincl.
      * cbn [filter]. now rewrite (includes_false _ _ Hnot).
Qed.

Lemma random_subset_splits (bound : Q) (tables : list string) (w : World) :
  NoDup tables ->
  let kept := fst (runState (random_subset random bound tables) w) in
  splits tables kept
    (filter (fun table => negb (includes kept table)) tables).
Proof.
  intros Hnd kept. split; [|reflexivity].
  apply (filterM_splits _ tables Hnd w).
Qed.

Lemma dump_tables_NoDup : NoDup dump_tables.
Proof.
  unfold dump_tables. repeat constructor; simpl; intuition discriminate.
Qed.

Lemma recover_tables_NoDup : NoDup recover_tables.
Proof.
  unfold recover_tables. repeat constructor; simpl; intuition discriminate.
Qed.

Lemma attemptDumpRecovery_outcome (filePath outputPath : string) (w : World) :
  attempt_outcome m_dump dump_tables
    "No tables could be recovered from database dump"
    (fst (runState (attemptDumpRecovery random filePath outputPath) w)).
Proof.
  unfold attemptDumpRecovery. cbv zeta. rewrite run_bind, run_emit, run_bind.
  match goal with
  | |- context [runState (random_subset random ?b ?l) ?w0] =>
      pose proof (random_subset_splits b l w0 dump_tables_NoDup) as Hs;
      destruct (runState (random_subset random b l) w0) as [recovered w1]
  end.
  cbv zeta in Hs. cbn [fst] in Hs.
  destruct (0 <? List.length recovered)%nat eqn:E; cbn; rewrite ?E.
  - split; [reflexivity|]. left. split; [reflexivity|].
    split; [now destruct recovered|]. split; [exact Hs | reflexivity].
  - split; [reflexivity|]. right. repeat split; reflexivity.
Qed.

Lemma attemptRecoverCommand_outcome (filePath outputPath : string) (w : World) :
  attempt_outcome m_recover recover_tables
    "Recovery command found no salvageable data"
    (fst (runState (attemptRecoverCommand random filePath outputPath) w)).
Proof.
  unfold attemptRecoverCommand. cbv zeta. rewrite run_bind, run_emit, run_bind.
  match goal with
  | |- context [runState (random_subset random ?b ?l) ?w0] =>
      pose proof (random_subset_splits b l w0 recover_tables_NoDup) as Hs;
      destruct (runState (random_subset random b l) w0) as [recovered w1]
  end.
  cbv zeta in Hs. cbn [fst] in Hs.
  destruct (0 <? List.length recovered)%nat eqn:E; cbn; rewrite ?E.
  - split; [reflexivity|]. left. split; [reflexivity|].
    split; [now destruct recovered|]. split; [exact Hs | reflexivity].
  - split; [reflexivity|]. right. repeat split; reflexivity.
Qed.

Lemma recover_checked_outcome (integrityCheck : CorruptionCheckResult)
  (filePath outputDir : string) (w : World) :
  let result :=
    fst (runState (recover_checked random integrityCheck filePath outputDir) w)
  in
  nothing_to_recover result \/ tables_recovered result \/ all_lost result.
Proof.
  cbv zeta. unfold recover_checked.
  destruct (isCorrupted integrityCheck); cbn [negb];
    [|left; unfold nothing_to_recover; cbn; repeat split; reflexivity].
  destruct (recoverable integrityCheck); cbn [negb];
    [|right; right; unfold all_lost; cbn; repeat split; auto; discriminate].
  rewrite run_bind.
  pose proof (attemptDumpRecovery_outcome filePath
                (outputDir ++ "/dump_recovery.sql") w) as Hd.
  destruct (runState (attemptDumpRecovery random filePath
                        (outputDir ++ "/dump_recovery.sql")) w)
    as [dumpResult w1].
  cbn [fst] in Hd. destruct Hd as [Hm Hd].
  destruct Hd as [(Hs & Hne & Hsp & Hlog) | (Hs & Hnil & _ & Hlog & _)].
  - rewrite Hs. destruct (recoveredTables dumpResult) eqn:Et;
      [now contradiction Hne|].
    cbn. right; left. unfold tables_recovered. rewrite Et.
    split; [exact Hs|]. split; [discriminate|]. split; [exact Hlog|].
    left. split; [exact Hm | exact Hsp].
  - rewrite Hs. cbn [andb]. rewrite run_bind.
    pose proof (attemptRecoverCommand_outcome filePath
                  (outputDir ++ "/recover_recovery.db") w1) as Hr.
    destruct (runState (attemptRecoverCommand random filePath
                          (outputDir ++ "/recover_recovery.db")) w1)
      as [recoverResult w2].
    cbn [fst] in Hr. destruct Hr as [Hm2 Hr].
    destruct Hr as [(Hs2 & Hne2 & Hsp2 & Hlog2) | (Hs2 & Hnil2 & _ & Hlog2 & _)].
    + rewrite Hs2. destruct (recoveredTables recoverResult) eqn:Et;
        [now contradiction Hne2|].
      cbn. right; left. unfold tables_recovered. rewrite Et.
      split; [exact Hs2|]. split; [discriminate|]. split; [exact Hlog2|].
      right. split; [exact Hm2 | exact Hsp2].
    + rewrite Hs2. cbn. right; right. unfold all_lost. cbn.
      rewrite Hlog, Hlog2. repeat split; auto; discriminate.
Qed.

Variables filePath outputDir : string.

(** X16.  Whatever [Math.random] returns, [recoverDatabase] ends in one
    of three ways.  Nothing was corrupted: success, method none, nothing
    recovered, nothing lost.  Tables were recovered: success, no error, at
    least one recovered table, and [recoveredTables] and [lostData]
    together are the table list of the method that worked (four tables
    for dump, five for recover), each table in exactly one of the two, in
    the order of the list.  Or all is lost: no success, nothing recovered,
    [lostData] is the entire database, at least one error, size 0. *)
Theorem recoverDatabase_outcomes (w : World) :
  let result := fst (runState (recoverDatabase random filePath outputDir) w) in
  nothing_to_recover result \/ tables_recovered result \/ all_lost result.
Proof.
  cbv zeta. unfold recoverDatabase. rewrite run_bind.
  destruct (runState (checkDatabaseIntegrity random filePath) w)
    as [integrityCheck w1].
  apply recover_checked_outcome.
Qed.

(** X17.  [validateRecoveredData] on tables with pairwise distinct names:
    [validTables] and [invalidTables] split the tables given, each table in
    exactly one of the two and in the order given, and at most two
    integrity issues are reported. *)
Theorem validateRecoveredData_splits (recoveredPath : string)
  (originalTables : list string) (w : World) :
  NoDup originalTables ->
  let result :=
    fst (runState (validateRecoveredData random recoveredPath originalTables) w)
  in
  splits originalTables (validTables result) (invalidTables result)
  /\ (List.length (validTables result) + List.length (invalidTables result)
      = List.length originalTables)%nat
  /\ (List.length (dataIntegrityIssues result) <= 2)%nat.
Proof.
  intros Hnd. cbv zeta. unfold validateRecoveredData. rewrite run_bind.
  pose proof (random_subset_splits 0.1 originalTables w Hnd) as Hs.
  destruct (runState (random_subset random 0.1 originalTables) w)
    as [valid w1].
  cbv zeta in Hs. cbn [fst] in Hs. cbn.
  split; [exact Hs|]. split.
  - destruct Hs as [Hv _]. rewrite Hv at 1.
    clear. induction originalTables as [|t ts IH]; simpl; [reflexivity|].
    destruct (includes valid t); simpl; lia.
  - destruct (Qle_bool _ _), (Qle_bool _ _); simpl; lia.
Qed.

End RecoveryOutcomes.

Lemma validateRecoveredData_splits_witness :
  Validation.splits Validation.dump_tables
    (Validation.validTables MoreExamples.validated)
    (Validation.invalidTables MoreExamples.validated)
  /\ (List.length (Validation.validTables MoreExamples.validated)
      + List.length (Validation.invalidTables MoreExamples.validated)
      = List.length Validation.dump_tables)%nat
  /\ (List.length (Validation.dataIntegrityIssues MoreExamples.validated)
      <= 2)%nat.
Proof.
  apply (validateRecoveredData_splits MoreExamples.one_half "recovered.db"
           Validation.dump_tables MoreExamples.fresh_world).
  apply dump_tables_NoDup.
Defined.

Section IntegrityCheck.

Import Recovery Validation.

Variable random : nat -> Q.
Hypothesis in_range : unit_interval random.

Lemma Qfloor_scaled (r : Q) (k : Z) :
  (0 <= r)%Q -> (r < 1)%Q -> 0 < k ->
  0 <= Qfloor (r * inject_Z k) < k.
Proof.
  intros H0 H1 Hk. split.
  - rewrite <- (Qfloor_Z 0). apply Qfloor_resp_le.
    apply Qmult_le_0_compat; [exact H0|].
    change 0%Q with (inject_Z 0). rewrite <- Zle_Qle. lia.
  - rewrite Zlt_Qlt.
    apply Qle_lt_trans with (r * inject_Z k)%Q; [apply Qfloor_le|].
    rewrite <- (Qmult_1_l (inject_Z k)) at 2.
    apply Qmult_lt_compat_r; [|exact H1].
    change 0%Q with (inject_Z 0). rewrite <- Zlt_Qlt. exact Hk.
Qed.

(** X18.  With values of [Math.random] in the unit interval the
    integrity check never reports an empty file and never ends in its
    [catch] block: the verdict is healthy, with error type none, or
    corrupted with one of the types header, page, index and schema, and
    it is recoverable in every case.  The check draws two random
    numbers. *)
Theorem checkDatabaseIntegrity_verdicts (filePath : string) (w : World) :
  let run := runState (checkDatabaseIntegrity random filePath) w in
  recoverable (fst run) = true
  /\ (isCorrupted (fst run) = false <-> errorType (fst run) = e_none)
  /\ In (errorType (fst run)) corruptionTypes
  /\ errorMessage (fst run) <> "Database file is empty"%string
  /\ draws (snd run) = (draws w + 2)%nat.
Proof.
  cbv zeta. unfold checkDatabaseIntegrity.
  rewrite run_bind, run_emit, run_bind.
  unfold getFileSize. rewrite run_bind.
  cbn [Math_random runState bind Monad_state get put ret MonadState_state fst snd
       draws trace].
  destruct (in_range (draws w)) as [Ha Hb].
  pose proof (Qfloor_scaled _ 50000000 Ha Hb eq_refl) as Hsize.
  change (inject_Z 50000000) with 50000000%Q in Hsize.
  assert (Hz : (Qfloor (random (draws w) * 50000000) + 1000000 =? 0) = false)
    by (apply Z.eqb_neq; lia).
  rewrite Hz.
  cbn [Math_random runState bind Monad_state get put ret MonadState_state fst snd
       draws trace].
  destruct (in_range (S (draws w))) as [Hc Hd].
  pose proof (Qfloor_scaled _ 5 Hc Hd eq_refl) as Hidx.
  change (inject_Z 5) with 5%Q in Hidx.
  unfold at_index.
  assert (Hneg : (Qfloor (random (S (draws w)) * 5) <? 0) = false)
    by (apply Z.ltb_ge; lia).
  rewrite Hneg.
  assert (Hcase : exists n, Z.to_nat (Qfloor (random (S (draws w)) * 5)) = n
                            /\ (n < 5)%nat)
    by (eexists; split; [reflexivity | lia]).
  destruct Hcase as (n & -> & Hn).
  destruct n as [|[|[|[|[|n]]]]]; try lia;
    cbn; (split; [reflexivity|]); (split; [split; congruence|]);
    (split; [tauto|]); (split; [discriminate | lia]).
Qed.

End IntegrityCheck.

Lemma checkDatabaseIntegrity_verdicts_witness :
  Recovery.recoverable
    (fst (runState
            (Recovery.checkDatabaseIntegrity MoreExamples.one_half "places.sqlite")
            MoreExamples.fresh_world))
  = true.
Proof.
  apply (checkDatabaseIntegrity_verdicts MoreExamples.one_half).
  intros n. split; [discriminate | reflexivity].
Defined.

(** ** Folder paths, tags and ids of normalised records *)

Section FolderPathFacts.

Import FolderPath.

Lemma split_not_nil (sep : ascii) (s : string) : JS.split sep s <> [].
Proof.
  induction s as [|c r IH]; simpl; [discriminate|].
  destruct (Ascii.eqb c sep); [discriminate|].
  destruct (JS.split sep r); [contradiction | discriminate].
Qed.

Lemma split_pieces (sep : ascii) (s : string) :
  Forall (fun piece => contains_char sep piece = false) (JS.split sep s).
Proof.
  induction s as [|c r IH]; simpl.
  - constructor; [reflexivity | constructor].
  - destruct (Ascii.eqb c sep) eqn:E.
    + constructor; [reflexivity | exact IH].
    + destruct (JS.split sep r) as [|first others].
      * constructor; [simpl; now rewrite E | constructor].
      * inversion IH; subst. constructor; [simpl; now rewrite E | assumption].
Qed.

Lemma split_whole (sep : ascii) (s : string) :
  contains_char sep s = false -> JS.split sep s = [s].
Proof.
  induction s as [|c r IH]; simpl; [reflexivity|].
  intros H. apply Bool.orb_false_iff in H as [Hc Hr].
  now rewrite Hc, (IH Hr).
Qed.

Lemma split_app_sep (sep : ascii) (a r : string) :
  contains_char sep a = false ->
  JS.split sep (a ++ String sep r) = a :: JS.split sep r.
Proof.
  induction a as [|c a IH]; simpl; intros H.
  - now rewrite Ascii.eqb_refl.
  - apply Bool.orb_false_iff in H as [Hc Ha]. now rewrite Hc, (IH Ha).
Qed.

Lemma split_concat (sep : ascii) (pieces : list string) :
  pieces <> [] ->
  Forall (fun piece => contains_char sep piece = false) pieces ->
  JS.split sep (String.concat (String sep EmptyString) pieces) = pieces.
Proof.
  induction pieces as [|a rest IH]; intros Hne Hall; [contradiction|].
  inversion Hall as [|? ? Ha Hrest]; subst.
  destruct rest as [|b rest].
  - simpl. now apply split_whole.
  - change (String.concat (String sep EmptyString) (a :: b :: rest))
      with (a ++ String sep (String.concat (String sep EmptyString) (b :: rest))).
    rewrite (split_app_sep _ _ _ Ha). f_equal.
    apply IH; [discriminate | exact Hrest].
Qed.

Lemma filter_all {A : Type} (p : A -> bool) (l : list A) :
  Forall (fun x => p x = true) l -> filter p l = l.
Proof.
  induction 1 as [|x l Hx _ IH]; simpl; [reflexivity|]. now rewrite Hx, IH.
Qed.

Lemma parseFirefoxFolderPath_segments (folder : string) :
  Forall segment (Normalizer.parseFirefoxFolderPath folder).
Proof.
  unfold Normalizer.parseFirefoxFolderPath. apply Forall_forall.
  intros name Hin. apply filter_In in Hin as [Hin Hlen].
  split.
  - intros ->. discriminate.
  - pose proof (split_pieces "/" folder) as Hp.
    rewrite Forall_forall in Hp. now apply Hp.
Qed.

(** X19.  [parseFirefoxFolderPath] and [parseChromeFolderPath] are the
    same function.  Every folder name they return is non-empty and holds
    no slash, whatever the path looks like (leading, trailing or doubled
    slashes give no empty name); and a list of such folder names joined
    with slashes is read back as that list. *)
Theorem parseFolderPath_segments (folder : string) :
  Normalizer.parseChromeFolderPath folder
  = Normalizer.parseFirefoxFolderPath folder
  /\ Forall segment (Normalizer.parseFirefoxFolderPath folder)
  /\ forall names,
       Forall segment names ->
       Normalizer.parseFirefoxFolderPath (String.concat "/" names) = names.
Proof.
  split; [reflexivity|]. split; [apply parseFirefoxFolderPath_segments|].
  intros names Hall. unfold Normalizer.parseFirefoxFolderPath.
  destruct names as [|a rest]; [reflexivity|].
  rewrite split_concat.
  - apply filter_all. eapply Forall_impl; [|exact Hall].
    intros name [Hne _]. now destruct name.
  - discriminate.
  - eapply Forall_impl; [|exact Hall]. now intros name [_ H].
Qed.

Lemma parseFolderPath_segments_witness :
  Normalizer.parseFirefoxFolderPath (String.concat "/" ["Menu"; "Work"])
  = ["Menu"; "Work"]%string.
Proof.
  apply (proj2 (proj2 (parseFolderPath_segments "/Menu//Work/"))).
  repeat constructor; discriminate.
Defined.

End FolderPathFacts.

Section NormalizedRecords.

Import Normalizer FolderPath Ids.

Variable newURL : URLParser.
Variable now : Z.
Variable profilePath : string.
Variable browserType : BrowserType.

(** X20.  Every bookmark that the normalisers build carries the profile
    path it was given and its browser (Firefox, or the browser type
    given for the Chrome family); the names in its folder path are
    non-empty and hold no slash; and its tags have no white space around
    them (a Chrome bookmark has no tags). *)
Theorem normalized_bookmarks_well_formed :
  (forall rows,
     Forall (fun out =>
               UB.sourceProfile out = profilePath
               /\ UB.sourceBrowser out = FIREFOX
               /\ Forall segment (UB.folder out)
               /\ Forall (fun tag => JS.trim tag = tag) (UB.tags out))
       (normalizeFirefoxBookmarks now rows profilePath))
  /\ (forall rows,
        Forall (fun out =>
                  UB.sourceProfile out = profilePath
                  /\ UB.sourceBrowser out = browserType
                  /\ Forall segment (UB.folder out)
                  /\ UB.tags out = [])
          (normalizeChromeBookmarks rows profilePath browserType)).
Proof.
  split; intros rows.
  - unfold normalizeFirefoxBookmarks. generalize 0%nat.
    induction rows as [|row rows IH]; intros i; simpl; constructor;
      [|apply IH].
    simpl. split; [reflexivity|]. split; [reflexivity|].
    split; [apply parseFirefoxFolderPath_segments|].
    destruct (FirefoxBookmark.tags row) as [tags|]; [|constructor].
    destruct (String.eqb tags ""); [constructor|].
    apply Forall_forall. intros tag Hin.
    apply in_map_iff in Hin as (raw & <- & _). apply trim_idem.
  - unfold normalizeChromeBookmarks. generalize 0%nat.
    induction rows as [|row rows IH]; intros i; simpl; constructor;
      [|apply IH].
    simpl. split; [reflexivity|]. split; [reflexivity|].
    split; [apply parseFirefoxFolderPath_segments | reflexivity].
Qed.

(** *** Ids by position *)

Lemma decimal_injective (m n : nat) : decimal m = decimal n -> m = n.
Proof.
  unfold decimal. intros H.
  assert (Some (Nat.to_uint m) = Some (Nat.to_uint n)) as E
    by (rewrite <- !NilEmpty.usu; now rewrite H).
  injection E as E.
  rewrite <- (Unsigned.of_to m), <- (Unsigned.of_to n). now rewrite E.
Qed.

Lemma app_injective (prefix a b : string) :
  (prefix ++ a = prefix ++ b)%string -> a = b.
Proof.
  induction prefix as [|c p IH]; simpl; [auto|]. intros [= H]. auto.
Qed.

Lemma positional_ids_NoDup (prefix : string) (n : nat) :
  NoDup (positional_ids prefix n).
Proof.
  unfold positional_ids. apply NoDup_map_NoDup_ForallPairs; [|apply seq_NoDup].
  intros i j _ _ H. apply decimal_injective. eapply app_injective. exact H.
Qed.

Lemma id_or_index_missing (id : option Z) (index : nat) :
  no_number id -> id_or_index id index = decimal index.
Proof.
  intros [-> | ->]; unfold id_or_index, number_to_string; simpl;
    (destruct (Z.of_nat index <? 0) eqn:E; [apply Z.ltb_lt in E; lia|]);
    now rewrite Nat2Z.id.
Qed.

Lemma map_index_ids {A B : Type} (f : A -> nat -> B) (g : B -> string)
  (prefix : string) (ok : A -> Prop) :
  (forall x i, ok x -> g (f x i) = (prefix ++ decimal i)%string) ->
  forall l i,
    Forall ok l ->
    map g (map_index f i l)
    = map (fun index => (prefix ++ decimal index)%string)
        (seq i (List.length l)).
Proof.
  intros H l. induction l as [|x r IH]; intros i Hall; simpl; [reflexivity|].
  inversion Hall; subst. rewrite H by assumption. f_equal. now apply IH.
Qed.

(** X21.  When no row carries an id of its own (the property is missing,
    0 or empty), each normaliser numbers its records by position: the ids
    are the prefix of the record kind followed by 0, 1, 2, ..., so they are
    pairwise distinct within one call, and they do not depend on the
    profile. *)
Theorem normalized_ids_by_position :
  (forall rows,
     Forall (fun row => no_number (FirefoxBookmark.id row)) rows ->
     map UB.id (normalizeFirefoxBookmarks now rows profilePath)
     = positional_ids "ff_bm_" (List.length rows))
  /\ (forall rows,
        Forall (fun row => no_string (ChromeBookmark.id row)) rows ->
        map UB.id (normalizeChromeBookmarks rows profilePath browserType)
        = positional_ids "chr_bm_" (List.length rows))
  /\ (forall rows,
        Forall (fun row => no_number (FirefoxHistory.id row)) rows ->
        map UH.id (normalizeFirefoxHistory newURL now rows profilePath)
        = positional_ids "ff_hist_" (List.length rows))
  /\ (forall rows,
        Forall (fun row => no_number (ChromeHistory.id row)) rows ->
        map UH.id (normalizeChromeHistory newURL rows profilePath browserType)
        = positional_ids "chr_hist_" (List.length rows))
  /\ (forall rows,
        Forall (fun row => no_number (FirefoxLogin.id row)) rows ->
        map UL.id (normalizeFirefoxLogins newURL now rows profilePath)
        = positional_ids "ff_login_" (List.length rows))
  /\ (forall rows,
        Forall (fun row => no_number (ChromeLogin.id row)) rows ->
        map UL.id (normalizeChromeLogins newURL rows profilePath browserType)
        = positional_ids "chr_login_" (List.length rows))
  /\ forall prefix n, NoDup (positional_ids prefix n).
Proof.
  repeat split; try (intros prefix n; apply positional_ids_NoDup);
    intros rows Hall; unfold positional_ids.
  - apply (map_index_ids _ UB.id "ff_bm_"
             (fun row => no_number (FirefoxBookmark.id row))); [|exact Hall].
    intros row i H; simpl. now rewrite (id_or_index_missing _ i H).
  - apply (map_index_ids _ UB.id "chr_bm_"
             (fun row => no_string (ChromeBookmark.id row))); [|exact Hall].
    intros row i [E | E]; simpl; rewrite E; reflexivity.
  - apply (map_index_ids _ UH.id "ff_hist_"
             (fun row => no_number (FirefoxHistory.id row))); [|exact Hall].
    intros row i H; simpl. now rewrite (id_or_index_missing _ i H).
  - apply (map_index_ids _ UH.id "chr_hist_"
             (fun row => no_number (ChromeHistory.id row))); [|exact Hall].
    intros row i H; simpl. now rewrite (id_or_index_missing _ i H).
  - apply (map_index_ids _ UL.id "ff_login_"
             (fun row => no_number (FirefoxLogin.id row))); [|exact Hall].
    intros row i H; simpl. now rewrite (id_or_index_missing _ i H).
  - apply (map_index_ids _ UL.id "chr_login_"
             (fun row => no_number (ChromeLogin.id row))); [|exact Hall].
    intros row i H; simpl. now rewrite (id_or_index_missing _ i H).
Qed.

End NormalizedRecords.

Lemma normalized_ids_by_position_witness :
  map UniversalHistoryEntry.id
    (Normalizer.normalizeFirefoxHistory SimpleURL.parse 1700000000500
       [MoreExamples.idless_history_row; MoreExamples.idless_history_row] "/profiles/a")
  = ["ff_hist_0"; "ff_hist_1"]%string.
Proof.
  apply (proj1 (proj2 (proj2 (normalized_ids_by_position SimpleURL.parse
                                1700000000500 "/profiles/a" FIREFOX)))).
  repeat constructor; now left.
Defined.

(** ** The groups of bookmarks and logins *)

Section GroupShapes.

Import Dedup Groups.

Variable newURL : URLParser.
Variable config : DeduplicationConfig.

Lemma reduce1_In {A : Type} (f : A -> A -> A) (l : list A) (r : A) :
  (forall a b, f a b = a \/ f a b = b) ->
  reduce1 f l = Some r -> In r l.
Proof.
  intros Hf. destruct l as [|first rest]; simpl; [discriminate|].
  intros [= <-]. revert first.
  induction rest as [|x rest IH]; intros first; simpl; [now left|].
  destruct (Hf first x) as [-> | ->].
  - destruct (IH first) as [<- | H]; auto.
  - destruct (IH x) as [<- | H]; auto.
Qed.

Lemma hd_error_In {A : Type} (l : list A) (r : A) :
  hd_error l = Some r -> In r l.
Proof. destruct l; simpl; [discriminate | intros [= ->]; now left]. Qed.

Ltac pick_in :=
  first
    [ apply hd_error_In; assumption
    | eapply reduce1_In; [|eassumption]; intros a b; cbv beta;
      match goal with |- context [if ?c then _ else _] => destruct c end;
      auto ].

Lemma suggestBookmarkToKeep_In (l : list UB.t) (s : BookmarkStrategy)
  (r : UB.t) : suggestBookmarkToKeep l s = Some r -> In r l.
Proof. destruct s; simpl; intros H; pick_in. Qed.

Lemma suggestHistoryToKeep_In (l : list UH.t) (s : HistoryStrategy)
  (r : UH.t) : suggestHistoryToKeep l s = Some r -> In r l.
Proof. destruct s; simpl; intros H; pick_in. Qed.

Lemma suggestLoginToKeep_In (l : list UL.t) (s : LoginStrategy)
  (r : UL.t) : suggestLoginToKeep l s = Some r -> In r l.
Proof. destruct s; simpl; intros H; pick_in. Qed.

Lemma bookmark_group_well_formed (acc : list DuplicateGroup) (b : UB.t)
  (more : list UB.t) :
  more <> [] -> well_formed (bookmark_group newURL config acc (b :: more)).
Proof.
  intros Hne. split.
  - simpl. rewrite length_map. destruct more; [contradiction | simpl; lia].
  - cbn [suggestedKeep bookmark_group items].
    destruct (suggestBookmarkToKeep (b :: more) (bookmarkStrategy config))
      as [keep|] eqn:E.
    + exists (IBookmark keep). split; [reflexivity|].
      apply in_map. eapply suggestBookmarkToKeep_In; eauto.
    + destruct (bookmarkStrategy config); discriminate.
Qed.

Lemma history_group_well_formed (acc : list DuplicateGroup)
  (entries : list UH.t) :
  (2 <= List.length entries)%nat ->
  well_formed (history_group config acc entries).
Proof.
  intros Hlen. split.
  - simpl. now rewrite length_map.
  - cbn [suggestedKeep history_group items].
    destruct (suggestHistoryToKeep entries (historyStrategy config))
      as [keep|] eqn:E.
    + exists (IHistory keep). split; [reflexivity|].
      apply in_map. eapply suggestHistoryToKeep_In; eauto.
    + destruct entries; [simpl in Hlen; lia|].
      destruct (historyStrategy config); discriminate.
Qed.

Lemma login_group_well_formed (acc : list DuplicateGroup) (l : UL.t)
  (more : list UL.t) :
  more <> [] -> well_formed (login_group config acc l (l :: more)).
Proof.
  intros Hne. split.
  - simpl. rewrite length_map. destruct more; [contradiction | simpl; lia].
  - cbn [suggestedKeep login_group items].
    destruct (suggestLoginToKeep (l :: more) (loginStrategy config))
      as [keep|] eqn:E.
    + exists (ILogin keep). split; [reflexivity|].
      apply in_map. eapply suggestLoginToKeep_In; eauto.
    + destruct (loginStrategy config); discriminate.
Qed.

(** *** Ids are added to [processed] once *)

Lemma has_false (processed : list string) (i : string) :
  has processed i = false -> ~ In i processed.
Proof. intros H Hin. apply has_true in Hin. congruence. Qed.

Lemma NoDup_app_disjoint {A : Type} (l l' : list A) (a : A) :
  NoDup (l ++ l') -> In a l -> In a l' -> False.
Proof.
  induction l as [|x l IH]; simpl; intros Hnd Hl Hl'; [contradiction|].
  inversion Hnd as [|? ? Hx Hr]; subst. destruct Hl as [-> | Hl].
  - apply Hx. apply in_app_iff. now right.
  - now apply IH.
Qed.

(** The ids of a new group are new: with the ids of the groups so far
    they are still pairwise distinct, and they are all in [processed]. *)
Lemma fresh_members (old added processed : list string) (x : string) :
  NoDup (rev added ++ x :: processed) ->
  NoDup old -> incl old processed ->
  NoDup (old ++ x :: added)
  /\ incl (old ++ x :: added) (rev added ++ x :: processed).
Proof.
  intros Hnd Hold Hincl.
  assert (Hsplit : (rev added ++ x :: processed
                    = rev (x :: added) ++ processed)%list)
    by (simpl; now rewrite <- app_assoc).
  rewrite Hsplit in Hnd. split.
  - apply NoDup_app; [exact Hold| |].
    + rewrite <- (rev_involutive (x :: added)). apply NoDup_rev.
      now apply NoDup_app_remove_r in Hnd.
    + intros a Ha Hin. apply (NoDup_app_disjoint _ _ a Hnd).
      * now apply in_rev in Hin.
      * now apply Hincl.
  - rewrite Hsplit. intros a Ha. apply in_app_iff in Ha as [Ha | Ha].
    + apply in_app_iff. right. now apply Hincl.
    + apply in_app_iff. left. now apply in_rev in Ha.
Qed.

Lemma similar_bookmarks_spec (b : UB.t) (rest : list UB.t) :
  forall processed : list string,
    let r := similar_bookmarks newURL config b rest processed in
    snd r = (rev (map UB.id (fst r)) ++ processed)%list
    /\ (NoDup processed -> NoDup (snd r))
    /\ Forall (fun other =>
                 joins config (calculateBookmarkSimilarity newURL b other)
                 = true) (fst r).
Proof.
  induction rest as [|other rest IH]; intros processed; cbv zeta.
  - simpl. split; [reflexivity|]. split; [auto | constructor].
  - cbn [similar_bookmarks].
    destruct (has processed (UB.id other)) eqn:Hp; [apply IH|].
    destruct (joins config (calculateBookmarkSimilarity newURL b other)) eqn:Hj;
      [|apply IH].
    specialize (IH (UB.id other :: processed)). cbv zeta in IH.
    destruct (similar_bookmarks newURL config b rest (UB.id other :: processed))
      as [more processed'].
    cbn [fst snd] in *. destruct IH as (Hproc & Hnd & Hall).
    split; [|split].
    + rewrite Hproc. simpl. now rewrite <- app_assoc.
    + intros H. apply Hnd. constructor; [now apply has_false | exact H].
    + now constructor.
Qed.

Lemma same_logins_general (l : UL.t) (rest : list UL.t) :
  forall processed : list string,
    let r := same_logins l rest processed in
    snd r = (rev (map UL.id (fst r)) ++ processed)%list
    /\ (NoDup processed -> NoDup (snd r))
    /\ Forall (fun other => LoginKey.of_login other = LoginKey.of_login l)
         (fst r).
Proof.
  induction rest as [|other rest IH]; intros processed; cbv zeta.
  - simpl. split; [reflexivity|]. split; [auto | constructor].
  - cbn [same_logins].
    destruct (has processed (UL.id other)) eqn:Hp; [apply IH|].
    destruct (String.eqb (UL.domain l) (UL.domain other)
              && String.eqb (UL.username l) (UL.username other))%bool eqn:Hj;
      [|apply IH].
    specialize (IH (UL.id other :: processed)). cbv zeta in IH.
    destruct (same_logins l rest (UL.id other :: processed))
      as [more processed'].
    cbn [fst snd] in *. destruct IH as (Hproc & Hnd & Hall).
    apply Bool.andb_true_iff in Hj as [H1 H2].
    apply String.eqb_eq in H1, H2.
    split; [|split].
    + rewrite Hproc. simpl. now rewrite <- app_assoc.
    + intros H. apply Hnd. constructor; [now apply has_false | exact H].
    + constructor; [|exact Hall]. unfold LoginKey.of_login. congruence.
Qed.

Lemma concat_member_ids_snoc (acc : list DuplicateGroup) (g : DuplicateGroup) :
  List.concat (map member_ids (acc ++ [g]))
  = (List.concat (map member_ids acc) ++ member_ids g)%list.
Proof. rewrite map_app, concat_app. simpl. now rewrite app_nil_r. Qed.

Lemma bookmark_groups_shape (bookmarks : list UB.t) :
  forall (processed : list string) (acc : list DuplicateGroup),
    NoDup processed ->
    NoDup (List.concat (map member_ids acc)) ->
    incl (List.concat (map member_ids acc)) processed ->
    Forall (fun g => well_formed g /\ bookmark_shape newURL config g) acc ->
    let result := bookmark_groups newURL config bookmarks processed acc in
    NoDup (List.concat (map member_ids result))
    /\ Forall (fun g => well_formed g /\ bookmark_shape newURL config g) result.
Proof.
  induction bookmarks as [|b rest IH]; intros processed acc Hp Hids Hincl Hacc;
    cbv zeta.
  - simpl. now split.
  - cbn [bookmark_groups].
    destruct (has processed (UB.id b)) eqn:Hb; [now apply IH|].
    pose proof (similar_bookmarks_spec b rest (UB.id b :: processed)) as Hs.
    cbv zeta in Hs.
    destruct (similar_bookmarks newURL config b rest (UB.id b :: processed))
      as [more processed'].
    cbn [fst snd] in Hs. destruct Hs as (Hproc & Hnd & Hall).
    assert (Hp' : NoDup processed')
      by (apply Hnd; constructor; [now apply has_false | exact Hp]).
    destruct (fresh_members (List.concat (map member_ids acc)) (map UB.id more)
                processed (UB.id b)) as [Hnew Hnew_incl];
      [now rewrite <- Hproc | exact Hids | exact Hincl |].
    destruct (1 <? List.length (b :: more))%nat eqn:Hlen.
    + apply IH; [exact Hp' | | |].
      * rewrite concat_member_ids_snoc.
        unfold member_ids at 2. cbn [items bookmark_group].
        rewrite map_map. exact Hnew.
      * rewrite concat_member_ids_snoc.
        unfold member_ids at 2. cbn [items bookmark_group].
        rewrite map_map, Hproc. exact Hnew_incl.
      * apply Forall_app. split; [exact Hacc|].
        constructor; [|constructor]. split.
        -- apply bookmark_group_well_formed. intros ->. discriminate.
        -- split; [reflexivity|]. exists b, more. now split.
    + apply IH; [exact Hp' | exact Hids | | exact Hacc].
      intros a Ha. rewrite Hproc. apply in_app_iff. right. right.
      now apply Hincl.
Qed.

Lemma login_groups_shape (logins : list UL.t) :
  forall (processed : list string) (acc : list DuplicateGroup),
    NoDup processed ->
    NoDup (List.concat (map member_ids acc)) ->
    incl (List.concat (map member_ids acc)) processed ->
    Forall (fun g => well_formed g /\ login_shape g) acc ->
    let result := login_groups config logins processed acc in
    NoDup (List.concat (map member_ids result))
    /\ Forall (fun g => well_formed g /\ login_shape g) result.
Proof.
  induction logins as [|l rest IH]; intros processed acc Hp Hids Hincl Hacc;
    cbv zeta.
  - simpl. now split.
  - cbn [login_groups].
    destruct (has processed (UL.id l)) eqn:Hb; [now apply IH|].
    pose proof (same_logins_general l rest (UL.id l :: processed)) as Hs.
    cbv zeta in Hs.
    destruct (same_logins l rest (UL.id l :: processed))
      as [more processed'].
    cbn [fst snd] in Hs. destruct Hs as (Hproc & Hnd & Hall).
    assert (Hp' : NoDup processed')
      by (apply Hnd; constructor; [now apply has_false | exact Hp]).
    destruct (fresh_members (List.concat (map member_ids acc)) (map UL.id more)
                processed (UL.id l)) as [Hnew Hnew_incl];
      [now rewrite <- Hproc | exact Hids | exact Hincl |].
    destruct (1 <? List.length (l :: more))%nat eqn:Hlen.
    + apply IH; [exact Hp' | | |].
      * rewrite concat_member_ids_snoc.
        unfold member_ids at 2. cbn [items login_group].
        rewrite map_map. exact Hnew.
      * rewrite concat_member_ids_snoc.
        unfold member_ids at 2. cbn [items login_group].
        rewrite map_map, Hproc. exact Hnew_incl.
      * apply Forall_app. split; [exact Hacc|].
        constructor; [|constructor]. split.
        -- apply login_group_well_formed. intros ->. discriminate.
        -- split; [reflexivity|]. split; [reflexivity|].
           exists l, more. now split.
    + apply IH; [exact Hp' | exact Hids | | exact Hacc].
      intros a Ha. rewrite Hproc. apply in_app_iff. right. right.
      now apply Hincl.
Qed.

(** X22.  In the groups that [findBookmarkDuplicates] returns, every
    group is a first bookmark followed by one or more bookmarks that each
    passed the similarity test against that first one (not against each
    other), and the record suggested to keep is a member of the group.
    No id occurs twice among the members of all the groups: a bookmark is
    in one group at most, and two bookmarks with the same id are never
    reported as duplicates of each other. *)
Theorem findBookmarkDuplicates_groups (bookmarks : list UB.t) :
  NoDup (List.concat (map member_ids (findBookmarkDuplicates newURL bookmarks config)))
  /\ Forall (fun g => well_formed g /\ bookmark_shape newURL config g)
       (findBookmarkDuplicates newURL bookmarks config).
Proof.
  apply (bookmark_groups_shape bookmarks [] []); simpl;
    [constructor | constructor | intros a [] | constructor].
Qed.

(** X23.  In the groups that [findLoginDuplicates] returns, whatever the
    ids of the logins are, every group is a first login followed by one
    or more logins with its domain and user name, has confidence 0.95,
    and suggests to keep one of its members.  No id occurs twice among
    the members of all the groups, so two logins with the same id are
    never reported as duplicates of each other. *)
Theorem findLoginDuplicates_groups (logins : list UL.t) :
  NoDup (List.concat (map member_ids (findLoginDuplicates logins config)))
  /\ Forall (fun g => well_formed g /\ login_shape g)
       (findLoginDuplicates logins config).
Proof.
  apply (login_groups_shape logins [] []); simpl;
    [constructor | constructor | intros a [] | constructor].
Qed.

End GroupShapes.

(** ** The counts of the analysis *)

Section AnalysisFacts.

Import Dedup Groups.

Variable newURL : URLParser.
Variable config : DeduplicationConfig.

Lemma history_groups_well_formed (groups : list (string * list UH.t))
  (acc : list DuplicateGroup) :
  Forall (fun g => well_formed g /\ (confidence g == 1)%Q) acc ->
  Forall (fun g => well_formed g /\ (confidence g == 1)%Q)
    (fold_left (fun duplicateGroups (kv : string * list UH.t) =>
                  let entries := snd kv in
                  if (1 <? List.length entries)%nat
                  then (duplicateGroups
                          ++ [history_group config duplicateGroups entries])%list
                  else duplicateGroups)
       groups acc).
Proof.
  revert acc. induction groups as [|[k entries] others IH]; intros acc Hacc;
    cbn [fold_left snd]; [exact Hacc|].
  cbv zeta. cbn [snd].
  destruct (1 <? List.length entries)%nat eqn:Hlen; [|now apply IH].
  apply IH. apply Forall_app. split; [exact Hacc|].
  constructor; [|constructor]. split; [|reflexivity].
  apply history_group_well_formed. apply Nat.ltb_lt in Hlen. lia.
Qed.

Lemma well_formed_members (groups : list DuplicateGroup) :
  Forall well_formed groups ->
  Z.of_nat (List.length groups) <= members_beyond_first groups.
Proof.
  induction 1 as [|g gs [Hg _] _ IH]; simpl; lia.
Qed.

Lemma filter_length_le {A : Type} (p : A -> bool) (l : list A) :
  (List.length (filter p l) <= List.length l)%nat.
Proof. induction l as [|x l IH]; simpl; [lia|]. destruct (p x); simpl; lia. Qed.

Lemma filter_true {A : Type} (p : A -> bool) (l : list A) :
  (forall x, In x l -> p x = true) -> filter p l = l.
Proof.
  intros H. apply filter_all. apply Forall_forall. exact H.
Qed.

Lemma ltb_high (c : Q) : (0.9 <= c)%Q -> ltb c 0.9 = false.
Proof.
  intros H. unfold ltb. apply Bool.negb_false_iff. now apply Qle_bool_iff.
Qed.

(** X24.  In the result of [analyzeDataset] every group has two members
    or more and suggests to keep one of them, so [potentialMerges] is at
    least the number of groups.  [requiresUserReview] lies between 0 and
    the number of groups; it is the number of groups when
    [autoApproveHighConfidence] is off, and when it is on only bookmark
    groups can need a review: history groups (confidence 1) and login
    groups (confidence 0.95) never do. *)
Theorem analyzeDataset_review_counts (dataset : NormalizedDataSet) :
  let result := analyzeDataset newURL dataset config in
  let groups := Z.of_nat (List.length (duplicateGroups result)) in
  Forall well_formed (duplicateGroups result)
  /\ groups <= potentialMerges result
  /\ 0 <= requiresUserReview result <= groups
  /\ (autoApproveHighConfidence config = false ->
      requiresUserReview result = groups)
  /\ (autoApproveHighConfidence config = true ->
      requiresUserReview result
      = Z.of_nat
          (List.length
             (filter (fun g => ltb (confidence g) 0.9%Q)
                (findBookmarkDuplicates newURL (bookmarks dataset) config)))).
Proof.
  cbv zeta. unfold analyzeDataset.
  cbn [duplicateGroups potentialMerges requiresUserReview app].
  set (B := findBookmarkDuplicates newURL (bookmarks dataset) config).
  set (H := findHistoryDuplicates newURL (history dataset) config).
  set (L := findLoginDuplicates (logins dataset) config).
  assert (HB : Forall well_formed B).
  { eapply Forall_impl;
      [|apply (bookmark_groups_shape newURL config (bookmarks dataset) [] []);
        simpl; [constructor | constructor | intros a [] | constructor]].
    now intros g [Hg _]. }
  assert (HH : Forall (fun g => well_formed g /\ (confidence g == 1)%Q) H).
  { apply history_groups_well_formed. constructor. }
  assert (HL : Forall (fun g => well_formed g /\ login_shape g) L)
    by (apply (login_groups_shape config (logins dataset) [] []); simpl;
        [constructor | constructor | intros a [] | constructor]).
  assert (Hall : Forall well_formed ((B ++ H) ++ L)).
  { apply Forall_app. split; [apply Forall_app; split|].
    - exact HB.
    - eapply Forall_impl; [|exact HH]. now intros g [Hg _].
    - eapply Forall_impl; [|exact HL]. now intros g [Hg _]. }
  split; [exact Hall|]. split; [|split; [|split]].
  - rewrite fold_left_members. pose proof (well_formed_members _ Hall). lia.
  - pose proof (filter_length_le
                  (fun group =>
                     (ltb (confidence group) 0.9%Q
                      || negb (autoApproveHighConfidence config))%bool)
                  ((B ++ H) ++ L)).
    lia.
  - intros Hoff. rewrite Hoff. f_equal. f_equal. apply filter_true.
    intros g _. apply Bool.orb_true_r.
  - intros Hon. rewrite Hon. f_equal.
    rewrite !filter_app, !length_app.
    assert (HH0 : filter (fun group =>
                            (ltb (confidence group) 0.9%Q || negb true)%bool) H
                  = []).
    { apply filter_none. intros g Hg. rewrite Forall_forall in HH.
      destruct (HH g Hg) as [_ Hc]. rewrite Bool.orb_false_r.
      apply ltb_high. rewrite Hc. discriminate. }
    assert (HL0 : filter (fun group =>
                            (ltb (confidence group) 0.9%Q || negb true)%bool) L
                  = []).
    { apply filter_none. intros g Hg. rewrite Forall_forall in HL.
      destruct (HL g Hg) as [_ (_ & Hc & _)]. rewrite Bool.orb_false_r.
      apply ltb_high. rewrite Hc. discriminate. }
    rewrite HH0, HL0. simpl. rewrite !Nat.add_0_r. f_equal.
    apply filter_ext. intros g. apply Bool.orb_false_r.
Qed.

End AnalysisFacts.

Lemma analyzeDataset_review_counts_witness :
  Dedup.requiresUserReview
    (Dedup.analyzeDataset SimpleURL.parse MoreExamples.small_dataset
       Examples.default_config)
  = Z.of_nat
      (List.length
         (filter (fun g => Dedup.ltb (Dedup.confidence g) 0.9%Q)
            (Dedup.findBookmarkDuplicates SimpleURL.parse
               (bookmarks MoreExamples.small_dataset)
               Examples.default_config))).
Proof.
  apply (analyzeDataset_review_counts SimpleURL.parse Examples.default_config
           MoreExamples.small_dataset).
  reflexivity.
Defined.

(** ** TabSynthesizer *)

Section TabFacts.

Import Tabs.

(** *** Counting URLs *)

Lemma bump_keys (url : string) (urlCounts : list (string * Z)) :
  map fst (bump url urlCounts) = Set_add (map fst urlCounts) url.
Proof.
  unfold Set_add. induction urlCounts as [|[k c] others IH]; [reflexivity|].
  cbn [bump map fst]. rewrite has_cons, (String.eqb_sym url k).
  destruct (String.eqb k url); cbn [orb map fst]; [reflexivity|].
  rewrite IH. now destruct (Dedup.has (map fst others) url).
Qed.

Lemma bump_sum (url : string) (urlCounts : list (string * Z)) :
  fold_right Z.add 0 (map snd (bump url urlCounts))
  = fold_right Z.add 0 (map snd urlCounts) + 1.
Proof.
  induction urlCounts as [|[k c] others IH]; [reflexivity|].
  cbn [bump]. destruct (String.eqb k url); cbn [map snd fold_right].
  - unfold JS.or_number. destruct (Z.eqb_spec c 0); lia.
  - rewrite IH. lia.
Qed.

Lemma bump_positive (url : string) (urlCounts : list (string * Z)) :
  Forall (fun c => 1 <= c) (map snd urlCounts) ->
  Forall (fun c => 1 <= c) (map snd (bump url urlCounts)).
Proof.
  induction urlCounts as [|[k c] others IH]; intros H.
  - repeat constructor. simpl. lia.
  - inversion H; subst. cbn [bump].
    destruct (String.eqb k url); cbn [map snd]; constructor; auto.
    unfold JS.or_number. simpl in *. destruct (Z.eqb_spec c 0); lia.
Qed.

Lemma count_urls_spec (tabs : list UnifiedTab.t) :
  forall urlCounts,
    Forall (fun c => 1 <= c) (map snd urlCounts) ->
    let counts :=
      fold_left (fun urlCounts tab => bump (UnifiedTab.url tab) urlCounts)
        tabs urlCounts in
    map fst counts
    = fold_left Set_add (map UnifiedTab.url tabs) (map fst urlCounts)
    /\ fold_right Z.add 0 (map snd counts)
       = fold_right Z.add 0 (map snd urlCounts) + Z.of_nat (List.length tabs)
    /\ Forall (fun c => 1 <= c) (map snd counts).
Proof.
  induction tabs as [|tab tabs IH]; intros urlCounts Hpos; cbv zeta.
  - simpl. split; [reflexivity|]. split; [lia | exact Hpos].
  - cbn [fold_left map List.length].
    destruct (IH (bump (UnifiedTab.url tab) urlCounts)
                (bump_positive _ _ Hpos)) as (H1 & H2 & H3).
    rewrite H1, H2, bump_keys, bump_sum.
    split; [reflexivity|]. split; [lia | exact H3].
Qed.

Lemma duplicates_sum (counts : list Z) (duplicates : Z) :
  Forall (fun c => 1 <= c) counts ->
  fold_left (fun duplicates count =>
               if count >? 1 then duplicates + (count - 1) else duplicates)
    counts duplicates
  = duplicates + fold_right Z.add 0 counts - Z.of_nat (List.length counts).
Proof.
  intros H. revert duplicates.
  induction H as [|c counts Hc _ IH]; intros duplicates;
    cbn [fold_left fold_right List.length]; [lia|].
  rewrite IH. destruct (Z.gtb_spec c 1); lia.
Qed.

(** Duplicates and distinct URLs add up to the number of tabs. *)
Lemma findDuplicateTabs_unique (tabs : list UnifiedTab.t) :
  findDuplicateTabs tabs
  + Z.of_nat (List.length (Set_of (map UnifiedTab.url tabs)))
  = Z.of_nat (List.length tabs)
  /\ 0 <= findDuplicateTabs tabs.
Proof.
  unfold findDuplicateTabs, count_urls, Set_of.
  destruct (count_urls_spec tabs [] (Forall_nil _)) as (H1 & H2 & H3).
  cbv zeta in *. cbn [map fold_right] in *.
  rewrite (duplicates_sum _ 0 H3), H2, <- H1, !length_map.
  split; [lia|].
  assert (Z.of_nat (List.length
                      (fold_left
                         (fun urlCounts tab => bump (UnifiedTab.url tab) urlCounts)
                         tabs []))
          <= fold_right Z.add 0
               (map snd
                  (fold_left
                     (fun urlCounts tab => bump (UnifiedTab.url tab) urlCounts)
                     tabs []))).
  { clear H1 H2. rewrite <- (length_map snd).
    induction H3 as [|c cs Hc _ IH]; cbn [fold_right List.length]; lia. }
  lia.
Qed.

(** *** Window groups *)

Lemma Z_eqb_spec (a b : Z) : Z.eqb a b = true <-> a = b.
Proof. apply Z.eqb_eq. Qed.

Lemma groupTabsByWindow_grouped (tabs : list UnifiedTab.t) :
  Grouping.grouped Z.eqb window_of (groupTabsByWindow tabs) tabs.
Proof.
  apply (fold_group_into_grouped Z.eqb Z_eqb_spec window_of tabs [] []).
  apply grouped_nil.
Qed.

Lemma group_into_sizes {K A : Type} (eqb : K -> K -> bool) (k : K) (x : A)
  (groups : list (K * list A)) :
  List.length (List.concat (map snd (Grouping.group_into eqb k x groups)))
  = S (List.length (List.concat (map snd groups))).
Proof.
  induction groups as [|[k' xs] others IH]; [reflexivity|].
  cbn [Grouping.group_into]. destruct (eqb k' k); cbn [map snd List.concat].
  - rewrite !length_app. simpl. lia.
  - rewrite !length_app, IH. lia.
Qed.

Lemma groupTabsByWindow_sizes (tabs : list UnifiedTab.t) :
  List.length (List.concat (map snd (groupTabsByWindow tabs)))
  = List.length tabs.
Proof.
  unfold groupTabsByWindow.
  assert (H : forall groups,
             List.length
               (List.concat
                  (map snd
                     (fold_left
                        (fun windowGroups tab =>
                           Grouping.group_into Z.eqb (window_of tab) tab
                             windowGroups) tabs groups)))
             = (List.length (List.concat (map snd groups))
                + List.length tabs)%nat).
  { induction tabs as [|tab tabs IH]; intros groups; cbn [fold_left];
      [simpl; lia|].
    rewrite IH, group_into_sizes. simpl. lia. }
  now rewrite H.
Qed.

(** *** The synthesis *)

Lemma gather_step (now : Z) (state : Gathered) (backup : TabBackup.t) :
  allTabs (gather now state backup)
  = (allTabs state ++ readable_tabs backup)%list
  /\ List.length (gathered (gather now state backup))
     = (List.length (gathered state)
        + List.length (filter readable [backup]))%nat
  /\ List.length (errors (gather now state backup))
     = (List.length (errors state)
        + List.length (filter (fun b => negb (readable b)) [backup]))%nat
  /\ forall Q : TabCollection.t -> Prop,
       (forall tabs id name description created modified sources,
          Q (TabCollection.mk id name description tabs created modified
               sources (Z.of_nat (List.length tabs))
               (groupTabsByWindow tabs))) ->
       Forall Q (gathered state) -> Forall Q (gathered (gather now state backup)).
Proof.
  unfold gather, readable_tabs, readable. cbn [filter].
  destruct (TabBackup.rawData backup) as [raw|];
    cbn [allTabs gathered errors negb List.length].
  - rewrite length_app. cbn [List.length].
    split; [reflexivity|]. split; [lia|]. split; [lia|].
    intros Q HQ Hstate. apply Forall_app. split; [exact Hstate|].
    constructor; [apply HQ | constructor].
  - rewrite length_app, app_nil_r. cbn [List.length].
    split; [reflexivity|]. split; [lia|]. split; [lia|].
    intros Q HQ Hstate. exact Hstate.
Qed.

Lemma gather_fold (now : Z) (backups : list TabBackup.t) :
  forall state,
    let final := fold_left (gather now) backups state in
    allTabs final
    = (allTabs state ++ List.concat (map readable_tabs backups))%list
    /\ List.length (gathered final)
       = (List.length (gathered state)
          + List.length (filter readable backups))%nat
    /\ List.length (errors final)
       = (List.length (errors state)
          + List.length (filter (fun b => negb (readable b)) backups))%nat
    /\ forall Q : TabCollection.t -> Prop,
         (forall tabs id name description created modified sources,
            Q (TabCollection.mk id name description tabs created modified
                 sources (Z.of_nat (List.length tabs))
                 (groupTabsByWindow tabs))) ->
         Forall Q (gathered state) -> Forall Q (gathered final).
Proof.
  induction backups as [|backup backups IH]; intros state; cbv zeta.
  - simpl. rewrite app_nil_r, !Nat.add_0_r. repeat split; auto.
  - cbn [fold_left].
    destruct (IH (gather now state backup)) as (H1 & H2 & H3 & H4).
    destruct (gather_step now state backup) as (G1 & G2 & G3 & G4).
    cbv zeta in *. rewrite H1, H2, H3, G1, G2, G3. clear H1 H2 H3 G1 G2 G3.
    cbn [map List.concat filter].
    split; [now rewrite app_assoc|].
    split; [destruct (readable backup); cbn [List.length]; lia|].
    split; [destruct (readable backup); cbn [negb List.length]; lia|].
    intros Q HQ Hstate. apply (H4 Q HQ). now apply G4.
Qed.

(** X25.  The numbers of a synthesis add up: [duplicateTabs] plus
    [uniqueUrls] is [totalTabs], which is the number of tabs of the
    backups whose [rawData] could be read; every backup gives either a
    collection or one processing error; and when more than one backup was
    read, one more collection, the unified one, comes first and holds all
    the tabs in the order of the backups (its [sourceBackups] names every
    backup, the unreadable ones too). *)
Theorem synthesizeTabBackups_accounting (now : Z) (backups : list TabBackup.t) :
  let result := synthesizeTabBackups now backups in
  let read := List.length (filter readable backups) in
  duplicateTabs result + uniqueUrls result = totalTabs result
  /\ 0 <= duplicateTabs result
  /\ totalTabs result
     = Z.of_nat (List.length (List.concat (map readable_tabs backups)))
  /\ (read + List.length (processingErrors result) = List.length backups)%nat
  /\ List.length (collections result)
     = (if (1 <? read)%nat then S read else read)
  /\ ((1 < read)%nat ->
      exists unified others,
        collections result = unified :: others
        /\ TabCollection.tabs unified
           = List.concat (map readable_tabs backups)
        /\ TabCollection.sourceBackups unified = map TabBackup.source backups).
Proof.
  cbv zeta. unfold synthesizeTabBackups.
  destruct (gather_fold now backups (mkGathered [] [] []))
    as (H1 & H2 & H3 & _).
  cbv zeta in *. cbn [allTabs gathered errors List.length app Nat.add] in *.
  cbn [duplicateTabs uniqueUrls totalTabs processingErrors collections].
  rewrite H1, H2, H3.
  destruct (findDuplicateTabs_unique (List.concat (map readable_tabs backups)))
    as [Hsum Hpos].
  split; [exact Hsum|]. split; [exact Hpos|]. split; [reflexivity|].
  split; [|split].
  - clear. induction backups as [|b bs IH]; simpl; [reflexivity|].
    destruct (readable b); simpl; lia.
  - destruct (1 <? List.length (filter readable backups))%nat;
      cbn [List.length]; now rewrite H2.
  - intros Hread. apply Nat.ltb_lt in Hread. rewrite Hread.
    eexists; eexists. split; [reflexivity|]. split; reflexivity.
Qed.

(** X26.  In every collection of a synthesis the window groups split the
    tabs of the collection by window: the window ids of the groups are
    pairwise distinct, each group lists, in order, exactly the tabs of the
    collection with that window id and is not empty, every tab is in the
    group of its window (a tab without window id in that of window 0),
    and the sizes of the groups add up to [totalTabs]. *)
Theorem synthesizeTabBackups_window_groups (now : Z)
  (backups : list TabBackup.t) :
  Forall (fun collection =>
            Grouping.grouped Z.eqb window_of
              (TabCollection.windowGroups collection)
              (TabCollection.tabs collection)
            /\ TabCollection.totalTabs collection
               = Z.of_nat (List.length (TabCollection.tabs collection))
            /\ List.length
                 (List.concat (map snd (TabCollection.windowGroups collection)))
               = List.length (TabCollection.tabs collection))
    (collections (synthesizeTabBackups now backups)).
Proof.
  unfold synthesizeTabBackups. cbn [collections].
  destruct (gather_fold now backups (mkGathered [] [] []))
    as (_ & _ & _ & H4).
  cbv zeta in H4.
  match goal with
  | |- Forall ?Q _ =>
      assert (Hg : Forall Q
                     (gathered (fold_left (gather now) backups
                                  (mkGathered [] [] []))))
  end.
  { apply H4; [|constructor].
    intros tabs id name description created modified sources.
    cbn [TabCollection.windowGroups TabCollection.tabs TabCollection.totalTabs].
    split; [apply groupTabsByWindow_grouped|].
    split; [reflexivity | apply groupTabsByWindow_sizes]. }
  destruct (1 <? _)%nat; [|exact Hg].
  constructor; [|exact Hg].
  cbn [TabCollection.windowGroups TabCollection.tabs TabCollection.totalTabs].
  split; [apply groupTabsByWindow_grouped|].
  split; [reflexivity | apply groupTabsByWindow_sizes].
Qed.

(** *** Parsing a Tab Manager Plus export *)

Lemma positional_ids_S (prefix : string) (n : nat) :
  Ids.positional_ids prefix (S n)
  = (Ids.positional_ids prefix n ++ [(prefix ++ decimal n)%string])%list.
Proof.
  unfold Ids.positional_ids. now rewrite seq_S, map_app.
Qed.

Lemma fold_left_invariant {S X : Type} (P : S -> Prop) (f : S -> X -> S)
  (l : list X) :
  (forall s x, P s -> P (f s x)) -> forall s, P s -> P (fold_left f l s).
Proof.
  intros Hf. induction l as [|x l IH]; intros s Hs; simpl; auto.
Qed.

Lemma or_string_not_empty (a : option string) (b : string) :
  b <> EmptyString -> JS.or_string a b <> EmptyString.
Proof.
  intros Hb. unfold JS.or_string. destruct a as [s|]; [|exact Hb].
  destruct (String.eqb_spec s ""); [exact Hb | assumption].
Qed.

Lemma push_tab_invariant (now : Z) (fileName : string)
  (data : TabManagerData.t) (window : RawWindow.t) (state : Parsed)
  (tab : RawTab.t) :
  let ok state :=
    tabIndex state = List.length (parsed_tabs state)
    /\ map UnifiedTab.id (parsed_tabs state)
       = Ids.positional_ids "tabmanager_" (List.length (parsed_tabs state))
    /\ Forall (fun t => UnifiedTab.title t <> EmptyString
                        /\ UnifiedTab.sourceBackup t = fileName)
         (parsed_tabs state) in
  ok state -> ok (push_tab now fileName data window state tab).
Proof.
  cbv zeta. intros (Hi & Hids & Hall). unfold push_tab.
  cbn [tabIndex parsed_tabs].
  rewrite length_app, map_app, Nat.add_1_r, positional_ids_S, Hids, Hi.
  split; [reflexivity|]. split; [reflexivity|].
  apply Forall_app. split; [exact Hall|].
  constructor; [|constructor]. split; [|reflexivity].
  apply or_string_not_empty. discriminate.
Qed.

Lemma push_window_windows (now : Z) (fileName : string)
  (data : TabManagerData.t) (window : RawWindow.t) (tabs : list RawTab.t) :
  forall state,
    map UnifiedTab.windowId
      (parsed_tabs (fold_left (push_tab now fileName data window) tabs state))
    = (map UnifiedTab.windowId (parsed_tabs state)
       ++ map (fun _ => RawWindow.id window) tabs)%list.
Proof.
  induction tabs as [|tab tabs IH]; intros state; cbn [fold_left map].
  - now rewrite app_nil_r.
  - rewrite IH. unfold push_tab at 1. cbn [parsed_tabs].
    rewrite map_app, <- app_assoc. reflexivity.
Qed.

(** X27.  [parseTabManagerPlusBackup], once the export has been parsed as
    JSON: the backup holds one tab for every tab of every window, in
    order, each with the id of its window; the ids of the tabs are
    tabmanager_0, tabmanager_1, ... by position, so they are pairwise
    distinct; no title is empty; [tabCount] is the number of tabs; and a
    synthesis of this backup alone reports no error, [tabCount] tabs and
    one collection. *)
Theorem parseTabManagerPlusBackup_tabs (now : Z) (data : TabManagerData.t)
  (fileName : string) :
  let backup := parseTabManagerPlusBackup now data fileName in
  let tabs := readable_tabs backup in
  TabBackup.tabCount backup = Z.of_nat (List.length tabs)
  /\ map UnifiedTab.windowId tabs
     = List.concat
         (map (fun window =>
                 map (fun _ => RawWindow.id window)
                   (or_empty (RawWindow.tabs window)))
            (or_empty (TabManagerData.windows data)))
  /\ map UnifiedTab.id tabs
     = Ids.positional_ids "tabmanager_" (List.length tabs)
  /\ NoDup (map UnifiedTab.id tabs)
  /\ Forall (fun t => UnifiedTab.title t <> EmptyString
                      /\ UnifiedTab.sourceBackup t = fileName) tabs
  /\ forall later,
       let result := synthesizeTabBackups later [backup] in
       processingErrors result = []
       /\ totalTabs result = TabBackup.tabCount backup
       /\ List.length (collections result) = 1%nat.
Proof.
  cbv zeta. unfold parseTabManagerPlusBackup, readable_tabs.
  cbn [TabBackup.rawData TabBackup.tabCount RawData.tabs or_empty].
  set (final := fold_left (push_window now fileName data)
                  (or_empty (TabManagerData.windows data)) (mkParsed [] 0)).
  assert (Hok : tabIndex final = List.length (parsed_tabs final)
                /\ map UnifiedTab.id (parsed_tabs final)
                   = Ids.positional_ids "tabmanager_"
                       (List.length (parsed_tabs final))
                /\ Forall (fun t => UnifiedTab.title t <> EmptyString
                                    /\ UnifiedTab.sourceBackup t = fileName)
                     (parsed_tabs final)).
  { subst final. apply fold_left_invariant.
    - intros state window Hstate. unfold push_window.
      apply fold_left_invariant; [|exact Hstate].
      intros s tab. apply push_tab_invariant.
    - repeat split; constructor. }
  destruct Hok as (_ & Hids & Hall).
  split; [reflexivity|]. split; [|split; [exact Hids|split; [|split]]].
  - subst final.
    assert (H : forall windows state,
               map UnifiedTab.windowId
                 (parsed_tabs (fold_left (push_window now fileName data)
                                 windows state))
               = (map UnifiedTab.windowId (parsed_tabs state)
                  ++ List.concat
                       (map (fun window =>
                               map (fun _ => RawWindow.id window)
                                 (or_empty (RawWindow.tabs window)))
                          windows))%list).
    { induction windows as [|w ws IH]; intros state;
        cbn [fold_left map List.concat]; [now rewrite app_nil_r|].
      rewrite IH. unfold push_window at 1.
      rewrite push_window_windows, <- app_assoc. reflexivity. }
    now rewrite H.
  - rewrite Hids. apply positional_ids_NoDup.
  - exact Hall.
  - intros later. unfold synthesizeTabBackups.
    cbn [fold_left gather TabBackup.rawData RawData.tabs or_empty allTabs
         gathered errors app List.length Nat.ltb Nat.leb processingErrors
         totalTabs collections].
    repeat split.
Qed.

End TabFacts.

Lemma synthesizeTabBackups_accounting_witness :
  exists unified others,
    Tabs.collections
      (Tabs.synthesizeTabBackups 1700000001000 MoreExamples.two_backups)
    = unified :: others
    /\ Tabs.TabCollection.tabs unified
       = List.concat (map Tabs.readable_tabs MoreExamples.two_backups)
    /\ Tabs.TabCollection.sourceBackups unified
       = map Tabs.TabBackup.source MoreExamples.two_backups.
Proof.
  apply (synthesizeTabBackups_accounting 1700000001000
           MoreExamples.two_backups).
  simpl. lia.
Defined.


(** ** Confidence of bookmark groups, and ids shared between profiles *)

Section BookmarkConfidence.

Import Dedup Groups.

Variable newURL : URLParser.
Variable config : DeduplicationConfig.

Lemma bookmark_groups_Forall (Q : DuplicateGroup -> Prop) :
  (forall acc b more,
     more <> [] ->
     Forall (fun other =>
               joins config (calculateBookmarkSimilarity newURL b other) = true)
       more ->
     Q (bookmark_group newURL config acc (b :: more))) ->
  forall bookmarks processed acc,
    Forall Q acc ->
    Forall Q (bookmark_groups newURL config bookmarks processed acc).
Proof.
  intros HQ bookmarks.
  induction bookmarks as [|b rest IH]; intros processed acc Hacc;
    [exact Hacc|].
  cbn [bookmark_groups].
  destruct (has processed (UB.id b)); [now apply IH|].
  pose proof (similar_bookmarks_spec newURL config b rest
                (UB.id b :: processed)) as Hs.
  cbv zeta in Hs.
  destruct (similar_bookmarks newURL config b rest (UB.id b :: processed))
    as [more processed'].
  cbn [fst snd] in Hs. destruct Hs as (_ & _ & Hall).
  destruct (1 <? List.length (b :: more))%nat eqn:Hlen; [|now apply IH].
  apply IH. apply Forall_app. split; [exact Hacc|].
  constructor; [|constructor]. apply HQ; [|exact Hall].
  intros ->. discriminate.
Qed.

Lemma Qle_bool_true (a b : Q) : Qle_bool a b = true -> (a <= b)%Q.
Proof. apply Qle_bool_iff. Qed.

Lemma Qle_bool_false (a b : Q) : Qle_bool a b = false -> (b <= a)%Q.
Proof.
  intros H. destruct (Qlt_le_dec b a) as [Hlt | Hle].
  - now apply Qlt_le_weak.
  - apply Qle_bool_iff in Hle. congruence.
Qed.

Lemma max_bounds (a b : Q) :
  (a <= max a b)%Q /\ (b <= max a b)%Q
  /\ (max a b = a \/ max a b = b).
Proof.
  unfold max. destruct (Qle_bool a b) eqn:E.
  - apply Qle_bool_true in E. repeat split; auto. apply Qle_refl.
  - apply Qle_bool_false in E. repeat split; auto. apply Qle_refl.
Qed.

Lemma similarity_range (b o : UB.t) :
  let similarity := calculateBookmarkSimilarity newURL b o in
  (0 <= sim_url similarity)%Q /\ (sim_url similarity <= 1)%Q
  /\ (0 <= sim_title similarity)%Q /\ (sim_title similarity <= 1)%Q.
Proof.
  cbv zeta. cbn [calculateBookmarkSimilarity sim_url sim_title].
  destruct (calculateStringSimilarity_range (UB.title b) (UB.title o)).
  assert ((0 <= calculateUrlSimilarity newURL (UB.url b) (UB.url o))%Q
          /\ (calculateUrlSimilarity newURL (UB.url b) (UB.url o) <= 1)%Q).
  { unfold calculateUrlSimilarity.
    destruct (String.eqb _ _); [split; unfold Qle; simpl; lia|].
    destruct (String.eqb _ _); [split; unfold Qle; simpl; lia|].
    destruct (_ || _)%bool; [split; unfold Qle; simpl; lia|].
    apply calculateStringSimilarity_range. }
  tauto.
Qed.

(** X28.  The confidence of every group that [findBookmarkDuplicates]
    returns lies between 0 and 1.  For a group of two bookmarks it is the
    greater of their URL similarity and their title similarity, and it
    reaches the URL threshold or the title threshold of the
    configuration.  For a group of three or more it is 0.8 whatever the
    bookmarks are, which is below 0.9: such a group is never approved
    automatically. *)
Theorem findBookmarkDuplicates_confidence (bookmarks : list UB.t) :
  Forall (fun g =>
            (0 <= confidence g)%Q /\ (confidence g <= 1)%Q
            /\ (forall first other,
                  items g = [IBookmark first; IBookmark other] ->
                  confidence g
                  = max (calculateUrlSimilarity newURL (UB.url first)
                           (UB.url other))
                      (calculateStringSimilarity (UB.title first)
                         (UB.title other))
                  /\ ((urlSimilarityThreshold config <= confidence g)%Q
                      \/ (titleSimilarityThreshold config <= confidence g)%Q))
            /\ ((2 < List.length (items g))%nat ->
                confidence g = 0.8%Q /\ ltb (confidence g) 0.9%Q = true))
    (findBookmarkDuplicates newURL bookmarks config).
Proof.
  apply bookmark_groups_Forall; [|constructor].
  intros acc b more Hne Hall.
  cbn [bookmark_group confidence items].
  destruct more as [|o [|o' more]]; [contradiction| |].
  - (* a pair *)
    cbn [map calculateGroupConfidence].
    destruct (similarity_range b o) as (U0 & U1 & T0 & T1).
    destruct (max_bounds
                (sim_url (calculateBookmarkSimilarity newURL b o))
                (sim_title (calculateBookmarkSimilarity newURL b o)))
      as (Mu & Mt & Mc).
    split; [eapply Qle_trans; eauto|].
    split; [destruct Mc as [-> | ->]; assumption|].
    split; [|cbn [List.length]; lia].
    intros first other [= <- <-]. split; [reflexivity|].
    inversion Hall as [|? ? Hj _]; subst. unfold joins in Hj.
    apply Bool.orb_true_iff in Hj as [Hj | Hj].
    + left. apply Qle_bool_true in Hj. eapply Qle_trans; eauto.
    + right. apply Bool.andb_true_iff in Hj as [Hj _].
      apply Qle_bool_true in Hj. eapply Qle_trans; eauto.
  - (* three or more *)
    cbn [map calculateGroupConfidence].
    split; [discriminate|]. split; [discriminate|].
    split; [intros first other H; discriminate H|].
    intros _. split; reflexivity.
Qed.

End BookmarkConfidence.

Section SharedIds.

Import Dedup Groups Normalizer Ids.

Variable newURL : URLParser.
Variable config : DeduplicationConfig.

Lemma nth_error_map_index {A B : Type} (f : A -> nat -> B) (l : list A) :
  forall start i,
    nth_error (map_index f start l) i
    = option_map (fun x => f x (start + i)%nat) (nth_error l i).
Proof.
  induction l as [|x r IH]; intros start [|i]; simpl; try reflexivity.
  - now rewrite Nat.add_0_r.
  - rewrite IH. now rewrite Nat.add_succ_r.
Qed.

Lemma all_member_ids_NoDup (logins : list UL.t) :
  NoDup (map item_id
           (List.concat (map items (findLoginDuplicates logins config)))).
Proof.
  rewrite concat_map, map_map.
  apply (login_groups_shape config logins [] []); simpl;
    [constructor | constructor | intros a [] | constructor].
Qed.

(** X29.  Ids given by position are shared between profiles, and records
    that share an id are never grouped: take the Chrome logins of two
    different profiles, normalised from rows without ids of their own, one
    list after the other.  The logins at the same position of the two
    lists have the same id, and [findLoginDuplicates] never reports both
    of them, in one group or in two, even when their domain and user
    name are the same. *)
Theorem logins_at_same_position_never_grouped
  (rows1 rows2 : list ChromeLogin.t) (path1 path2 : string)
  (browser1 browser2 : BrowserType) (position : nat) (a b : UL.t) :
  Forall (fun row => no_number (ChromeLogin.id row)) rows1 ->
  Forall (fun row => no_number (ChromeLogin.id row)) rows2 ->
  path1 <> path2 ->
  nth_error (normalizeChromeLogins newURL rows1 path1 browser1) position
  = Some a ->
  nth_error (normalizeChromeLogins newURL rows2 path2 browser2) position
  = Some b ->
  UL.id a = UL.id b
  /\ forall g1 g2,
       let groups :=
         findLoginDuplicates
           (normalizeChromeLogins newURL rows1 path1 browser1
              ++ normalizeChromeLogins newURL rows2 path2 browser2)%list
           config in
       In g1 groups -> In g2 groups ->
       In (ILogin a) (items g1) -> In (ILogin b) (items g2) -> False.
Proof.
  intros Hrows1 Hrows2 Hpaths Ha Hb.
  unfold normalizeChromeLogins in Ha, Hb.
  rewrite nth_error_map_index in Ha, Hb.
  destruct (nth_error rows1 position) as [row1|] eqn:E1; [|discriminate].
  destruct (nth_error rows2 position) as [row2|] eqn:E2; [|discriminate].
  cbn [option_map] in Ha, Hb.
  injection Ha as <-. injection Hb as <-.
  rewrite Forall_forall in Hrows1, Hrows2.
  assert (Hid : id_or_index (ChromeLogin.id row1) position
                = id_or_index (ChromeLogin.id row2) position).
  { rewrite !id_or_index_missing; [reflexivity | apply Hrows2 | apply Hrows1];
      eapply nth_error_In; eauto. }
  split.
  - cbn [UL.id Nat.add]. now rewrite Hid.
  - intros g1 g2 groups Hg1 Hg2 Hin1 Hin2.
    match type of Hin1 with
    | In ?x _ =>
        match type of Hin2 with
        | In ?y _ => assert (Heq : x = y)
        end
    end.
    { apply (NoDup_map_injective item_id
               (List.concat (map items groups)) _ _
               (all_member_ids_NoDup _)).
      - apply in_concat. exists (items g1). split; [|exact Hin1].
        now apply in_map.
      - apply in_concat. exists (items g2). split; [|exact Hin2].
        now apply in_map.
      - cbn [item_id UL.id Nat.add]. now rewrite Hid. }
    injection Heq. intros. contradiction.
Qed.

End SharedIds.

Lemma logins_at_same_position_never_grouped_witness :
  UniversalLogin.id
    (UniversalLogin.mk "chr_login_0" "https://example.com/login"
       "example.com" "alice" "[ENCRYPTED]" (Some 13300000000000)
       (Some 13300000000000) None "/profiles/a" CHROME None None None 3)
  = UniversalLogin.id
      (UniversalLogin.mk "chr_login_0" "https://example.com/login"
         "example.com" "alice" "[ENCRYPTED]" (Some 13300000000000)
         (Some 13300000000000) None "/profiles/b" EDGE None None None 3).
Proof.
  refine (proj1 (logins_at_same_position_never_grouped SimpleURL.parse
                   Examples.default_config
                   [MoreExamples.idless_login_row]
                   [MoreExamples.idless_login_row]
                   "/profiles/a" "/profiles/b" CHROME EDGE 0 _ _ _ _ _ _ _)).
  - constructor; [now left | constructor].
  - constructor; [now left | constructor].
  - discriminate.
  - reflexivity.
  - reflexivity.
Defined.

(** ** A merge invents nothing *)

Section SourcedLoops.

Import Merge.

Lemma for_of_invariant_In {A S : Type} (arr : S -> list A)
  (body : A -> S -> S) (P : S -> Prop) :
  (forall a s, P s -> In a (arr s) -> P (body a s)) ->
  forall fuel i s s', P s -> for_of fuel arr body i s = Some s' -> P s'.
Proof.
  intros Hb fuel. induction fuel as [|fuel IH]; intros i s s' Hs; simpl;
    destruct (nth_error (arr s) i) as [a|] eqn:E; try discriminate;
    try (intros [= <-]; exact Hs).
  intros H. eapply IH; [|exact H]. apply Hb; [exact Hs|].
  eapply nth_error_In; eauto.
Qed.

Context {A : Type}.
Variable arr : RealExtractionResult -> list A.
Variable body : string -> A -> Acc -> Acc.
Variable targetProfilePath : string.
Variable P : RealExtractionResult -> Prop.
(** The records that may come in from the store. *)
Variable Src : A -> Prop.

(** The body keeps [P] when it is fed a record of the store or a record
    of the target itself. *)
Hypothesis step :
  forall path a acc,
    P (targetData acc) -> Src a \/ In a (arr (targetData acc)) ->
    P (targetData (body path a acc)).

Lemma merge_from_sourced (entry : string * RealExtractionResult)
  (acc acc' : Acc) :
  (forall a, In a (arr (snd entry)) -> Src a) ->
  P (targetData acc) ->
  merge_from arr body targetProfilePath entry acc = Some acc' ->
  P (targetData acc').
Proof.
  destruct entry as [path data0]. cbn [snd]. intros Hsrc Hacc.
  unfold merge_from. destruct (_ || _)%bool; [now intros [= <-]|].
  apply (for_of_invariant_In _ _ (fun acc => P (targetData acc)));
    [|exact Hacc].
  intros a s Hs Hin. apply step; [exact Hs|].
  destruct (String.eqb path targetProfilePath); [now right | left; auto].
Qed.

Lemma merge_all_sourced (sourceData : SourceData) :
  (forall entry, In entry sourceData ->
     forall a, In a (arr (snd entry)) -> Src a) ->
  forall acc acc',
    P (targetData acc) ->
    merge_all arr body targetProfilePath sourceData acc = Some acc' ->
    P (targetData acc').
Proof.
  induction sourceData as [|entry others IH]; intros Hsrc acc acc' Hacc;
    simpl.
  - now intros [= <-].
  - destruct (merge_from arr body targetProfilePath entry acc) as [acc1|] eqn:E;
      [|discriminate].
    apply IH; [intros e He; apply Hsrc; now right|].
    apply (merge_from_sourced entry acc acc1); auto.
    apply Hsrc. now left.
Qed.

Lemma merge_type_sourced (sourceData : SourceData)
  (target target' : RealExtractionResult) (counts : Counts) :
  (forall entry, In entry sourceData ->
     forall a, In a (arr (snd entry)) -> Src a) ->
  P target ->
  merge_type arr body targetProfilePath sourceData target
  = Some (target', counts) ->
  P target'.
Proof.
  intros Hsrc Ht. unfold merge_type.
  destruct (merge_all _ _ _ _ _) as [acc|] eqn:E; [|discriminate].
  intros [= <- _].
  exact (merge_all_sourced sourceData Hsrc (mkAcc target 0 0) acc Ht E).
Qed.

End SourcedLoops.

Section Provenance.

Import Merge Provenance.

Variable sourceData : SourceData.
Variable targetProfilePath : string.
Variable config : MergeConfig.

Lemma Forall_set_nth {A : Type} (Q : A -> Prop) (i : nat) (v : A)
  (l : list A) :
  Forall Q l -> Q v -> Forall Q (set_nth i v l).
Proof.
  intros Hl Hv. revert i.
  induction Hl as [|x l Hx Hl IH]; intros [|i]; simpl; constructor; auto.
Qed.

Lemma Forall_nth_error {A : Type} (Q : A -> Prop) (l : list A) (i : nat)
  (x : A) : Forall Q l -> nth_error l i = Some x -> Q x.
Proof.
  intros Hl Hi. rewrite Forall_forall in Hl. apply Hl.
  eapply nth_error_In; eauto.
Qed.

Lemma from_store_member {A : Type} (arr : RealExtractionResult -> list A)
  (same : A -> A -> Prop) (a : A) (target : RealExtractionResult) :
  Forall (from_store sourceData arr same) (arr target) ->
  from_store sourceData arr same a \/ In a (arr target) ->
  from_store sourceData arr same a.
Proof.
  intros Hall [H | H]; [exact H|].
  rewrite Forall_forall in Hall. now apply Hall.
Qed.

Lemma merge_bookmark_drawn (path : string) (b : Bookmark.t) (acc : Acc) :
  drawn_from sourceData (targetData acc) ->
  from_store sourceData bookmarks same_bookmark b
  \/ In b (bookmarks (targetData acc)) ->
  drawn_from sourceData (targetData (merge_bookmark config path b acc)).
Proof.
  intros (Hb & Hh & Hl) Hin.
  assert (Hnew : from_store sourceData bookmarks same_bookmark
                   (bookmark_from path b)).
  { destruct (from_store_member bookmarks same_bookmark b _ Hb Hin)
      as (p & d & b0 & Hp & Hd & Hsame).
    exists p, d, b0. split; [exact Hp|]. split; [exact Hd|].
    unfold same_bookmark in *. rewrite <- Hsame. reflexivity. }
  unfold merge_bookmark.
  destruct (find_at _ (bookmarks (targetData acc))) as [[k e]|].
  - destruct (shouldReplaceBookmark e b _), (dryRun config);
      unfold drawn_from; simpl; auto.
    split; [|auto]. now apply Forall_set_nth.
  - destruct (dryRun config); unfold drawn_from; simpl; auto.
    split; [|auto]. apply Forall_app. split; [exact Hb|].
    constructor; [exact Hnew | constructor].
Qed.

Lemma merge_login_drawn (path : string) (l : Login.t) (acc : Acc) :
  drawn_from sourceData (targetData acc) ->
  from_store sourceData logins same_login l
  \/ In l (logins (targetData acc)) ->
  drawn_from sourceData (targetData (merge_login config path l acc)).
Proof.
  intros (Hb & Hh & Hl) Hin.
  assert (Hnew : from_store sourceData logins same_login
                   (login_from path l)).
  { destruct (from_store_member logins same_login l _ Hl Hin)
      as (p & d & l0 & Hp & Hd & Hsame).
    exists p, d, l0. split; [exact Hp|]. split; [exact Hd|].
    unfold same_login in *. rewrite <- Hsame. reflexivity. }
  unfold merge_login.
  destruct (find_at _ (logins (targetData acc))) as [[k e]|].
  - destruct (shouldReplaceLogin e l _), (dryRun config);
      unfold drawn_from; simpl; auto.
    split; [auto|]. split; [auto|]. now apply Forall_set_nth.
  - destruct (dryRun config); unfold drawn_from; simpl; auto.
    split; [auto|]. split; [auto|]. apply Forall_app. split; [exact Hl|].
    constructor; [exact Hnew | constructor].
Qed.

Lemma merge_history_entry_drawn (path : string) (h : HistoryEntry.t)
  (acc : Acc) :
  drawn_from sourceData (targetData acc) ->
  from_store sourceData history same_entry h
  \/ In h (history (targetData acc)) ->
  drawn_from sourceData (targetData (merge_history_entry config path h acc)).
Proof.
  intros (Hb & Hh & Hl) Hin.
  unfold merge_history_entry.
  destruct (find_at _ (history (targetData acc))) as [[k e]|] eqn:E.
  - apply find_at_Some in E as [Hk _].
    destruct (dryRun config); unfold drawn_from; simpl; auto.
    split; [auto|]. split; [|auto]. apply Forall_set_nth; [exact Hh|].
    destruct (Forall_nth_error _ _ _ _ Hh Hk)
      as (p & d & e0 & Hp & Hd & Hsame).
    exists p, d, e0. split; [exact Hp|]. split; [exact Hd|]. exact Hsame.
  - destruct (dryRun config); unfold drawn_from; simpl; auto.
    split; [auto|]. split; [|auto]. apply Forall_app. split; [exact Hh|].
    constructor; [|constructor].
    destruct (from_store_member history same_entry h _ Hh Hin)
      as (p & d & h0 & Hp & Hd & Hsame).
    exists p, d, h0. split; [exact Hp|]. split; [exact Hd|]. exact Hsame.
Qed.

Lemma store_records {A : Type} (arr : RealExtractionResult -> list A)
  (same : A -> A -> Prop) :
  (forall x, same x x) ->
  forall entry, In entry sourceData ->
    forall a, In a (arr (snd entry)) -> from_store sourceData arr same a.
Proof.
  intros Hrefl [path data] Hentry a Ha. exists path, data, a. auto.
Qed.

Lemma same_entry_refl (h : HistoryEntry.t) : same_entry h h.
Proof. repeat split. Qed.

Lemma mergeSpecificDataType_drawn (dataType : MergeDataType) (run run' : Run) :
  drawn_from sourceData (run_target run) ->
  mergeSpecificDataType dataType sourceData targetProfilePath config run
  = Some run' ->
  drawn_from sourceData (run_target run').
Proof.
  intros Hp.
  destruct dataType; simpl; unfold run_placeholder, run_merge;
    try (intros [= <-]; exact Hp).
  - destruct (mergeBookmarks _ _ _ _) as [[t c]|] eqn:E; [|discriminate].
    intros [= <-]. simpl.
    exact (merge_type_sourced bookmarks (merge_bookmark config)
             targetProfilePath (drawn_from sourceData)
             (from_store sourceData bookmarks same_bookmark)
             (merge_bookmark_drawn) sourceData _ _ _
             (store_records bookmarks same_bookmark (fun x => eq_refl))
             Hp E).
  - destruct (mergeHistory _ _ _ _) as [[t c]|] eqn:E; [|discriminate].
    intros [= <-]. simpl.
    exact (merge_type_sourced history (merge_history_entry config)
             targetProfilePath (drawn_from sourceData)
             (from_store sourceData history same_entry)
             (merge_history_entry_drawn) sourceData _ _ _
             (store_records history same_entry same_entry_refl)
             Hp E).
  - destruct (mergeLogins _ _ _ _) as [[t c]|] eqn:E; [|discriminate].
    intros [= <-]. simpl.
    exact (merge_type_sourced logins (merge_login config)
             targetProfilePath (drawn_from sourceData)
             (from_store sourceData logins same_login)
             (merge_login_drawn) sourceData _ _ _
             (store_records logins same_login (fun x => eq_refl))
             Hp E).
Qed.

Lemma run_types_drawn (dataTypes : list MergeDataType) (run run' : Run) :
  drawn_from sourceData (run_target run) ->
  run_types dataTypes sourceData targetProfilePath config run = Some run' ->
  drawn_from sourceData (run_target run').
Proof.
  revert run. induction dataTypes as [|t ts IH]; intros run Hp; simpl.
  - now intros [= <-].
  - destruct (mergeSpecificDataType t _ _ _ run) as [run1|] eqn:E;
      [|discriminate].
    apply IH. exact (mergeSpecificDataType_drawn _ _ _ Hp E).
Qed.

Lemma selected_types_drawn (dataTypes : list MergeDataType) (run run' : Run) :
  drawn_from sourceData (run_target run) ->
  selected_types dataTypes sourceData targetProfilePath config run = Some run' ->
  drawn_from sourceData (run_target run').
Proof.
  revert run. induction dataTypes as [|t ts IH]; intros run Hp; simpl.
  - now intros [= <-].
  - destruct t; try (now apply run_types_drawn);
      match goal with
      | |- context [mergeSpecificDataType ?t _ _ _ _] =>
          destruct (mergeSpecificDataType t sourceData targetProfilePath
                      config run) as [run1|] eqn:E; [|discriminate];
          apply IH; exact (mergeSpecificDataType_drawn _ _ _ Hp E)
      end.
Qed.

Lemma Map_get_In (key : string) (value : RealExtractionResult) :
  Map_get sourceData key = Some value ->
  exists path, In (path, value) sourceData.
Proof.
  induction sourceData as [|[k v] others IH]; simpl; [discriminate|].
  destruct (String.eqb k key).
  - intros [= ->]. exists k. now left.
  - intros H. destruct (IH H) as [path Hp]. exists path. now right.
Qed.

(** X30.  A merge invents nothing.  After [mergeProfiles], every
    bookmark and every login of the target is a bookmark or a login of
    some profile of the store as it was before the call, changed at most
    in [mergedFrom]; and every history entry of the target has the id,
    URL, title, typed count, source and browser of a history entry of
    some profile of the store (its visit count and last visit time may
    have been combined). *)
Theorem mergeProfiles_invents_nothing (target : RealExtractionResult) :
  Map_get sourceData targetProfilePath = Some target ->
  exists result store target',
    mergeProfiles sourceData targetProfilePath config = Some (result, store)
    /\ Map_get store targetProfilePath = Some target'
    /\ drawn_from sourceData target'.
Proof.
  intros Hget. unfold mergeProfiles. rewrite Hget.
  destruct (selected_types_total sourceData targetProfilePath config
              (mergeTypes config) (mkRun target initial_result))
    as [run E].
  rewrite E. eexists; eexists; exists (run_target run).
  split; [reflexivity|]. split; [now apply (Map_get_put _ _ target)|].
  apply (selected_types_drawn (mergeTypes config)
           (mkRun target initial_result) run); [|exact E].
  destruct (Map_get_In _ _ Hget) as [path Hin]. cbn [run_target].
  repeat split; apply Forall_forall; intros x Hx; exists path, target, x;
    repeat split; auto.
Qed.

End Provenance.

Lemma mergeProfiles_invents_nothing_witness :
  exists result store target',
    Merge.mergeProfiles Examples.slash_store "/profiles/target"
      Examples.real_run
    = Some (result, store)
    /\ Merge.Map_get store "/profiles/target" = Some target'
    /\ Provenance.drawn_from Examples.slash_store target'.
Proof.
  apply (mergeProfiles_invents_nothing Examples.slash_store
           "/profiles/target" Examples.real_run
           (Merge.mkData
              [Examples.bookmark "https://example.com/" 1700000000000] [] [])).
  reflexivity.
Defined.
